(** * Answer extraction of the GSM8k-Aug dataset builders

    A shallow embedding of the answer-extraction code shared by
    [create_gsm8k_metamath.py], [create_gsm8k_mumath.py] and
    [create_gsm8k_mugglemath.py]:

    - [last_boxed_only_string] and [remove_boxed] (textually identical in
      the three scripts),
    - [extract_answer_from_text] with its three [re.search] patterns
      (metamath and mumath),
    - the two orchestrators [extract_answer]: phrase stage first (metamath,
      mumath) and boxed stage first (mugglemath),
    - the loops of [create_dataset] in the three scripts, and
      [count_unique_queries] of [count_unique_queries.py].

    A Python [str] is a sequence of code points; a code point is a number
    ([N]), a text is a list of them. *)

From Stdlib Require Import String Ascii.
From Stdlib Require Import List NArith ZArith Lia Bool.
Import ListNotations.

(** ** Texts *)

Definition char := N.
Definition text := list char.

(** The text of a literal of the source (Rocq literals have no escapes, so
    a backslash is written once). *)
Definition str (s : string) : text :=
  List.map N_of_ascii (list_ascii_of_string s).

Definition NL : char := 10%N.        (* "\n" *)
Definition lbrace : char := 123%N.   (* "{" *)
Definition rbrace : char := 125%N.   (* "}" *)
Definition dot : char := 46%N.       (* "." *)

(** [str.isspace] on one code point, which is also what [\s] matches in a
    [str] pattern and what [str.strip()] removes. *)
Definition is_space (c : char) : bool :=
  ((9 <=? c) && (c <=? 13) || (28 <=? c) && (c <=? 32)
   || (c =? 133) || (c =? 160) || (c =? 5760)
   || (8192 <=? c) && (c <=? 8202)
   || (c =? 8232) || (c =? 8233) || (c =? 8239) || (c =? 8287)
   || (c =? 12288))%N.

(** Truth value of a [str]: non-empty. *)
Definition truthy (s : text) : bool :=
  match s with [] => false | _ :: _ => true end.

Fixpoint text_eqb (a b : text) : bool :=
  match a, b with
  | [], [] => true
  | x :: a', y :: b' => (x =? y)%N && text_eqb a' b'
  | _, _ => false
  end.

(** [s.startswith(p)] *)
Fixpoint startswith (s p : text) {struct p} : bool :=
  match p with
  | [] => true
  | y :: p' =>
      match s with
      | [] => false
      | x :: s' => (x =? y)%N && startswith s' p'
      end
  end.

(** [s.endswith(p)] *)
Definition endswith (s p : text) : bool := startswith (rev s) (rev p).

(** [sub in s] *)
Fixpoint contains (s sub : text) : bool :=
  startswith s sub ||
  match s with
  | [] => false
  | _ :: s' => contains s' sub
  end.

(** [s.rfind(sub)]: the highest index at which [sub] starts, [-1] when
    there is none. *)
Fixpoint rfind (s sub : text) : Z :=
  match s with
  | [] => if startswith [] sub then 0 else -1
  | _ :: s' =>
      let r := rfind s' sub in
      if (0 <=? r)%Z then (r + 1)%Z
      else if startswith s sub then 0%Z else (-1)%Z
  end.

(** [s[lo:hi]] for [0 <= lo]. *)
Definition slice (s : text) (lo hi : Z) : text :=
  firstn (Z.to_nat (hi - lo)) (skipn (Z.to_nat lo) s).

(** [s[lo:-1]] *)
Definition slice_drop_last (s : text) (lo : Z) : text :=
  slice s lo (Z.of_nat (length s) - 1).

(** [s[lo:]] *)
Definition slice_from (s : text) (lo : Z) : text := skipn (Z.to_nat lo) s.

Fixpoint dropwhile (p : char -> bool) (s : text) : text :=
  match s with
  | [] => []
  | c :: s' => if p c then dropwhile p s' else s
  end.

Definition lstrip (s : text) : text := dropwhile is_space s.
Definition rstrip (s : text) : text := rev (dropwhile is_space (rev s)).

(** [s.strip()] *)
Definition strip (s : text) : text := rstrip (lstrip s).

(** [s.rstrip('.')] *)
Definition rstrip_dot (s : text) : text :=
  rev (dropwhile (fun c => (c =? dot)%N) (rev s)).

(** ** The boxed stage: [last_boxed_only_string] and [remove_boxed] *)

(** The [while i < len(string)] loop of [last_boxed_only_string]: [rest]
    is [string[i:]], [n] is [num_left_braces_open]; the result is
    [right_brace_idx], [None] when the loop ends without [break]. *)
Fixpoint brace_loop (rest : text) (i : Z) (n : Z) : option Z :=
  match rest with
  | [] => None
  | c :: rest' =>
      let n := if (c =? lbrace)%N then (n + 1)%Z else n in
      if (c =? rbrace)%N then
        let n := (n - 1)%Z in
        if (n =? 0)%Z then Some i else brace_loop rest' (i + 1) n
      else brace_loop rest' (i + 1) n
  end.

(** [last_boxed_only_string] from [i = idx] on. *)
Definition scan_from (string : text) (idx : Z) : option text :=
  match brace_loop (slice_from string idx) idx 0 with
  | None => None
  | Some right_brace_idx => Some (slice string idx (right_brace_idx + 1))
  end.

Definition last_boxed_only_string (string : text) : option text :=
  let idx := rfind string (str "\boxed") in
  if (idx <? 0)%Z then
    let idx := rfind string (str "\fbox") in
    if (idx <? 0)%Z then None
    else scan_from string idx
  else scan_from string idx.

(** [after_spaced] is the rest of the function after its first [if]
    statement, which is reached when that statement does not return. *)
Definition remove_boxed (s : text) : option text :=
  let after_spaced :=
    let left := str "\boxed{" in
    if startswith s left && endswith s [rbrace] then
      Some (slice_drop_last s (Z.of_nat (length left)))
    else
      let left := str "\fbox{" in
      if startswith s left && endswith s [rbrace] then
        Some (slice_drop_last s (Z.of_nat (length left)))
      else None in
  if contains s (str "\boxed ") then
    let left := str "\boxed " in
    if text_eqb (slice s 0 (Z.of_nat (length left))) left then
      Some (slice_from s (Z.of_nat (length left)))
    else after_spaced
  else after_spaced.

(** ** Control flow of a function body

    A block of statements either executes [return v], or runs to its end
    and falls through to the next statement, or raises an exception. *)

Inductive flow : Type :=
| Return (v : text)
| Fall
| Raise.

Definition then_ (a b : flow) : flow :=
  match a with
  | Fall => b
  | _ => a
  end.

Notation "a ;; b" := (then_ a b) (at level 61, right associativity).

(** [try: body  except Exception: pass] *)
Definition try_except_pass (body : flow) : flow :=
  match body with
  | Raise => Fall
  | _ => body
  end.

(** The result of a call: a value, or an exception (an instance of
    [Exception], which is what the [except] clauses catch) that reaches
    the caller. *)
Inductive outcome (A : Type) : Type :=
| Normal (a : A)
| Raised.

Arguments Normal {A} a.
Arguments Raised {A}.

(** The body of the boxed [try] block of [extract_answer]. *)
Definition boxed_stage (txt : text) : flow :=
  match last_boxed_only_string txt with
  | None => Fall
  | Some boxed_str =>
      match remove_boxed boxed_str with
      | None => Fall
      | Some ans =>
          let ans := strip ans in
          if truthy ans then Return ans else Fall
      end
  end.

(** ** The part of [re] that the three patterns use *)

(** A character set [[...]] or [[^...]]: the listed characters, and [\s]
    when [with_space] is set. A single character such as [\.] is the set
    of that character. *)
Record charset : Type := {
  negated : bool;
  members : list char;
  with_space : bool
}.

Definition cs_match (cs : charset) (c : char) : bool :=
  xorb (negated cs)
       (existsb (N.eqb c) (members cs) || with_space cs && is_space c).

Inductive regex : Type :=
| RLit (l : text)            (* literal characters *)
| RSet (cs : charset)        (* one character of a set *)
| RPlus (cs : charset)       (* X+   greedy *)
| RPlusLazy (cs : charset)   (* X+?  lazy *)
| ROpt (cs : charset)        (* X?   greedy *)
| REnd                       (* $    without MULTILINE *)
| RGroup (r : regex)         (* ( ... ), group 1 *)
| RSeq (r1 r2 : regex).

(** The match object: what [group(1)] gives, [None] when the group took no
    part in the match. *)
Record re_match : Type := { group1 : option text }.

(** [$]: at the end of the string, or just before a newline that ends
    it. *)
Definition at_end (s : text) : bool :=
  match s with
  | [] => true
  | [c] => (c =? NL)%N
  | _ => false
  end.

Fixpoint lit (l s : text) {struct l} : option text :=
  match l with
  | [] => Some s
  | y :: l' =>
      match s with
      | [] => None
      | x :: s' => if (x =? y)%N then lit l' s' else None
      end
  end.

Section Matcher.

Variable A : Type.

(** Backtracking in continuation-passing style: [k] is the rest of the
    pattern, tried on the rest of the string; alternatives are tried in
    the engine's priority order and the first success is the match. *)

Fixpoint star_greedy (cs : charset) (s : text) (k : text -> option A)
  : option A :=
  match s with
  | [] => k []
  | c :: s' =>
      if cs_match cs c then
        match star_greedy cs s' k with
        | Some m => Some m
        | None => k s
        end
      else k s
  end.

Fixpoint star_lazy (cs : charset) (s : text) (k : text -> option A)
  : option A :=
  match k s with
  | Some m => Some m
  | None =>
      match s with
      | [] => None
      | c :: s' => if cs_match cs c then star_lazy cs s' k else None
      end
  end.

Definition one (cs : charset) (s : text) (k : text -> option A)
  : option A :=
  match s with
  | [] => None
  | c :: s' => if cs_match cs c then k s' else None
  end.

Definition opt_greedy (cs : charset) (s : text) (k : text -> option A)
  : option A :=
  match one cs s k with
  | Some m => Some m
  | None => k s
  end.

(** [run r s g k]: match [r] at the head of [s], [g] being group 1 so
    far. *)
Fixpoint run (r : regex) (s : text) (g : option text)
         (k : text -> option text -> option A) : option A :=
  match r with
  | RLit l =>
      match lit l s with
      | Some s' => k s' g
      | None => None
      end
  | RSet cs => one cs s (fun s' => k s' g)
  | RPlus cs => one cs s (fun s' => star_greedy cs s' (fun s'' => k s'' g))
  | RPlusLazy cs => one cs s (fun s' => star_lazy cs s' (fun s'' => k s'' g))
  | ROpt cs => opt_greedy cs s (fun s' => k s' g)
  | REnd => if at_end s then k s g else None
  | RGroup r1 =>
      run r1 s g
          (fun s' _ => k s' (Some (firstn (length s - length s') s)))
  | RSeq r1 r2 => run r1 s g (fun s' g' => run r2 s' g' k)
  end.

End Matcher.

Arguments star_greedy {A} cs s k.
Arguments star_lazy {A} cs s k.
Arguments one {A} cs s k.
Arguments opt_greedy {A} cs s k.
Arguments run {A} r s g k.

(** A match of the whole pattern starting at the head of [s]. *)
Definition match_here (r : regex) (s : text) : option re_match :=
  run r s None (fun _ g => Some {| group1 := g |}).

(** [re.search(pattern, s)]: the match at the leftmost position that has
    one, the end of the string included. *)
Fixpoint re_search (pattern : regex) (s : text) : option re_match :=
  match match_here pattern s with
  | Some m => Some m
  | None =>
      match s with
      | [] => None
      | _ :: s' => re_search pattern s'
      end
  end.

(** ** The phrase stage: [extract_answer_from_text] *)

Definition set_Tt : charset :=                    (* [Tt] *)
  {| negated := false; members := str "Tt"; with_space := false |}.
Definition set_colon_space : charset :=           (* [:\s] *)
  {| negated := false; members := str ":"; with_space := true |}.
Definition set_not_newline : charset :=           (* [^\n] *)
  {| negated := true; members := [NL]; with_space := false |}.
Definition set_dot : charset :=                   (* \. *)
  {| negated := false; members := [dot]; with_space := false |}.

(** [[Tt]he answer is[:\s]+([^\n]+?)\.?$] *)
Definition pattern1 : regex :=
  RSeq (RSet set_Tt) (RSeq (RLit (str "he answer is"))
  (RSeq (RPlus set_colon_space) (RSeq (RGroup (RPlusLazy set_not_newline))
  (RSeq (ROpt set_dot) REnd)))).

(** [[Tt]he answer is[:\s]+([^\n]+)] *)
Definition pattern2 : regex :=
  RSeq (RSet set_Tt) (RSeq (RLit (str "he answer is"))
  (RSeq (RPlus set_colon_space) (RGroup (RPlus set_not_newline)))).

(** [#### ([^\n]+?)\.?$] *)
Definition pattern3 : regex :=
  RSeq (RLit (str "#### ")) (RSeq (RGroup (RPlusLazy set_not_newline))
  (RSeq (ROpt set_dot) REnd)).

Definition patterns : list regex := [pattern1; pattern2; pattern3].

(** The [for pattern in patterns] loop over the stripped text. Calling
    [strip] on a group that is [None] raises. *)
Fixpoint for_patterns (ps : list regex) (stripped : text)
  : outcome (option text) :=
  match ps with
  | [] => Normal None
  | pattern :: ps' =>
      match re_search pattern stripped with
      | None => for_patterns ps' stripped
      | Some m =>
          match group1 m with
          | None => Raised
          | Some g =>
              let answer := strip g in
              let answer := rstrip_dot answer in
              if truthy answer then Normal (Some answer)
              else for_patterns ps' stripped
          end
      end
  end.

Definition extract_answer_from_text (txt : text) : outcome (option text) :=
  if negb (truthy txt) then Normal None
  else for_patterns patterns (strip txt).

(** The body of the phrase [try] block of [extract_answer]. *)
Definition phrase_stage (txt : text) : flow :=
  match extract_answer_from_text txt with
  | Raised => Raise
  | Normal None => Fall
  | Normal (Some ans) => if truthy ans then Return (strip ans) else Fall
  end.

(** ** The symbolic stage

    [math_verify] is an external library. [parse txt] stands for
    [parse(text, _PRED_EXTRACTION_CONFIG)]: it raises, or returns a list,
    given here by the [str(...)] of its elements. *)

Definition parser := text -> outcome (list text).

(** The body of the [try] block around [parse]. *)
Definition symbolic_stage (parse : parser) (txt : text) : flow :=
  match parse txt with
  | Raised => Raise
  | Normal parsed =>
      match rev parsed with
      | [] => Fall
      | last_parsed :: _ =>
          let ans := strip last_parsed in
          if truthy ans then Return ans else Fall
      end
  end.

(** What the caller of a function whose body ran as [f] gets. *)
Definition call (f : flow) : outcome text :=
  match f with
  | Return v => Normal v
  | Fall => Normal []      (* not reached by [extract_answer] *)
  | Raise => Raised
  end.

(** ** The orchestrators *)

(** [extract_answer] of [create_gsm8k_metamath.py]; the one of
    [create_gsm8k_mumath.py] has the same statements. *)
Module Metamath.
Section WithParser.

Variable MATH_VERIFY_AVAILABLE : bool.
Variable parse : parser.

Definition extract_answer_body (txt : text) : flow :=
  (if negb (truthy txt) then Return [] else Fall) ;;
  try_except_pass (phrase_stage txt) ;;
  try_except_pass (boxed_stage txt) ;;
  (if MATH_VERIFY_AVAILABLE
   then try_except_pass (symbolic_stage parse txt) else Fall) ;;
  Return [].

Definition extract_answer (txt : text) : outcome text :=
  call (extract_answer_body txt).

End WithParser.
End Metamath.

(** [extract_answer] of [create_gsm8k_mugglemath.py]: the boxed stage
    first, and no phrase stage. *)
Module Mugglemath.
Section WithParser.

Variable MATH_VERIFY_AVAILABLE : bool.
Variable parse : parser.

Definition extract_answer_body (txt : text) : flow :=
  (if negb (truthy txt) then Return [] else Fall) ;;
  try_except_pass (boxed_stage txt) ;;
  (if MATH_VERIFY_AVAILABLE
   then try_except_pass (symbolic_stage parse txt) else Fall) ;;
  Return [].

Definition extract_answer (txt : text) : outcome text :=
  call (extract_answer_body txt).

End WithParser.
End Mugglemath.

(** A parser that always fails, for runs without [math_verify]. *)
Definition no_parse : parser := fun _ => Raised.

(** ** Values, rows and loops of the dataset builders *)

(** A value that a builder reads from the corpus or from a line of a
    file. The code tests the fields of its records and calls string
    methods on them, so a value is a string, a dict with string keys, or
    another value ([None], a number, a boolean, a list): of the last, the
    code sees its truth value, whether it can be hashed, and which values
    it equals; [cls] names the class of the values that [==] it. *)
#[warnings="-register-all"] Inductive pyval : Type :=
| PStr (s : text)
| PDict (items : list (text * pyval))
| POther (truth hashable : bool) (cls : nat).

(** A dict, given by its items, each key once. *)
Definition dict := list (text * pyval).

(** [bool(v)] *)
Definition val_truthy (v : pyval) : bool :=
  match v with
  | PStr s => truthy s
  | PDict items => match items with [] => false | _ :: _ => true end
  | POther truth _ _ => truth
  end.

(** Whether [hash(v)] returns; it raises [TypeError] on a dict. *)
Definition hashable (v : pyval) : bool :=
  match v with
  | PStr _ => true
  | PDict _ => false
  | POther _ h _ => h
  end.

(** [a == b], on the values that can be hashed: a string equals no value
    of another type. *)
Definition same (a b : pyval) : bool :=
  match a, b with
  | PStr s, PStr t => text_eqb s t
  | POther _ _ c, POther _ _ d => Nat.eqb c d
  | _, _ => false
  end.

(** [d.get(key, default)] on a dict. *)
Fixpoint dict_get (d : dict) (key : text) (default : pyval) : pyval :=
  match d with
  | [] => default
  | (k, v) :: d' => if text_eqb k key then v else dict_get d' key default
  end.

(** [d[key]], which raises [KeyError] for a missing key. *)
Fixpoint dict_item (d : dict) (key : text) : outcome pyval :=
  match d with
  | [] => Raised
  | (k, v) :: d' => if text_eqb k key then Normal v else dict_item d' key
  end.

(** [v.get(key, default)] on a value: only a dict has the method, on
    another value the attribute lookup raises [AttributeError]. *)
Definition val_get (v : pyval) (key : text) (default : pyval)
  : outcome pyval :=
  match v with
  | PDict items => Normal (dict_get items key default)
  | _ => Raised
  end.

(** A dict of counters, such as [type_counts], in the order of
    insertion. *)
Definition counts := list (pyval * nat).

(** [d.get(key, default)] on counters, for a key that can be hashed. *)
Fixpoint counts_get (d : counts) (key : pyval) (default : nat) : nat :=
  match d with
  | [] => default
  | (k, v) :: d' => if same k key then v else counts_get d' key default
  end.

(** [d[key] = v], for a key that can be hashed. *)
Fixpoint counts_set (d : counts) (key : pyval) (v : nat) : counts :=
  match d with
  | [] => [(key, v)]
  | (k, x) :: d' =>
      if same k key then (k, v) :: d' else (k, x) :: counts_set d' key v
  end.

(** [for x in xs: body]: the body acts on the local variables [st]; an
    exception raised by the body ends the loop and goes on upwards. *)
Fixpoint for_each {S X : Type} (body : S -> X -> outcome S) (xs : list X)
         (st : S) : outcome S :=
  match xs with
  | [] => Normal st
  | x :: xs' =>
      match body st x with
      | Raised => Raised
      | Normal st' => for_each body xs' st'
      end
  end.

(** A file as the code meets it: [open] raises, or iterating over the
    file yields the lines [ls] and then ends, or raises where
    [complete] is [false] (a line that cannot be decoded). *)
Inductive file : Type :=
| NoFile
| Lines (ls : list text) (complete : bool).

Definition lines_of (f : file) : list text :=
  match f with
  | NoFile => []
  | Lines ls _ => ls
  end.

(** [with open(file_path) as f: for line in f: body] *)
Definition for_lines {S : Type} (body : S -> text -> outcome S) (f : file)
           (st : S) : outcome S :=
  match f with
  | NoFile => Raised
  | Lines ls complete =>
      match for_each body ls st with
      | Raised => Raised
      | Normal st' => if complete then Normal st' else Raised
      end
  end.

(** *** [extract_answer] on a value that need not be a string

    The builders pass the [response] of a record to [extract_answer]
    as it is. On a string the stages are those above. On another value
    that is true, [text.strip()] in the phrase stage and
    [string.rfind] in the boxed stage raise, inside their [try]; [parse]
    is the library's and gets the value. *)

Definition value_parser := pyval -> outcome (list text).

(** The parser that the stages above see on strings. *)
Definition on_text (parse : value_parser) : parser :=
  fun txt => parse (PStr txt).

(** The body of the phrase [try] block: [extract_answer_from_text]
    returns [None] for a value that is not true, before any method is
    called on it. *)
Definition phrase_stage_of (v : pyval) : flow :=
  match v with
  | PStr txt => phrase_stage txt
  | _ => if val_truthy v then Raise else Fall
  end.

(** The body of the boxed [try] block: [last_boxed_only_string] starts
    with [string.rfind]. *)
Definition boxed_stage_of (v : pyval) : flow :=
  match v with
  | PStr txt => boxed_stage txt
  | _ => Raise
  end.

(** The body of the [try] block around [parse]. *)
Definition symbolic_stage_of (parse : value_parser) (v : pyval) : flow :=
  match parse v with
  | Raised => Raise
  | Normal parsed =>
      match rev parsed with
      | [] => Fall
      | last_parsed :: _ =>
          let ans := strip last_parsed in
          if truthy ans then Return ans else Fall
      end
  end.

(** [extract_answer] of [create_gsm8k_metamath.py] and of
    [create_gsm8k_mumath.py]. *)
Module MetamathValue.
Section WithParser.

Variable MATH_VERIFY_AVAILABLE : bool.
Variable parse : value_parser.

Definition extract_answer_body (v : pyval) : flow :=
  (if negb (val_truthy v) then Return [] else Fall) ;;
  try_except_pass (phrase_stage_of v) ;;
  try_except_pass (boxed_stage_of v) ;;
  (if MATH_VERIFY_AVAILABLE
   then try_except_pass (symbolic_stage_of parse v) else Fall) ;;
  Return [].

Definition extract_answer (v : pyval) : outcome text :=
  call (extract_answer_body v).

End WithParser.
End MetamathValue.

(** [extract_answer] of [create_gsm8k_mugglemath.py]. *)
Module MugglemathValue.
Section WithParser.

Variable MATH_VERIFY_AVAILABLE : bool.
Variable parse : value_parser.

Definition extract_answer_body (v : pyval) : flow :=
  (if negb (val_truthy v) then Return [] else Fall) ;;
  try_except_pass (boxed_stage_of v) ;;
  (if MATH_VERIFY_AVAILABLE
   then try_except_pass (symbolic_stage_of parse v) else Fall) ;;
  Return [].

Definition extract_answer (v : pyval) : outcome text :=
  call (extract_answer_body v).

End WithParser.
End MugglemathValue.

(** *** The loops of [create_dataset] in [create_gsm8k_metamath.py]

    The two loops of the function: the one over [train_data], given by
    the items that iterating over it yields (dicts), and the one that
    fills [type_counts]. Loading the corpus, building the [Dataset] and
    the upload are calls of the [datasets] library around the loops and
    are not modelled, nor are the prints and the progress bar. *)
Module MetamathDataset.

Record locals : Type := {
  data : list dict;
  skipped_not_gsm : nat;
  skipped_gsm_ansaug : nat;
  skipped_no_answer : nat
}.

Section WithParser.

Variable MATH_VERIFY_AVAILABLE : bool.
Variable parse : value_parser.

(** The body of [for item in tqdm(train_data)]. On a [type] that is
    not a string, [item_type.startswith] raises. *)
Definition item_body (st : locals) (item : dict) : outcome locals :=
  let item_type := dict_get item (str "type") (PStr []) in
  match item_type with
  | PStr t =>
      if negb (startswith t (str "GSM_")) then
        Normal {| data := data st;
                  skipped_not_gsm := skipped_not_gsm st + 1;
                  skipped_gsm_ansaug := skipped_gsm_ansaug st;
                  skipped_no_answer := skipped_no_answer st |}
      else if text_eqb t (str "GSM_AnsAug") then
        Normal {| data := data st;
                  skipped_not_gsm := skipped_not_gsm st;
                  skipped_gsm_ansaug := skipped_gsm_ansaug st + 1;
                  skipped_no_answer := skipped_no_answer st |}
      else
        let query := dict_get item (str "query") (PStr []) in
        let response := dict_get item (str "response") (PStr []) in
        match MetamathValue.extract_answer MATH_VERIFY_AVAILABLE parse
                response with
        | Raised => Raised
        | Normal answer =>
            if truthy answer then
              Normal {| data := data st ++
                                [[(str "problem", query);
                                  (str "answer", PStr answer);
                                  (str "datasource",
                                   PStr (str "gsm8k-metamath"));
                                  (str "type", item_type)]];
                        skipped_not_gsm := skipped_not_gsm st;
                        skipped_gsm_ansaug := skipped_gsm_ansaug st;
                        skipped_no_answer := skipped_no_answer st |}
            else
              Normal {| data := data st;
                        skipped_not_gsm := skipped_not_gsm st;
                        skipped_gsm_ansaug := skipped_gsm_ansaug st;
                        skipped_no_answer := skipped_no_answer st + 1 |}
        end
  | _ => Raised
  end.

(** The loop over [train_data], from the four initialisations on. *)
Definition item_loop (train_data : list dict) : outcome locals :=
  for_each item_body train_data
    {| data := []; skipped_not_gsm := 0; skipped_gsm_ansaug := 0;
       skipped_no_answer := 0 |}.

End WithParser.

(** The body of [for item in data], which fills [type_counts]:
    [item['type']] raises on a missing key, and a dict takes no key that
    cannot be hashed. *)
Definition count_body (type_counts : counts) (item : dict) : outcome counts :=
  match dict_item item (str "type") with
  | Raised => Raised
  | Normal t =>
      if hashable t then
        Normal (counts_set type_counts t (counts_get type_counts t 0 + 1))
      else Raised
  end.

(** The loop over [data], from [type_counts = {}] on. *)
Definition type_counts_loop (data : list dict) : outcome counts :=
  for_each count_body data [].

End MetamathDataset.

(** *** The line loops of [create_gsm8k_mugglemath.py] and
    [create_gsm8k_mumath.py]

    [json.loads] is the library's and is a parameter: it raises, or
    returns the value of the line, which need not be a dict. The progress
    bar and the prints are not modelled. *)
Module Jsonl.

Record locals : Type := {
  data : list dict;
  skipped : nat
}.

Section WithLibraries.

Variable json_loads : text -> outcome pyval.
Variable extract_answer : pyval -> outcome text.
Variable datasource : text.

(** The body of [for line in f]. *)
Definition line_body (st : locals) (line : text) : outcome locals :=
  let line := strip line in
  if truthy line then
    match json_loads line with
    | Raised => Raised
    | Normal item =>
        match val_get item (str "query") (PStr []) with
        | Raised => Raised
        | Normal query =>
            match val_get item (str "response") (PStr []) with
            | Raised => Raised
            | Normal response =>
                match extract_answer response with
                | Raised => Raised
                | Normal answer =>
                    if truthy answer then
                      Normal {| data := data st ++
                                        [[(str "problem", query);
                                          (str "answer", PStr answer);
                                          (str "datasource",
                                           PStr datasource)]];
                                skipped := skipped st |}
                    else
                      Normal {| data := data st;
                                skipped := skipped st + 1 |}
                end
            end
        end
    end
  else Normal st.

(** [with open(file_path) as f: for line in f: ...] *)
Definition file_body (st : locals) (f : file) : outcome locals :=
  for_lines line_body f st.

End WithLibraries.
End Jsonl.

(** The loops of [create_dataset] in [create_gsm8k_mugglemath.py], from
    [data = []] to the end of the loop over the files. *)
Module MugglemathDataset.
Section WithLibraries.

Variable MATH_VERIFY_AVAILABLE : bool.
Variable parse : value_parser.
Variable json_loads : text -> outcome pyval.

Definition file_loop (files : list file) : outcome Jsonl.locals :=
  for_each
    (Jsonl.file_body json_loads
       (MugglemathValue.extract_answer MATH_VERIFY_AVAILABLE parse)
       (str "gsm8k-mugglemath"))
    files
    {| Jsonl.data := []; Jsonl.skipped := 0 |}.

End WithLibraries.
End MugglemathDataset.

(** The loop of [create_dataset] in [create_gsm8k_mumath.py], from
    [data = []] to the end of the loop over the lines of the one file. *)
Module MumathDataset.
Section WithLibraries.

Variable MATH_VERIFY_AVAILABLE : bool.
Variable parse : value_parser.
Variable json_loads : text -> outcome pyval.

Definition line_loop (f : file) : outcome Jsonl.locals :=
  Jsonl.file_body json_loads
    (MetamathValue.extract_answer MATH_VERIFY_AVAILABLE parse)
    (str "gsm8k-mumath")
    {| Jsonl.data := []; Jsonl.skipped := 0 |}
    f.

End WithLibraries.
End MumathDataset.

(** *** [count_unique_queries.py]

    The result holds the numbers printed before the duplicate rate; the
    rate is a float and only its division is kept:
    [duplicates / total_lines] raises [ZeroDivisionError] when
    [total_lines] is 0. *)
Module CountUnique.

Record locals : Type := {
  all_queries : list pyval;
  file_counts : list nat
}.

Record stats : Type := {
  per_file : list nat;        (* [file_counts], printed by index 0 and 1 *)
  total_lines : nat;
  unique_queries : nat;       (* [len(unique_queries)] *)
  duplicates : Z
}.

(** The elements of [set(l)], one for each class of equal values. *)
Fixpoint dedup (l : list pyval) : list pyval :=
  match l with
  | [] => []
  | x :: l' => if existsb (same x) l' then dedup l' else x :: dedup l'
  end.

(** [set(l)]: every element is hashed, which raises [TypeError] on the
    first that cannot be. *)
Definition set_of (l : list pyval) : outcome (list pyval) :=
  if forallb hashable l then Normal (dedup l) else Raised.

Section WithLibraries.

Variable json_loads : text -> outcome pyval.

(** The body of [for line in f], on [all_queries] and [count]. *)
Definition line_body (st : list pyval * nat) (line : text)
  : outcome (list pyval * nat) :=
  let line := strip line in
  if truthy line then
    match json_loads line with
    | Raised => Raised
    | Normal data =>
        match val_get data (str "query") (PStr []) with
        | Raised => Raised
        | Normal query => Normal (fst st ++ [query], snd st + 1)
        end
    end
  else Normal st.

(** The body of [for file_path in files]. *)
Definition file_body (st : locals) (f : file) : outcome locals :=
  match for_lines line_body f (all_queries st, 0) with
  | Raised => Raised
  | Normal (queries, count) =>
      Normal {| all_queries := queries;
                file_counts := file_counts st ++ [count] |}
  end.

Definition count_unique_queries (file1 file2 : file) : outcome stats :=
  match for_each file_body [file1; file2]
          {| all_queries := []; file_counts := [] |} with
  | Raised => Raised
  | Normal st =>
      match set_of (all_queries st) with
      | Raised => Raised
      | Normal unique_queries =>
          let total_lines := fold_left Nat.add (file_counts st) 0 in
          let duplicates :=
            (Z.of_nat total_lines - Z.of_nat (length unique_queries))%Z in
          if (total_lines =? 0)%nat then Raised
          else Normal {| per_file := file_counts st;
                         total_lines := total_lines;
                         unique_queries := length unique_queries;
                         duplicates := duplicates |}
      end
  end.

End WithLibraries.
End CountUnique.

(** ** Vocabulary of the statements on the dataset builders *)

(** The [type] of an item of the corpus; [type_of] is its text when it is
    a string. *)
Definition item_type (item : dict) : pyval :=
  dict_get item (str "type") (PStr []).

Definition typed (item : dict) : bool :=
  match item_type item with
  | PStr _ => true
  | _ => false
  end.

Definition type_of (item : dict) : text :=
  match item_type item with
  | PStr t => t
  | _ => []
  end.

(** The two tests of the loop on the type. *)
Definition gsm_type (item : dict) : bool :=
  startswith (type_of item) (str "GSM_").

Definition ans_aug (item : dict) : bool :=
  text_eqb (type_of item) (str "GSM_AnsAug").

(** The answer that [extract] gives for the [response] of an item (the
    empty string where it raises). *)
Definition answer_of (extract : pyval -> outcome text) (item : dict) : text :=
  match extract (dict_get item (str "response") (PStr [])) with
  | Normal a => a
  | Raised => []
  end.

(** The items of the corpus that get a row, and their rows. *)
Definition meta_keeps (extract : pyval -> outcome text) (item : dict)
  : bool :=
  gsm_type item && negb (ans_aug item) && truthy (answer_of extract item).

Definition meta_row (extract : pyval -> outcome text) (item : dict) : dict :=
  [(str "problem", dict_get item (str "query") (PStr []));
   (str "answer", PStr (answer_of extract item));
   (str "datasource", PStr (str "gsm8k-metamath"));
   (str "type", item_type item)].

(** The items that the loop counts as skipped for their answer. *)
Definition meta_unanswered (extract : pyval -> outcome text) (item : dict)
  : bool :=
  gsm_type item && negb (ans_aug item)
  && negb (truthy (answer_of extract item)).

(** The rows of [rows] whose [type] is the string [t]. *)
Definition rows_of_type (t : text) (rows : list dict) : list dict :=
  filter (fun row => same (dict_get row (str "type") (PStr [])) (PStr t))
         rows.

(** A line of a file that is not blank. *)
Definition nonblank (line : text) : bool := truthy (strip line).

(** A line whose value is a dict. *)
Definition is_object (json_loads : text -> outcome pyval) (line : text)
  : bool :=
  match json_loads (strip line) with
  | Normal (PDict _) => true
  | _ => false
  end.

(** A line that the loops get past: a blank line, or one whose value is
    a dict. *)
Definition good_line (json_loads : text -> outcome pyval) (line : text)
  : bool :=
  negb (nonblank line) || is_object json_loads line.

(** The dict of a line (the empty one where there is none). *)
Definition object_of (json_loads : text -> outcome pyval) (line : text)
  : dict :=
  match json_loads (strip line) with
  | Normal (PDict items) => items
  | _ => []
  end.

(** The lines of a file that get a row, and their rows. *)
Definition line_keeps (json_loads : text -> outcome pyval)
           (extract : pyval -> outcome text) (line : text) : bool :=
  nonblank line && truthy (answer_of extract (object_of json_loads line)).

Definition line_unanswered (json_loads : text -> outcome pyval)
           (extract : pyval -> outcome text) (line : text) : bool :=
  nonblank line
  && negb (truthy (answer_of extract (object_of json_loads line))).

Definition line_row (json_loads : text -> outcome pyval)
           (extract : pyval -> outcome text) (datasource line : text) : dict :=
  [(str "problem",
    dict_get (object_of json_loads line) (str "query") (PStr []));
   (str "answer", PStr (answer_of extract (object_of json_loads line)));
   (str "datasource", PStr datasource)].

(** The [query] of the dict of a line. *)
Definition query_of (json_loads : text -> outcome pyval) (line : text)
  : pyval :=
  dict_get (object_of json_loads line) (str "query") (PStr []).

(** The lines of several files, in the order of reading. *)
Definition all_lines (files : list file) : list text :=
  concat (map lines_of files).

(** A file that is opened and read to its end. *)
Definition readable (f : file) : bool :=
  match f with
  | Lines _ true => true
  | _ => false
  end.

(** No two values of the list are equal. *)
Definition pairwise_distinct (l : list pyval) : Prop :=
  ForallOrdPairs (fun a b => same a b = false) l.

(** A stand-in for [json.loads] in the runs below. The line [5] is the
    number five; a line [q|r] is the dict with the [query] [q] and the
    [response] [r], where a [q] that starts with a bracket stands for a
    list; a line [null|r] has the [response] [r] and the [query] [None];
    every other line is rejected. *)
Fixpoint split_bar (s : text) : option (text * text) :=
  match s with
  | [] => None
  | c :: s' =>
      if (c =? 124)%N then Some ([], s')
      else match split_bar s' with
           | Some (q, r) => Some (c :: q, r)
           | None => None
           end
  end.

Definition bar_loads (line : text) : outcome pyval :=
  if text_eqb line (str "5") then Normal (POther true true 5)
  else
    match split_bar line with
    | Some (q, r) =>
        let query :=
          if startswith q (str "[") then POther true false 1
          else if text_eqb q (str "null") then POther false true 0
          else PStr q in
        Normal (PDict [(str "query", query); (str "response", PStr r)])
    | None => Raised
    end.

(** A parser that always fails, on values. *)
Definition no_value_parse : value_parser := fun _ => Raised.

(** ** Vocabulary of the statements *)

(** [sub] occurs in [s] at index [i]. *)
Definition occurs_at (sub s : text) (i : nat) : Prop :=
  exists a b, s = a ++ sub ++ b /\ length a = i.

(** [i] is the last index at which [sub] occurs in [s]. *)
Definition last_at (sub s : text) (i : nat) : Prop :=
  occurs_at sub s i /\ forall j, occurs_at sub s j -> j <= i.

Definition absent (sub s : text) : Prop :=
  forall j, ~ occurs_at sub s j.

(** The marker from which the boxed stage is specified to scan: the last
    [\boxed], or the last [\fbox] when there is no [\boxed]. *)
Definition marker_at (txt m : text) (i : nat) : Prop :=
  (m = str "\boxed" /\ last_at m txt i) \/
  (m = str "\fbox" /\ absent (str "\boxed") txt /\ last_at m txt i).

(** Brace depth after [s], starting at depth [d]; [None] when a closing
    brace has no opening one. *)
Fixpoint depth_walk (d : nat) (s : text) : option nat :=
  match s with
  | [] => Some d
  | c :: s' =>
      if (c =? lbrace)%N then depth_walk (S d) s'
      else if (c =? rbrace)%N then
        match d with
        | O => None
        | S d' => depth_walk d' s'
        end
      else depth_walk d s'
  end.

(** [X] is free of unbalanced braces. *)
Definition balanced (X : text) : Prop := depth_walk 0 X = Some 0.

Definition brace_free (s : text) : Prop :=
  forall c, In c s -> c <> lbrace /\ c <> rbrace.

(** After an opening brace, [rest] never closes it: each closing brace of
    [rest] closes a brace opened in [rest]. *)
Definition unclosed (rest : text) : Prop :=
  forall p q, rest = p ++ rbrace :: q ->
    count_occ N.eq_dec p rbrace < count_occ N.eq_dec p lbrace.

(** The signed brace count of [p]: opening minus closing braces. *)
Definition net_depth (p : text) : Z :=
  Z.of_nat (count_occ N.eq_dec p lbrace)
  - Z.of_nat (count_occ N.eq_dec p rbrace).

(** With the counter at [n] before [rest], the closing brace after [p] is
    the first one that brings the signed counter back to 0. *)
Definition stops (n : Z) (rest p q : text) : Prop :=
  rest = p ++ rbrace :: q /\
  (n + net_depth p = 1)%Z /\
  forall p' q', p = p' ++ rbrace :: q' -> (n + net_depth p' <> 1)%Z.

(** A newline that does not end the string lies ahead in [s]. *)
Definition blocked (s : text) : Prop :=
  exists u v, s = u ++ NL :: v /\ v <> [].

(** No part of [r] can consume a newline. *)
Fixpoint nl_free (r : regex) : bool :=
  match r with
  | RLit l => negb (existsb (N.eqb NL) l)
  | RSet cs | RPlus cs | RPlusLazy cs | ROpt cs => negb (cs_match cs NL)
  | REnd => true
  | RGroup r1 => nl_free r1
  | RSeq r1 r2 => nl_free r1 && nl_free r2
  end.

(** [r] is a sequence that consumes no newline and ends with [$]. *)
Fixpoint anchored (r : regex) : bool :=
  match r with
  | REnd => true
  | RSeq r1 r2 => nl_free r1 && anchored r2
  | _ => false
  end.

(** A stage yields no answer: its block falls through, or raises and the
    exception is passed over. *)
Definition not_found (stage : flow) : Prop := try_except_pass stage = Fall.

(** The block of a stage gives no answer: it falls through, or it
    raises. *)
Definition finds_nothing (stage : flow) : Prop :=
  stage = Fall \/ stage = Raise.

(** [a] is a contiguous part of [s]. *)
Definition infix (a s : text) : Prop := exists l r, s = l ++ a ++ r.

(** [r] holds the group. *)
Fixpoint has_group (r : regex) : bool :=
  match r with
  | RGroup _ => true
  | RSeq r1 r2 => has_group r1 || has_group r2
  | _ => false
  end.

(** The group of [r] cannot consume a newline. *)
Fixpoint group_nl_free (r : regex) : bool :=
  match r with
  | RGroup r1 => nl_free r1
  | RSeq r1 r2 => group_nl_free r1 && group_nl_free r2
  | _ => true
  end.

(** Group 1 after [r] has consumed [u], when it was [g] before: left as
    it was by a pattern without group, or set to a part of [u]. *)
Definition group_after (r : regex) (g g' : option text) (u : text) : Prop :=
  (g' = g /\ has_group r = false) \/
  (exists a b c, u = a ++ b ++ c /\ g' = Some b /\
                 (group_nl_free r = true -> ~ In NL b)).

(** All of [s] is white space. *)
Definition blank (s : text) : Prop := forall c, In c s -> is_space c = true.

(** Neither the first nor the last character is white space. *)
Definition trimmed (s : text) : Prop := strip s = s.

(** ** Runs on the scenarios of the specification *)

Example boxed_simple :
  Mugglemath.extract_answer false no_parse
    (str "We compute step by step. The final result is \boxed{5}")
  = Normal (str "5").
Proof. vm_compute. reflexivity. Qed.

Example boxed_nested :
  boxed_stage (str "so \boxed{1} then \boxed{ \frac{1}{2} } end")
  = Return (str "\frac{1}{2}").
Proof. vm_compute. reflexivity. Qed.

Example boxed_stray_close :
  last_boxed_only_string (str "\boxed}{5}") = None.
Proof. vm_compute. reflexivity. Qed.

Example phrase_simple :
  Metamath.extract_answer false no_parse
    (str "... so x = 3. The answer is: 3.")
  = Normal (str "3").
Proof. vm_compute. reflexivity. Qed.

Example phrase_upper :
  extract_answer_from_text (str "THE ANSWER IS: 42.") = Normal None.
Proof. vm_compute. reflexivity. Qed.

Example no_markers :
  Metamath.extract_answer false no_parse (str "no markers here at all")
  = Normal [].
Proof. vm_compute. reflexivity. Qed.

Example hash_after_phrase :
  extract_answer_from_text
    (str "The answer is: 5" ++ [NL] ++ str "#### 17")
  = Normal (Some (str "5")).
Proof. vm_compute. reflexivity. Qed.

Example boxed_period :
  Mugglemath.extract_answer false no_parse (str "\boxed{5.}")
  = Normal (str "5.").
Proof. vm_compute. reflexivity. Qed.

(** ** Texts: occurrences and [rfind] *)

Lemma startswith_app (p r : text) : startswith (p ++ r) p = true.
Proof.
  induction p as [|y p IH]; simpl; [reflexivity|].
  now rewrite N.eqb_refl.
Qed.

Lemma startswith_inv (s p : text) :
  startswith s p = true -> exists r, s = p ++ r.
Proof.
  revert s; induction p as [|y p IH]; intros s H; simpl in *.
  - now exists s.
  - destruct s as [|x s]; [discriminate|].
    apply andb_true_iff in H as [Hx Hs].
    apply N.eqb_eq in Hx; subst y.
    destruct (IH _ Hs) as [r ->]. now exists r.
Qed.

Lemma occurs_at_0 (sub s : text) :
  occurs_at sub s 0 <-> startswith s sub = true.
Proof.
  split.
  - intros (a & b & -> & Hl). destruct a; [|discriminate].
    simpl. apply startswith_app.
  - intros H. destruct (startswith_inv _ _ H) as [r ->].
    now exists [], r.
Qed.

Lemma occurs_at_S (sub s : text) (c : char) (j : nat) :
  occurs_at sub (c :: s) (S j) <-> occurs_at sub s j.
Proof.
  split.
  - intros (a & b & E & Hl). destruct a as [|x a]; [discriminate|].
    simpl in E, Hl. injection E as _ E. exists a, b. split; [assumption|lia].
  - intros (a & b & -> & Hl). exists (c :: a), b. split; [reflexivity|].
    simpl; lia.
Qed.

Lemma occurs_at_nil (sub : text) (j : nat) :
  occurs_at sub [] j -> sub = [] /\ j = 0.
Proof.
  intros (a & b & E & Hl). symmetry in E.
  apply app_eq_nil in E as [-> E]. apply app_eq_nil in E as [-> _].
  split; [reflexivity|]. simpl in Hl; lia.
Qed.

Lemma occurs_at_shift (sub s pre : text) (j : nat) :
  occurs_at sub s j -> occurs_at sub (pre ++ s) (length pre + j).
Proof.
  intros (a & b & -> & Hl). exists (pre ++ a), b.
  rewrite <- app_assoc. split; [reflexivity|].
  rewrite length_app; lia.
Qed.

Lemma occurs_at_prefix (sub ext s : text) (j : nat) :
  occurs_at (sub ++ ext) s j -> occurs_at sub s j.
Proof.
  intros (a & b & -> & Hl). exists a, (ext ++ b).
  rewrite <- app_assoc. now split.
Qed.

Lemma rfind_lower (s sub : text) : (-1 <= rfind s sub)%Z.
Proof.
  induction s as [|c s IH]; simpl.
  - destruct sub; simpl; lia.
  - destruct (0 <=? rfind s sub)%Z eqn:E; [apply Z.leb_le in E; lia|].
    destruct (startswith (c :: s) sub); lia.
Qed.

Lemma rfind_negative_absent (s sub : text) :
  (rfind s sub < 0)%Z -> absent sub s.
Proof.
  induction s as [|c s IH]; simpl; intros H j Hj.
  - apply occurs_at_nil in Hj as [-> _]. simpl in H; lia.
  - destruct (0 <=? rfind s sub)%Z eqn:E.
    + apply Z.leb_le in E; lia.
    + apply Z.leb_gt in E.
      destruct (startswith (c :: s) sub) eqn:Es; [lia|].
      destruct j as [|j].
      * apply occurs_at_0 in Hj. congruence.
      * apply occurs_at_S in Hj. exact (IH E j Hj).
Qed.

Lemma rfind_nonnegative_last (s sub : text) :
  (0 <= rfind s sub)%Z -> last_at sub s (Z.to_nat (rfind s sub)).
Proof.
  induction s as [|c s IH]; simpl.
  - destruct sub as [|y sub]; simpl; [|lia]. intros _. split.
    + now exists [], [].
    + intros j Hj. apply occurs_at_nil in Hj as [_ ->]. lia.
  - destruct (0 <=? rfind s sub)%Z eqn:E.
    + apply Z.leb_le in E. intros _. destruct (IH E) as [Ho Hm].
      replace (Z.to_nat (rfind s sub + 1)) with (S (Z.to_nat (rfind s sub)))
        by lia.
      split; [now apply occurs_at_S|].
      intros [|j] Hj; [lia|]. apply occurs_at_S in Hj.
      specialize (Hm j Hj). lia.
    + apply Z.leb_gt in E.
      destruct (startswith (c :: s) sub) eqn:Es; [|lia]. intros _.
      split; [now apply occurs_at_0|].
      intros [|j] Hj; [simpl; lia|]. apply occurs_at_S in Hj.
      exfalso. exact (rfind_negative_absent _ _ E _ Hj).
Qed.

Lemma rfind_of_last (s sub : text) (i : nat) :
  last_at sub s i -> rfind s sub = Z.of_nat i.
Proof.
  intros [Ho Hm].
  destruct (Z.lt_ge_cases (rfind s sub) 0) as [Hn|Hp].
  - exfalso. exact (rfind_negative_absent _ _ Hn _ Ho).
  - destruct (rfind_nonnegative_last _ _ Hp) as [Ho' Hm'].
    specialize (Hm _ Ho'). specialize (Hm' _ Ho). lia.
Qed.

Lemma rfind_of_absent (s sub : text) :
  absent sub s -> rfind s sub = (-1)%Z.
Proof.
  intros Ha.
  destruct (Z.lt_ge_cases (rfind s sub) 0) as [Hn|Hp].
  - pose proof (rfind_lower s sub). lia.
  - destruct (rfind_nonnegative_last _ _ Hp) as [Ho _].
    exfalso. exact (Ha _ Ho).
Qed.

Lemma contains_occurs (s sub : text) :
  contains s sub = true -> exists j, occurs_at sub s j.
Proof.
  induction s as [|c s IH]; simpl; intros H.
  - rewrite orb_false_r in H. exists 0. now apply occurs_at_0.
  - apply orb_true_iff in H as [H|H].
    + exists 0. now apply occurs_at_0.
    + destruct (IH H) as [j Hj]. exists (S j). now apply occurs_at_S.
Qed.

(** ** The brace scan *)

Lemma brace_loop_skip (junk rest : text) (i n : Z) :
  brace_free junk ->
  brace_loop (junk ++ rest) i n
  = brace_loop rest (i + Z.of_nat (length junk)) n.
Proof.
  revert i; induction junk as [|c junk IH]; intros i Hf.
  - simpl. f_equal; lia.
  - destruct (Hf c (or_introl eq_refl)) as [Hl Hr].
    apply N.eqb_neq in Hl, Hr. simpl app. cbn [brace_loop].
    rewrite Hl, Hr, IH.
    + f_equal. simpl length. lia.
    + intros x Hx. apply Hf. now right.
Qed.

Lemma brace_loop_walk (X rest : text) (d e : nat) (i n : Z) :
  depth_walk d X = Some e -> (1 <= n)%Z ->
  brace_loop (X ++ rest) i (n + Z.of_nat d)
  = brace_loop rest (i + Z.of_nat (length X)) (n + Z.of_nat e).
Proof.
  revert d i; induction X as [|c X IH]; intros d i Hw Hn.
  - simpl in *. injection Hw as ->. f_equal; lia.
  - simpl app. cbn [brace_loop depth_walk] in *.
    destruct (N.eqb_spec c lbrace) as [->|Hl].
    + change (lbrace =? rbrace)%N with false. cbv iota.
      replace (n + Z.of_nat d + 1)%Z with (n + Z.of_nat (S d))%Z by lia.
      rewrite (IH _ _ Hw Hn). f_equal. simpl length. lia.
    + destruct (N.eqb_spec c rbrace) as [->|Hr].
      * destruct d as [|d]; [discriminate|].
        replace (n + Z.of_nat (S d) - 1)%Z with (n + Z.of_nat d)%Z by lia.
        destruct (Z.eqb_spec (n + Z.of_nat d) 0) as [E|_]; [lia|].
        rewrite (IH _ _ Hw Hn). f_equal. simpl length. lia.
      * rewrite (IH _ _ Hw Hn). f_equal. simpl length. lia.
Qed.

(** The scan over a brace group [{X}] with [X] balanced ends at its
    closing brace. *)
Lemma brace_loop_group (X post : text) (i : Z) :
  balanced X ->
  brace_loop (lbrace :: X ++ rbrace :: post) i 0
  = Some (i + 1 + Z.of_nat (length X))%Z.
Proof.
  intros Hb. cbn [brace_loop].
  change (lbrace =? lbrace)%N with true.
  change (lbrace =? rbrace)%N with false. cbv iota.
  change (0 + 1)%Z with (1 + Z.of_nat 0)%Z.
  rewrite (brace_loop_walk X (rbrace :: post) 0 0 (i + 1) 1 Hb) by lia.
  cbn [brace_loop].
  change (rbrace =? lbrace)%N with false.
  change (rbrace =? rbrace)%N with true. cbv iota.
  reflexivity.
Qed.

(** With no opening brace the counter only falls below zero. *)
Lemma brace_loop_no_open (rest : text) (i n : Z) :
  ~ In lbrace rest -> (n <= 0)%Z -> brace_loop rest i n = None.
Proof.
  revert i n; induction rest as [|c rest IH]; intros i n Hno Hn;
    [reflexivity|].
  cbn [brace_loop].
  destruct (N.eqb_spec c lbrace) as [->|_].
  - exfalso. apply Hno. now left.
  - assert (Hno' : ~ In lbrace rest) by (intros H; apply Hno; now right).
    destruct (c =? rbrace)%N.
    + destruct (Z.eqb_spec (n - 1) 0) as [E|_]; [lia|].
      apply IH; [assumption|lia].
    + now apply IH.
Qed.

Lemma count_occ_cons_eq (p : text) (c : char) :
  count_occ N.eq_dec (c :: p) c = S (count_occ N.eq_dec p c).
Proof. simpl. destruct (N.eq_dec c c); congruence. Qed.

Lemma count_occ_cons_ne (p : text) (c x : char) :
  c <> x -> count_occ N.eq_dec (c :: p) x = count_occ N.eq_dec p x.
Proof. intros H. simpl. destruct (N.eq_dec c x); congruence. Qed.

(** An opened brace that [rest] never closes: the loop runs to the end of
    the string. *)
Lemma brace_loop_unclosed (rest : text) (i n : Z) :
  (forall p q, rest = p ++ rbrace :: q ->
     (Z.of_nat (count_occ N.eq_dec p rbrace)
      < n - 1 + Z.of_nat (count_occ N.eq_dec p lbrace))%Z) ->
  brace_loop rest i n = None.
Proof.
  revert i n; induction rest as [|c rest IH]; intros i n H; [reflexivity|].
  cbn [brace_loop].
  destruct (N.eqb_spec c lbrace) as [->|Hl].
  - change (lbrace =? rbrace)%N with false. cbv iota.
    apply IH. intros p q E.
    specialize (H (lbrace :: p) q). simpl app in H.
    rewrite E in H. specialize (H eq_refl).
    rewrite count_occ_cons_eq in H.
    rewrite count_occ_cons_ne in H by discriminate. lia.
  - destruct (N.eqb_spec c rbrace) as [->|Hr].
    + pose proof (H [] rest eq_refl) as H0. simpl in H0.
      destruct (Z.eqb_spec (n - 1) 0) as [E|_]; [lia|].
      apply IH. intros p q E.
      specialize (H (rbrace :: p) q). simpl app in H.
      rewrite E in H. specialize (H eq_refl).
      rewrite count_occ_cons_eq in H.
      rewrite count_occ_cons_ne in H by discriminate. lia.
    + apply IH. intros p q E.
      specialize (H (c :: p) q). simpl app in H.
      rewrite E in H. specialize (H eq_refl).
      rewrite !count_occ_cons_ne in H by assumption. lia.
Qed.

Lemma slice_middle (pre mid post : text) :
  slice (pre ++ mid ++ post) (Z.of_nat (length pre))
        (Z.of_nat (length pre) + Z.of_nat (length mid)) = mid.
Proof.
  unfold slice.
  rewrite Nat2Z.id.
  replace (Z.to_nat (Z.of_nat (length pre) + Z.of_nat (length mid)
                     - Z.of_nat (length pre))) with (length mid) by lia.
  rewrite skipn_app, skipn_all, Nat.sub_diag. simpl.
  rewrite firstn_app, firstn_all, Nat.sub_diag. simpl.
  apply app_nil_r.
Qed.

Lemma slice_from_app (pre rest : text) :
  slice_from (pre ++ rest) (Z.of_nat (length pre)) = rest.
Proof.
  unfold slice_from. rewrite Nat2Z.id.
  rewrite skipn_app, skipn_all, Nat.sub_diag. reflexivity.
Qed.

(** The span found from a marker followed by brace-free text and a
    balanced group. *)
Lemma scan_from_group (pre m junk X post : text) :
  brace_free m -> brace_free junk -> balanced X ->
  scan_from (pre ++ m ++ junk ++ lbrace :: X ++ rbrace :: post)
            (Z.of_nat (length pre))
  = Some (m ++ junk ++ lbrace :: X ++ [rbrace]).
Proof.
  intros Hm Hj Hb. unfold scan_from.
  rewrite slice_from_app.
  rewrite (brace_loop_skip _ _ _ _ Hm), (brace_loop_skip _ _ _ _ Hj).
  rewrite (brace_loop_group _ _ _ Hb).
  f_equal.
  set (span := m ++ junk ++ lbrace :: X ++ [rbrace]).
  replace (m ++ junk ++ lbrace :: X ++ rbrace :: post)
    with (span ++ post).
  2:{ unfold span. rewrite <- !app_assoc. simpl.
      rewrite <- app_assoc. reflexivity. }
  replace (Z.of_nat (length pre) + Z.of_nat (length m)
           + Z.of_nat (length junk) + 1 + Z.of_nat (length X) + 1)%Z
    with (Z.of_nat (length pre) + Z.of_nat (length span))%Z.
  - apply slice_middle.
  - unfold span. rewrite !length_app. simpl. rewrite length_app. simpl. lia.
Qed.

Lemma last_boxed_at_marker (txt m : text) (i : nat) :
  marker_at txt m i ->
  last_boxed_only_string txt = scan_from txt (Z.of_nat i).
Proof.
  unfold last_boxed_only_string.
  intros [[-> Hl]|(-> & Ha & Hl)].
  - rewrite (rfind_of_last _ _ _ Hl).
    destruct (Z.ltb_spec (Z.of_nat i) 0); [lia|reflexivity].
  - rewrite (rfind_of_absent _ _ Ha). simpl.
    rewrite (rfind_of_last _ _ _ Hl).
    destruct (Z.ltb_spec (Z.of_nat i) 0); [lia|reflexivity].
Qed.

Lemma net_depth_open (p : text) :
  net_depth (lbrace :: p) = (net_depth p + 1)%Z.
Proof.
  unfold net_depth. rewrite count_occ_cons_eq.
  rewrite count_occ_cons_ne by discriminate. lia.
Qed.

Lemma net_depth_close (p : text) :
  net_depth (rbrace :: p) = (net_depth p - 1)%Z.
Proof.
  unfold net_depth. rewrite count_occ_cons_eq.
  rewrite count_occ_cons_ne by discriminate. lia.
Qed.

Lemma net_depth_other (c : char) (p : text) :
  c <> lbrace -> c <> rbrace -> net_depth (c :: p) = net_depth p.
Proof.
  intros Hl Hr. unfold net_depth.
  now rewrite !count_occ_cons_ne by assumption.
Qed.

(** The loop stops exactly at the first closing brace that brings the
    signed counter to 0. *)
Lemma brace_loop_stops (n : Z) (rest p q : text) (i : Z) :
  stops n rest p q ->
  brace_loop rest i n = Some (i + Z.of_nat (length p))%Z.
Proof.
  revert n rest i; induction p as [|c p IH]; intros n rest i (-> & Hz & Hf).
  - simpl app. cbn [brace_loop].
    change (rbrace =? lbrace)%N with false.
    change (rbrace =? rbrace)%N with true. cbv iota.
    unfold net_depth in Hz. simpl in Hz.
    destruct (Z.eqb_spec (n - 1) 0) as [_|E]; [|lia].
    f_equal. simpl. lia.
  - simpl app. cbn [brace_loop].
    replace (i + Z.of_nat (length (c :: p)))%Z
      with (i + 1 + Z.of_nat (length p))%Z by (simpl length; lia).
    destruct (N.eqb_spec c lbrace) as [->|Hl].
    + change (lbrace =? rbrace)%N with false. cbv iota.
      apply IH. rewrite net_depth_open in Hz.
      split; [reflexivity|]. split; [lia|].
      intros p' q' E. specialize (Hf (lbrace :: p') q').
      rewrite E in Hf. specialize (Hf eq_refl).
      rewrite net_depth_open in Hf. lia.
    + destruct (N.eqb_spec c rbrace) as [->|Hr].
      * rewrite net_depth_close in Hz.
        pose proof (Hf [] p eq_refl) as H0.
        unfold net_depth in H0. simpl in H0.
        destruct (Z.eqb_spec (n - 1) 0) as [E|_]; [lia|].
        apply IH. split; [reflexivity|]. split; [lia|].
        intros p' q' E. specialize (Hf (rbrace :: p') q').
        rewrite E in Hf. specialize (Hf eq_refl).
        rewrite net_depth_close in Hf. lia.
      * rewrite net_depth_other in Hz by assumption.
        apply IH. split; [reflexivity|]. split; [lia|].
        intros p' q' E. specialize (Hf (c :: p') q').
        rewrite E in Hf. specialize (Hf eq_refl).
        rewrite net_depth_other in Hf by assumption. lia.
Qed.

Lemma brace_loop_inv (rest : text) (i n r : Z) :
  brace_loop rest i n = Some r ->
  exists p q, stops n rest p q /\ r = (i + Z.of_nat (length p))%Z.
Proof.
  revert i n; induction rest as [|c rest IH]; intros i n H; [discriminate|].
  cbn [brace_loop] in H.
  destruct (N.eqb_spec c lbrace) as [->|Hl].
  - change (lbrace =? rbrace)%N with false in H. cbv iota in H.
    destruct (IH _ _ H) as (p & q & (-> & Hz & Hf) & ->).
    exists (lbrace :: p), q. split; [|simpl length; lia].
    split; [reflexivity|]. rewrite net_depth_open. split; [lia|].
    intros [|x p'] q' E; [discriminate|].
    injection E as <- E. rewrite net_depth_open.
    specialize (Hf _ _ E). lia.
  - destruct (N.eqb_spec c rbrace) as [->|Hr].
    + destruct (Z.eqb_spec (n - 1) 0) as [E0|E0].
      * injection H as <-. exists [], rest. split; [|simpl; lia].
        split; [reflexivity|]. unfold net_depth; simpl. split; [lia|].
        intros [|x p'] q' E; discriminate.
      * destruct (IH _ _ H) as (p & q & (-> & Hz & Hf) & ->).
        exists (rbrace :: p), q. split; [|simpl length; lia].
        split; [reflexivity|]. rewrite net_depth_close. split; [lia|].
        intros [|x p'] q' E.
        -- unfold net_depth; simpl. lia.
        -- injection E as <- E. rewrite net_depth_close.
           specialize (Hf _ _ E). lia.
    + destruct (IH _ _ H) as (p & q & (-> & Hz & Hf) & ->).
      exists (c :: p), q. split; [|simpl length; lia].
      split; [reflexivity|].
      rewrite net_depth_other by assumption. split; [lia|].
      intros [|x p'] q' E.
      * injection E as E _. congruence.
      * injection E as <- E. rewrite net_depth_other by assumption.
        exact (Hf _ _ E).
Qed.

Lemma scan_from_stops (txt : text) (i : nat) (span : text) :
  scan_from txt (Z.of_nat i) = Some span <->
  exists p q, stops 0 (skipn i txt) p q /\ span = p ++ [rbrace].
Proof.
  unfold scan_from, slice_from, slice. rewrite Nat2Z.id. split.
  - destruct (brace_loop (skipn i txt) (Z.of_nat i) 0) as [r|] eqn:E;
      [|discriminate].
    intros H. injection H as <-.
    destruct (brace_loop_inv _ _ _ _ E) as (p & q & Hs & ->).
    exists p, q. split; [assumption|].
    destruct Hs as (-> & _).
    replace (Z.to_nat (Z.of_nat i + Z.of_nat (length p) + 1 - Z.of_nat i))
      with (length (p ++ [rbrace])) by (rewrite length_app; simpl; lia).
    change (p ++ rbrace :: q) with (p ++ [rbrace] ++ q).
    rewrite app_assoc, firstn_app, firstn_all, Nat.sub_diag. simpl.
    apply app_nil_r.
  - intros (p & q & Hs & ->).
    rewrite (brace_loop_stops _ _ _ _ (Z.of_nat i) Hs). f_equal.
    destruct Hs as (-> & _).
    replace (Z.to_nat (Z.of_nat i + Z.of_nat (length p) + 1 - Z.of_nat i))
      with (length (p ++ [rbrace])) by (rewrite length_app; simpl; lia).
    change (p ++ rbrace :: q) with (p ++ [rbrace] ++ q).
    rewrite app_assoc, firstn_app, firstn_all, Nat.sub_diag. simpl.
    apply app_nil_r.
Qed.

(** ** Deciding the vocabulary on concrete texts *)

Lemma last_at_by_rfind (sub s : text) (i : nat) :
  rfind s sub = Z.of_nat i -> last_at sub s i.
Proof.
  intros E. rewrite <- (Nat2Z.id i), <- E.
  apply rfind_nonnegative_last. lia.
Qed.

Lemma absent_by_rfind (sub s : text) :
  rfind s sub = (-1)%Z -> absent sub s.
Proof. intros E. apply rfind_negative_absent. lia. Qed.

Lemma brace_free_by_forallb (s : text) :
  forallb (fun c => negb (c =? lbrace)%N && negb (c =? rbrace)%N) s = true ->
  brace_free s.
Proof.
  intros H c Hc. rewrite forallb_forall in H. specialize (H c Hc).
  apply andb_true_iff in H as [Hl Hr].
  apply negb_true_iff in Hl, Hr. apply N.eqb_neq in Hl, Hr. now split.
Qed.

Lemma not_in_by_existsb (c : char) (s : text) :
  existsb (N.eqb c) s = false -> ~ In c s.
Proof.
  intros H Hin.
  assert (existsb (N.eqb c) s = true); [|congruence].
  apply existsb_exists. exists c. split; [assumption|apply N.eqb_refl].
Qed.

Lemma unclosed_no_close (rest : text) : ~ In rbrace rest -> unclosed rest.
Proof.
  intros H p q E. exfalso. apply H. rewrite E.
  apply in_or_app. right. now left.
Qed.

(** ** [remove_boxed] *)

Lemma occurs_at_extend (sub s post : text) (j : nat) :
  occurs_at sub s j -> occurs_at sub (s ++ post) j.
Proof.
  intros (a & b & -> & Hl). exists a, (b ++ post).
  rewrite <- !app_assoc. now split.
Qed.

Lemma endswith_close (s : text) : endswith (s ++ [rbrace]) [rbrace] = true.
Proof. unfold endswith. rewrite rev_app_distr. reflexivity. Qed.

Lemma slice_drop_last_wrapped (left X : text) :
  slice_drop_last (left ++ X ++ [rbrace]) (Z.of_nat (length left)) = X.
Proof.
  unfold slice_drop_last.
  replace (Z.of_nat (length (left ++ X ++ [rbrace])) - 1)%Z
    with (Z.of_nat (length left) + Z.of_nat (length X))%Z
    by (rewrite !length_app; simpl; lia).
  apply slice_middle.
Qed.

(** The braced shapes, when the spaced prefix does not apply. *)
Lemma remove_boxed_braced (m X : text) :
  m = str "\boxed" \/ m = str "\fbox" ->
  contains (m ++ lbrace :: X ++ [rbrace]) (str "\boxed ") = false ->
  remove_boxed (m ++ lbrace :: X ++ [rbrace]) = Some X.
Proof.
  intros Hm Hc. unfold remove_boxed. rewrite Hc.
  destruct Hm as [-> | ->].
  - change (str "\boxed" ++ lbrace :: X ++ [rbrace])
      with (str "\boxed{" ++ X ++ [rbrace]).
    rewrite startswith_app.
    rewrite (app_assoc (str "\boxed{") X [rbrace]), endswith_close.
    rewrite <- app_assoc. cbv iota. simpl andb. cbv iota.
    now rewrite slice_drop_last_wrapped.
  - change (str "\fbox" ++ lbrace :: X ++ [rbrace])
      with (str "\fbox{" ++ X ++ [rbrace]).
    change (startswith (str "\fbox{" ++ X ++ [rbrace]) (str "\boxed{"))
      with false.
    rewrite startswith_app.
    rewrite (app_assoc (str "\fbox{") X [rbrace]), endswith_close.
    rewrite <- app_assoc. simpl andb. cbv iota.
    now rewrite slice_drop_last_wrapped.
Qed.

(** The span that starts at the marker holds no [\boxed ] (with a space)
    when an opening brace follows the marker. *)
Lemma span_without_spaced_prefix (pre m X post : text) :
  marker_at (pre ++ m ++ lbrace :: X ++ rbrace :: post) m (length pre) ->
  contains (m ++ lbrace :: X ++ [rbrace]) (str "\boxed ") = false.
Proof.
  intros Hm.
  destruct (contains (m ++ lbrace :: X ++ [rbrace]) (str "\boxed ")) eqn:E;
    [exfalso|reflexivity].
  apply contains_occurs in E as [j Hj].
  assert (Ho : occurs_at (str "\boxed")
                 (pre ++ m ++ lbrace :: X ++ rbrace :: post)
                 (length pre + j)).
  { apply occurs_at_shift.
    replace (m ++ lbrace :: X ++ rbrace :: post)
      with ((m ++ lbrace :: X ++ [rbrace]) ++ post)
      by (rewrite <- app_assoc; simpl; now rewrite <- app_assoc).
    apply occurs_at_extend.
    apply (occurs_at_prefix (str "\boxed") [32%N]). exact Hj. }
  destruct Hm as [[-> [_ Hmax]]|(-> & Ha & _)].
  - specialize (Hmax _ Ho). assert (j = 0) by lia. subst j.
    apply occurs_at_0 in Hj. discriminate Hj.
  - exact (Ha _ Ho).
Qed.

Lemma marker_is_one (txt m : text) (i : nat) :
  marker_at txt m i -> m = str "\boxed" \/ m = str "\fbox".
Proof. intros [[-> _]|(-> & _)]; auto. Qed.

Lemma marker_brace_free (txt m : text) (i : nat) :
  marker_at txt m i -> brace_free m.
Proof.
  intros H. destruct (marker_is_one _ _ _ H) as [-> | ->];
    apply brace_free_by_forallb; reflexivity.
Qed.

Lemma marker_at_by_rfind (txt : text) (i : nat) :
  rfind txt (str "\boxed") = Z.of_nat i ->
  marker_at txt (str "\boxed") i.
Proof. intros E. left. split; [reflexivity|now apply last_at_by_rfind]. Qed.

Lemma fbox_marker_at_by_rfind (txt : text) (i : nat) :
  rfind txt (str "\boxed") = (-1)%Z ->
  rfind txt (str "\fbox") = Z.of_nat i ->
  marker_at txt (str "\fbox") i.
Proof.
  intros E1 E2. right. split; [reflexivity|]. split.
  - now apply absent_by_rfind.
  - now apply last_at_by_rfind.
Qed.

Lemma marker_nonempty (txt m : text) (i : nat) :
  marker_at txt m i -> truthy txt = true.
Proof.
  intros H.
  assert (Ho : occurs_at m txt i)
    by (destruct H as [[_ [Ho _]]|(_ & _ & [Ho _])]; exact Ho).
  destruct (marker_is_one _ _ _ H) as [-> | ->];
    destruct Ho as (a & b & -> & _); destruct a; reflexivity.
Qed.

(** ** The boxed stage on a marker followed by a balanced group *)

Lemma boxed_group_span (pre m X post : text) :
  marker_at (pre ++ m ++ lbrace :: X ++ rbrace :: post) m (length pre) ->
  balanced X ->
  last_boxed_only_string (pre ++ m ++ lbrace :: X ++ rbrace :: post)
    = Some (m ++ lbrace :: X ++ [rbrace]).
Proof.
  intros Hm Hb.
  rewrite (last_boxed_at_marker _ _ _ Hm).
  apply (scan_from_group pre m [] X post).
  - exact (marker_brace_free _ _ _ Hm).
  - intros c [].
  - exact Hb.
Qed.

(** C1, as stated, fails: after [\boxed] an empty (or blank) group is
    balanced, and the stage then finds nothing instead of returning the
    trimmed content. *)
Lemma boxed_empty_group_not_found :
  ~ (forall pre m X post : text,
        marker_at (pre ++ m ++ lbrace :: X ++ rbrace :: post) m (length pre) ->
        balanced X ->
        boxed_stage (pre ++ m ++ lbrace :: X ++ rbrace :: post)
        = Return (strip X)).
Proof.
  intros H.
  specialize (H [] (str "\boxed") [] []).
  assert (Hm : marker_at ([] ++ str "\boxed" ++ lbrace :: [] ++ [rbrace])
                 (str "\boxed") (length (@nil char))).
  { apply marker_at_by_rfind. vm_compute. reflexivity. }
  specialize (H Hm eq_refl). vm_compute in H. discriminate H.
Qed.

(** C1 (amended): when the last [\boxed] (or, without any [\boxed], the
    last [\fbox]) is followed by a brace-balanced group [{X}], nested
    braces in [X] included, [last_boxed_only_string] returns the whole
    construct, [remove_boxed] returns exactly [X], and the boxed stage
    returns [X] trimmed of surrounding white space whenever that is not
    empty; for an empty or blank [X] the stage finds nothing. *)
Theorem boxed_stage_balanced_group (pre m X post : text) :
  marker_at (pre ++ m ++ lbrace :: X ++ rbrace :: post) m (length pre) ->
  balanced X ->
  last_boxed_only_string (pre ++ m ++ lbrace :: X ++ rbrace :: post)
    = Some (m ++ lbrace :: X ++ [rbrace]) /\
  remove_boxed (m ++ lbrace :: X ++ [rbrace]) = Some X /\
  boxed_stage (pre ++ m ++ lbrace :: X ++ rbrace :: post)
    = (if truthy (strip X) then Return (strip X) else Fall).
Proof.
  intros Hm Hb.
  pose proof (boxed_group_span pre m X post Hm Hb) as Hl.
  assert (Hr : remove_boxed (m ++ lbrace :: X ++ [rbrace]) = Some X).
  { apply remove_boxed_braced.
    - exact (marker_is_one _ _ _ Hm).
    - exact (span_without_spaced_prefix _ _ _ _ Hm). }
  split; [exact Hl|]. split; [exact Hr|].
  unfold boxed_stage. rewrite Hl, Hr. reflexivity.
Qed.

Lemma boxed_stage_balanced_group_witness :
  boxed_stage (str "so \boxed{ \frac{a}{b} } and more")
  = Return (str "\frac{a}{b}") /\
  boxed_stage (str "so \fbox{x^{2}} and \fbox{\frac{a}{b}}.")
  = Return (str "\frac{a}{b}").
Proof.
  split.
  - refine (proj2 (proj2 (boxed_stage_balanced_group
              (str "so ") (str "\boxed") (str " \frac{a}{b} ")
              (str " and more") _ _))).
    + apply marker_at_by_rfind. vm_compute. reflexivity.
    + vm_compute. reflexivity.
  - refine (proj2 (proj2 (boxed_stage_balanced_group
              (str "so \fbox{x^{2}} and ") (str "\fbox")
              (str "\frac{a}{b}") (str ".") _ _))).
    + apply fbox_marker_at_by_rfind; vm_compute; reflexivity.
    + vm_compute. reflexivity.
Defined.

(** C2, as stated, fails in its consequence: when the content of the
    last [\boxed{...}] is blank the boxed stage finds nothing, and the
    answer extracted is that of a later stage, not the content of the
    last group. *)
Lemma last_boxed_blank_content :
  ~ (forall (avail : bool) (parse : parser) (pre X1 mid X2 post : text),
        last_at (str "\boxed")
          (pre ++ str "\boxed{" ++ X1 ++ rbrace :: mid
               ++ str "\boxed" ++ lbrace :: X2 ++ rbrace :: post)
          (length (pre ++ str "\boxed{" ++ X1 ++ rbrace :: mid)) ->
        balanced X2 ->
        Mugglemath.extract_answer avail parse
          (pre ++ str "\boxed{" ++ X1 ++ rbrace :: mid
               ++ str "\boxed" ++ lbrace :: X2 ++ rbrace :: post)
        = Normal (strip X2)).
Proof.
  intros H.
  specialize (H true (fun _ => Normal [str "1"])
                (str "first ") (str "1") (str ", then ") [] []).
  assert (Hl : last_at (str "\boxed")
                 (str "first " ++ str "\boxed{" ++ str "1" ++ rbrace
                      :: str ", then " ++ str "\boxed" ++ lbrace :: []
                      ++ [rbrace])
                 (length (str "first " ++ str "\boxed{" ++ str "1" ++ rbrace
                              :: str ", then "))).
  { apply last_at_by_rfind. vm_compute. reflexivity. }
  specialize (H Hl eq_refl). vm_compute in H. discriminate H.
Qed.

(** C2 (amended): [last_boxed_only_string] scans from the last
    occurrence of [\boxed]; only when [\boxed] occurs nowhere, from the
    last occurrence of [\fbox]; with neither it returns [None] and the
    stage finds nothing. Hence, in a text with several [\boxed{...}],
    the stage returns the trimmed content of the last one when that
    content is not blank, and finds nothing when it is blank: an earlier
    group is never used. *)
Theorem last_boxed_scans_from_last_marker (txt : text) :
  (forall i, last_at (str "\boxed") txt i ->
     last_boxed_only_string txt = scan_from txt (Z.of_nat i)) /\
  (absent (str "\boxed") txt ->
   forall i, last_at (str "\fbox") txt i ->
     last_boxed_only_string txt = scan_from txt (Z.of_nat i)) /\
  (absent (str "\boxed") txt -> absent (str "\fbox") txt ->
     last_boxed_only_string txt = None /\ boxed_stage txt = Fall) /\
  (forall pre X1 mid X2 post,
     txt = pre ++ str "\boxed{" ++ X1 ++ rbrace :: mid
               ++ str "\boxed" ++ lbrace :: X2 ++ rbrace :: post ->
     last_at (str "\boxed") txt
       (length (pre ++ str "\boxed{" ++ X1 ++ rbrace :: mid)) ->
     balanced X2 ->
     boxed_stage txt = (if truthy (strip X2) then Return (strip X2) else Fall)).
Proof.
  split; [|split; [|split]].
  - intros i Hl. apply (last_boxed_at_marker txt (str "\boxed")).
    left. now split.
  - intros Ha i Hl. apply (last_boxed_at_marker txt (str "\fbox")).
    right. now split.
  - intros Hb Hf.
    assert (E : last_boxed_only_string txt = None).
    { unfold last_boxed_only_string.
      rewrite (rfind_of_absent _ _ Hb). simpl.
      rewrite (rfind_of_absent _ _ Hf). reflexivity. }
    split; [exact E|]. unfold boxed_stage. now rewrite E.
  - intros pre X1 mid X2 post -> Hl Hb.
    set (pre' := pre ++ str "\boxed{" ++ X1 ++ rbrace :: mid) in *.
    replace (pre ++ str "\boxed{" ++ X1 ++ rbrace :: mid
               ++ str "\boxed" ++ lbrace :: X2 ++ rbrace :: post)
      with (pre' ++ str "\boxed" ++ lbrace :: X2 ++ rbrace :: post) in *.
    + assert (Hm : marker_at
                     (pre' ++ str "\boxed" ++ lbrace :: X2 ++ rbrace :: post)
                     (str "\boxed") (length pre')) by (left; now split).
      unfold boxed_stage.
      rewrite (boxed_group_span pre' (str "\boxed") X2 post Hm Hb).
      rewrite remove_boxed_braced; [reflexivity|now left|].
      exact (span_without_spaced_prefix _ _ _ _ Hm).
    + unfold pre'. repeat (rewrite <- app_assoc; simpl). reflexivity.
Qed.

Lemma last_boxed_scans_from_last_marker_witness :
  last_boxed_only_string (str "a \fbox{1} b \boxed{2} c \boxed{3} d \fbox{4}")
    = scan_from (str "a \fbox{1} b \boxed{2} c \boxed{3} d \fbox{4}") 25 /\
  last_boxed_only_string (str "a \fbox{1} b \fbox{2} c")
    = scan_from (str "a \fbox{1} b \fbox{2} c") 13 /\
  (last_boxed_only_string (str "no markers here at all") = None /\
   boxed_stage (str "no markers here at all") = Fall) /\
  boxed_stage (str "first \boxed{1}, then \boxed{ 2 }.") = Return (str "2").
Proof.
  split; [|split; [|split]].
  - apply (proj1 (last_boxed_scans_from_last_marker _) 25%nat).
    apply last_at_by_rfind. vm_compute. reflexivity.
  - refine (proj1 (proj2 (last_boxed_scans_from_last_marker _)) _ 13%nat _).
    + apply absent_by_rfind. vm_compute. reflexivity.
    + apply last_at_by_rfind. vm_compute. reflexivity.
  - apply (proj1 (proj2 (proj2 (last_boxed_scans_from_last_marker _)))).
    + apply absent_by_rfind. vm_compute. reflexivity.
    + apply absent_by_rfind. vm_compute. reflexivity.
  - refine (proj2 (proj2 (proj2 (last_boxed_scans_from_last_marker _)))
              (str "first ") (str "1") (str ", then ") (str " 2 ") (str ".")
              eq_refl _ _).
    + apply last_at_by_rfind. vm_compute. reflexivity.
    + vm_compute. reflexivity.
Defined.

(** ** The signed counter: closing braces before the first opening one *)

(** C4, as stated, fails: a closing brace between the marker and the
    first opening brace is not skipped. In [\boxed}{5}] the group [{5}] is
    balanced, yet no span is returned. *)
Lemma stray_close_not_skipped :
  ~ (forall pre m junk X post : text,
        marker_at (pre ++ m ++ junk ++ lbrace :: X ++ rbrace :: post) m
                  (length pre) ->
        ~ In lbrace junk ->
        balanced X ->
        last_boxed_only_string
          (pre ++ m ++ junk ++ lbrace :: X ++ rbrace :: post)
        = Some (m ++ junk ++ lbrace :: X ++ [rbrace])).
Proof.
  intros H.
  specialize (H [] (str "\boxed") [rbrace] (str "5") []).
  assert (Hm : marker_at
                 ([] ++ str "\boxed" ++ [rbrace] ++ lbrace :: str "5"
                     ++ [rbrace])
                 (str "\boxed") (length (@nil char))).
  { apply marker_at_by_rfind. vm_compute. reflexivity. }
  assert (Hj : ~ In lbrace [rbrace]).
  { apply not_in_by_existsb. reflexivity. }
  specialize (H Hm Hj eq_refl). vm_compute in H. discriminate H.
Qed.

(** C4 (amended): the scan keeps one signed counter that starts at 0 at
    the marker, goes up at [{] and down at [}], and stops at the first [}]
    that brings it back to 0. Characters other than braces between the
    marker and the first [{] are skipped, so a balanced group after them
    is found whole. A [}] before the first [{] is not skipped: it takes
    the counter below 0, so [\boxed}{5}] has no span, and the span of
    [\boxed}{{5}}] is [\boxed}{{5}], one brace short. *)
Theorem brace_scan_signed_counter :
  (forall txt m i span,
      marker_at txt m i ->
      (last_boxed_only_string txt = Some span <->
       exists p q, stops 0 (skipn i txt) p q /\ span = p ++ [rbrace])) /\
  (forall pre m junk X post,
      marker_at (pre ++ m ++ junk ++ lbrace :: X ++ rbrace :: post) m
                (length pre) ->
      brace_free junk ->
      balanced X ->
      last_boxed_only_string
        (pre ++ m ++ junk ++ lbrace :: X ++ rbrace :: post)
      = Some (m ++ junk ++ lbrace :: X ++ [rbrace])) /\
  last_boxed_only_string (str "\boxed}{5}") = None /\
  last_boxed_only_string (str "\boxed}{{5}}") = Some (str "\boxed}{{5}").
Proof.
  split; [|split; [|split]].
  - intros txt m i span Hm.
    rewrite (last_boxed_at_marker _ _ _ Hm). apply scan_from_stops.
  - intros pre m junk X post Hm Hj Hb.
    rewrite (last_boxed_at_marker _ _ _ Hm).
    apply scan_from_group; [exact (marker_brace_free _ _ _ Hm)|exact Hj|exact Hb].
  - vm_compute. reflexivity.
  - vm_compute. reflexivity.
Qed.

Lemma brace_scan_signed_counter_witness :
  (last_boxed_only_string (str "x \boxed{a{b}c} y") = Some (str "\boxed{a{b}c}")
   <-> exists p q,
         stops 0 (skipn 2 (str "x \boxed{a{b}c} y")) p q /\
         str "\boxed{a{b}c}" = p ++ [rbrace]) /\
  last_boxed_only_string (str "x \boxed  {a{b}c} y")
  = Some (str "\boxed  {a{b}c}").
Proof.
  split.
  - apply (proj1 brace_scan_signed_counter _ (str "\boxed") 2%nat).
    apply marker_at_by_rfind. vm_compute. reflexivity.
  - refine (proj1 (proj2 brace_scan_signed_counter)
              (str "x ") (str "\boxed") (str "  ") (str "a{b}c") (str " y")
              _ _ _).
    + apply marker_at_by_rfind. vm_compute. reflexivity.
    + apply brace_free_by_forallb. vm_compute. reflexivity.
    + vm_compute. reflexivity.
Defined.

(** ** The spaced prefix *)

Lemma remove_boxed_spaced (rest : text) :
  remove_boxed (str "\boxed " ++ rest) = Some rest.
Proof.
  unfold remove_boxed.
  change (contains (str "\boxed " ++ rest) (str "\boxed ")) with
    (startswith (str "\boxed " ++ rest) (str "\boxed ")
     || contains (skipn 1 (str "\boxed " ++ rest)) (str "\boxed ")).
  rewrite startswith_app. reflexivity.
Qed.

(** C9: a span that begins with [\boxed ] (a space after the name) is cut
    after that space and nothing else is removed, whatever follows: the
    rule for the spaced prefix is tried before those for the braced
    wrappers. From [\boxed {5}] the answer is [{5}], braces kept. *)
Theorem spaced_prefix_keeps_braces :
  (forall rest, remove_boxed (str "\boxed " ++ rest) = Some rest) /\
  (forall txt rest,
      last_boxed_only_string txt = Some (str "\boxed " ++ rest) ->
      boxed_stage txt
      = (if truthy (strip rest) then Return (strip rest) else Fall)) /\
  last_boxed_only_string (str "\boxed {5}") = Some (str "\boxed {5}") /\
  remove_boxed (str "\boxed {5}") = Some (str "{5}") /\
  (forall avail parse,
      Mugglemath.extract_answer avail parse (str "\boxed {5}")
        = Normal (str "{5}") /\
      Metamath.extract_answer avail parse (str "\boxed {5}")
        = Normal (str "{5}")).
Proof.
  split; [exact remove_boxed_spaced|]. split.
  - intros txt rest E. unfold boxed_stage.
    rewrite E, remove_boxed_spaced. reflexivity.
  - split; [vm_compute; reflexivity|]. split; [vm_compute; reflexivity|].
    intros avail parse. split; reflexivity.
Qed.

Lemma spaced_prefix_keeps_braces_witness :
  boxed_stage (str "thus \boxed {\frac{1}{2}} holds")
  = Return (str "{\frac{1}{2}}").
Proof.
  refine (proj1 (proj2 spaced_prefix_keeps_braces)
            (str "thus \boxed {\frac{1}{2}} holds") (str "{\frac{1}{2}}") _).
  vm_compute. reflexivity.
Defined.

(** ** No opening brace after the marker *)

Lemma boxed_stage_fall_muggle (avail : bool) (parse : parser) (txt : text) :
  truthy txt = true -> boxed_stage txt = Fall ->
  Mugglemath.extract_answer avail parse txt
  = call ((if avail then try_except_pass (symbolic_stage parse txt) else Fall)
          ;; Return []).
Proof.
  intros Ht Hb. unfold Mugglemath.extract_answer, Mugglemath.extract_answer_body.
  rewrite Ht, Hb. reflexivity.
Qed.

Lemma boxed_stage_fall_meta (avail : bool) (parse : parser) (txt : text) :
  truthy txt = true -> boxed_stage txt = Fall ->
  Metamath.extract_answer avail parse txt
  = call (try_except_pass (phrase_stage txt) ;;
          (if avail then try_except_pass (symbolic_stage parse txt) else Fall)
          ;; Return []).
Proof.
  intros Ht Hb. unfold Metamath.extract_answer, Metamath.extract_answer_body.
  rewrite Ht, Hb. simpl.
  destruct (try_except_pass (phrase_stage txt)); reflexivity.
Qed.

(** C10: when no [{] occurs at or after the marker (a bare [\boxed 5] at
    the end of the text, say), [last_boxed_only_string] returns [None]:
    the boxed stage extracts nothing and [extract_answer] goes on with
    the stages that remain. *)
Theorem boxed_without_open_brace (txt m : text) (i : nat) :
  marker_at txt m i ->
  ~ In lbrace (skipn i txt) ->
  last_boxed_only_string txt = None /\
  boxed_stage txt = Fall /\
  forall avail parse,
    Mugglemath.extract_answer avail parse txt
    = call ((if avail then try_except_pass (symbolic_stage parse txt)
             else Fall) ;; Return []) /\
    Metamath.extract_answer avail parse txt
    = call (try_except_pass (phrase_stage txt) ;;
            (if avail then try_except_pass (symbolic_stage parse txt)
             else Fall) ;; Return []).
Proof.
  intros Hm Hno.
  assert (E : last_boxed_only_string txt = None).
  { rewrite (last_boxed_at_marker _ _ _ Hm). unfold scan_from, slice_from.
    rewrite Nat2Z.id.
    rewrite (brace_loop_no_open _ _ _ Hno) by lia. reflexivity. }
  assert (F : boxed_stage txt = Fall) by (unfold boxed_stage; now rewrite E).
  pose proof (marker_nonempty _ _ _ Hm) as Ht.
  split; [exact E|]. split; [exact F|].
  intros avail parse. split.
  - now apply boxed_stage_fall_muggle.
  - now apply boxed_stage_fall_meta.
Qed.

Lemma boxed_without_open_brace_witness :
  last_boxed_only_string (str "{so} the result is \boxed 5") = None /\
  boxed_stage (str "{so} the result is \boxed 5") = Fall.
Proof.
  destruct (boxed_without_open_brace
              (str "{so} the result is \boxed 5") (str "\boxed") 19) as (E & F & _).
  - apply marker_at_by_rfind. vm_compute. reflexivity.
  - apply not_in_by_existsb. vm_compute. reflexivity.
  - split; [exact E|exact F].
Defined.

(** ** [strip] and [rstrip] *)

Lemma dropwhile_suffix (p : char -> bool) (s : text) :
  exists w, s = w ++ dropwhile p s.
Proof.
  induction s as [|c s [w IH]]; simpl.
  - now exists [].
  - destruct (p c).
    + exists (c :: w). simpl. now rewrite <- IH.
    + now exists [].
Qed.

Lemma dropwhile_head (p : char -> bool) (s r : text) (c : char) :
  dropwhile p s = c :: r -> p c = false.
Proof.
  induction s as [|x s IH]; simpl; [discriminate|].
  destruct (p x) eqn:E; [exact IH|].
  intros H. injection H as -> _. exact E.
Qed.

Lemma dropwhile_stop (p : char -> bool) (c : char) (r : text) :
  p c = false -> dropwhile p (c :: r) = c :: r.
Proof. intros H. simpl. now rewrite H. Qed.

Lemma dropwhile_idem (p : char -> bool) (s : text) :
  dropwhile p (dropwhile p s) = dropwhile p s.
Proof.
  destruct (dropwhile p s) as [|c r] eqn:E; [reflexivity|].
  apply dropwhile_stop. exact (dropwhile_head _ _ _ _ E).
Qed.

Lemma dropwhile_app_stop (p : char -> bool) (pre r : text) (c : char) :
  p c = false ->
  dropwhile p (pre ++ c :: r) = dropwhile p pre ++ c :: r.
Proof.
  intros H. induction pre as [|x pre IH]; simpl.
  - now rewrite H.
  - destruct (p x); [exact IH|reflexivity].
Qed.

Lemma dropwhile_keeps (p : char -> bool) (s : text) (c : char) :
  In c s -> p c = false -> In c (dropwhile p s).
Proof.
  intros Hin Hc. induction s as [|x s IH]; simpl; [contradiction|].
  destruct (p x) eqn:E.
  - destruct Hin as [->|Hin]; [congruence|now apply IH].
  - exact Hin.
Qed.

Lemma rstrip_prefix (s : text) : exists w, s = rstrip s ++ w.
Proof.
  unfold rstrip. destruct (dropwhile_suffix is_space (rev s)) as [w E].
  exists (rev w). rewrite <- rev_app_distr, <- E. now rewrite rev_involutive.
Qed.

Lemma rstrip_dot_prefix (s : text) : exists w, s = rstrip_dot s ++ w.
Proof.
  unfold rstrip_dot.
  destruct (dropwhile_suffix (fun c => (c =? dot)%N) (rev s)) as [w E].
  exists (rev w). rewrite <- rev_app_distr, <- E. now rewrite rev_involutive.
Qed.

Lemma rstrip_keep (s : text) (c : char) :
  hd_error (rev s) = Some c -> is_space c = false -> rstrip s = s.
Proof.
  intros H Hc. unfold rstrip. destruct (rev s) as [|x r] eqn:E;
    [discriminate|].
  injection H as ->. rewrite (dropwhile_stop _ _ _ Hc).
  rewrite <- E. apply rev_involutive.
Qed.


Lemma lstrip_keep (c : char) (r : text) :
  is_space c = false -> lstrip (c :: r) = c :: r.
Proof. apply dropwhile_stop. Qed.


Lemma strip_head (s r : text) (c : char) :
  strip s = c :: r -> is_space c = false.
Proof.
  unfold strip. intros E.
  destruct (rstrip_prefix (lstrip s)) as [w Hw]. rewrite E in Hw.
  exact (dropwhile_head _ _ _ _ Hw).
Qed.

Lemma strip_idem (s : text) : strip (strip s) = strip s.
Proof.
  destruct (strip s) as [|c r] eqn:E; [reflexivity|].
  pose proof (strip_head _ _ _ E) as Hc.
  unfold strip at 1. rewrite (lstrip_keep _ _ Hc).
  rewrite <- E. unfold strip, rstrip.
  rewrite rev_involutive, dropwhile_idem. reflexivity.
Qed.

Lemma strip_truthy (s : text) (c : char) :
  In c s -> is_space c = false -> truthy (strip s) = true.
Proof.
  intros Hin Hc. unfold strip, rstrip, lstrip.
  assert (H : In c (rev (dropwhile is_space
                           (rev (dropwhile is_space s))))).
  { apply in_rev. rewrite rev_involutive. apply dropwhile_keeps; [|exact Hc].
    apply -> in_rev. now apply dropwhile_keeps. }
  destruct (rev (dropwhile is_space (rev (dropwhile is_space s))));
    [contradiction|reflexivity].
Qed.

(** What [extract_answer_from_text] returns still has a visible character
    after [strip]. *)
Lemma strip_phrase_answer (g : text) :
  truthy (rstrip_dot (strip g)) = true ->
  truthy (strip (rstrip_dot (strip g))) = true.
Proof.
  intros H. destruct (rstrip_dot (strip g)) as [|c r] eqn:E; [discriminate|].
  destruct (rstrip_dot_prefix (strip g)) as [w Hw]. rewrite E in Hw.
  apply (strip_truthy (c :: r) c); [now left|].
  exact (strip_head _ _ _ Hw).
Qed.

Lemma rstrip_dot_last (s : text) :
  hd_error (rev (rstrip_dot s)) <> Some dot.
Proof.
  unfold rstrip_dot. rewrite rev_involutive.
  destruct (dropwhile (fun c => (c =? dot)%N) (rev s)) as [|c r] eqn:E;
    [discriminate|].
  apply dropwhile_head in E. apply N.eqb_neq in E.
  simpl. congruence.
Qed.

(** ** The matcher *)


Lemma lit_inv (l s s' : text) : lit l s = Some s' -> s = l ++ s'.
Proof.
  revert s; induction l as [|y l IH]; intros s H; simpl in *.
  - now injection H as ->.
  - destruct s as [|x s]; [discriminate|].
    destruct (N.eqb_spec x y) as [->|]; [|discriminate].
    now rewrite (IH _ H).
Qed.

Lemma at_end_inv (s : text) : at_end s = true -> s = [] \/ s = [NL].
Proof.
  destruct s as [|c [|d s]]; simpl; intros H; auto; [|discriminate].
  apply N.eqb_eq in H. subst c. now right.
Qed.

(** Skipping start positions at which the pattern has no match. *)
Lemma re_search_skip (pat : regex) (s t : text) :
  (forall s1 s2, s = s1 ++ s2 -> s2 <> [] -> match_here pat (s2 ++ t) = None) ->
  re_search pat (s ++ t) = re_search pat t.
Proof.
  induction s as [|c s IH]; intros H; [reflexivity|].
  simpl app.
  assert (E : match_here pat (c :: s ++ t) = None).
  { apply (H [] (c :: s)); [reflexivity|discriminate]. }
  change (re_search pat (c :: s ++ t))
    with (match match_here pat (c :: s ++ t) with
          | Some m => Some m
          | None => re_search pat (s ++ t)
          end).
  rewrite E. apply IH.
  intros s1 s2 -> Hn. apply (H (c :: s1) s2); [reflexivity|exact Hn].
Qed.

Lemma blocked_tail (c : char) (s : text) :
  c <> NL -> blocked (c :: s) -> blocked s.
Proof.
  intros Hc (u & v & E & Hv). destruct u as [|x u].
  - injection E as E _. congruence.
  - injection E as _ E. now exists u, v.
Qed.

Lemma blocked_after (l s : text) :
  existsb (N.eqb NL) l = false -> blocked (l ++ s) -> blocked s.
Proof.
  induction l as [|x l IH]; cbn [existsb app]; intros Hl Hb; [exact Hb|].
  apply orb_false_iff in Hl as [Hx Hl]. apply N.eqb_neq in Hx.
  apply IH; [exact Hl|]. apply (blocked_tail x); [congruence|exact Hb].
Qed.

Lemma blocked_not_at_end (s : text) : blocked s -> at_end s = false.
Proof.
  intros (u & v & -> & Hv).
  destruct (at_end (u ++ NL :: v)) eqn:E; [|reflexivity].
  apply at_end_inv in E as [E|E].
  - destruct u; discriminate.
  - destruct u as [|x [|y u]]; try discriminate.
    injection E as E. congruence.
Qed.

Section Blocked.

Variable A : Type.
Variable cs : charset.
Hypothesis cs_nl : cs_match cs NL = false.

Lemma cs_not_nl (c : char) : cs_match cs c = true -> c <> NL.
Proof. intros H ->. congruence. Qed.

Lemma one_blocked (s : text) (k : text -> option A) :
  blocked s -> (forall s', blocked s' -> k s' = None) -> one cs s k = None.
Proof.
  intros Hb Hk. destruct s as [|c s]; [reflexivity|]. simpl.
  destruct (cs_match cs c) eqn:E; [|reflexivity].
  apply Hk. exact (blocked_tail _ _ (cs_not_nl _ E) Hb).
Qed.

Lemma star_greedy_blocked (s : text) (k : text -> option A) :
  blocked s -> (forall s', blocked s' -> k s' = None) ->
  star_greedy cs s k = None.
Proof.
  intros Hb Hk. induction s as [|c s IH]; simpl; [now apply Hk|].
  destruct (cs_match cs c) eqn:E; [|now apply Hk].
  rewrite IH; [now apply Hk|].
  exact (blocked_tail _ _ (cs_not_nl _ E) Hb).
Qed.

Lemma star_lazy_blocked (s : text) (k : text -> option A) :
  blocked s -> (forall s', blocked s' -> k s' = None) ->
  star_lazy cs s k = None.
Proof.
  intros Hb Hk. induction s as [|c s IH]; simpl.
  - now rewrite (Hk _ Hb).
  - rewrite (Hk _ Hb). destruct (cs_match cs c) eqn:E; [|reflexivity].
    apply IH. exact (blocked_tail _ _ (cs_not_nl _ E) Hb).
Qed.

End Blocked.

(** A pattern that cannot consume a newline does not get past one. *)
Lemma run_blocked (A : Type) (r : regex) :
  nl_free r = true ->
  forall (s : text) (g : option text) (k : text -> option text -> option A),
    blocked s -> (forall s' g', blocked s' -> k s' g' = None) ->
    run r s g k = None.
Proof.
  induction r as [l|cs|cs|cs|cs| |r1 IH1|r1 IH1 r2 IH2];
    cbn [nl_free run]; intros Hf s g k Hb Hk.
  - apply negb_true_iff in Hf.
    destruct (lit l s) as [s'|] eqn:E; [|reflexivity].
    apply Hk. apply lit_inv in E. subst s. exact (blocked_after _ _ Hf Hb).
  - apply negb_true_iff in Hf. apply one_blocked; auto.
  - apply negb_true_iff in Hf. apply one_blocked; auto.
    intros s' Hs'. apply star_greedy_blocked; auto.
  - apply negb_true_iff in Hf. apply one_blocked; auto.
    intros s' Hs'. apply star_lazy_blocked; auto.
  - apply negb_true_iff in Hf. unfold opt_greedy.
    rewrite one_blocked by auto. now apply Hk.
  - now rewrite (blocked_not_at_end _ Hb).
  - apply IH1; auto.
  - apply andb_true_iff in Hf as [Hf1 Hf2].
    apply IH1; [exact Hf1|exact Hb|].
    intros s' g' Hs'. apply IH2; [exact Hf2|exact Hs'|exact Hk].
Qed.

Lemma match_here_blocked (r : regex) (s : text) :
  anchored r = true -> blocked s -> match_here r s = None.
Proof.
  unfold match_here.
  generalize (@None text) (fun (_ : text) g => Some {| group1 := g |}).
  revert s. induction r as [l|cs|cs|cs|cs| |r1 IH1|r1 _ r2 IH2];
    cbn [anchored]; intros s g k Hf Hb; try discriminate.
  - cbn [run]. now rewrite (blocked_not_at_end _ Hb).
  - apply andb_true_iff in Hf as [Hf1 Hf2]. cbn [run].
    apply run_blocked; auto.
Qed.

(** ** The phrase [he answer is] *)

Lemma match_here_phrase (pat : regex) (s : text) (m : re_match) :
  pat = pattern1 \/ pat = pattern2 ->
  match_here pat s = Some m ->
  exists c r, s = c :: str "he answer is" ++ r.
Proof.
  intros Hp H.
  assert (E : exists k, match_here pat s
                = one set_Tt s (fun s' =>
                    match lit (str "he answer is") s' with
                    | Some s'' => k s''
                    | None => None
                    end)).
  { destruct Hp as [-> | ->]; eexists; unfold match_here, pattern1, pattern2;
      cbn [run]; reflexivity. }
  destruct E as [k E]. rewrite E in H. clear E.
  destruct s as [|c s]; cbn [one] in H; [discriminate|].
  destruct (cs_match set_Tt c); [|discriminate].
  destruct (lit (str "he answer is") s) as [s''|] eqn:El; [|discriminate].
  apply lit_inv in El. subst s. now exists c, s''.
Qed.


Lemma absent_tail (sub : text) (c : char) (s : text) :
  absent sub (c :: s) -> absent sub s.
Proof. intros H j Hj. apply (H (S j)). now apply occurs_at_S. Qed.

Lemma absent_suffix (sub w s : text) : absent sub (w ++ s) -> absent sub s.
Proof.
  induction w as [|c w IH]; simpl; [auto|].
  intros H. apply IH. exact (absent_tail _ _ _ H).
Qed.

Lemma phrase_absent_search (pat : regex) (s : text) :
  pat = pattern1 \/ pat = pattern2 ->
  absent (str "he answer is") s -> re_search pat s = None.
Proof.
  intros Hp. induction s as [|c s IH]; intros Ha.
  - destruct Hp as [-> | ->]; reflexivity.
  - change (re_search pat (c :: s))
      with (match match_here pat (c :: s) with
            | Some m => Some m
            | None => re_search pat s
            end).
    destruct (match_here pat (c :: s)) as [m|] eqn:E.
    + exfalso. destruct (match_here_phrase _ _ _ Hp E) as (x & r & Hs).
      injection Hs as _ Hs. apply (Ha 1). apply occurs_at_S. apply occurs_at_0.
      rewrite Hs. exact (startswith_app (str "he answer is") r).
    + apply IH. exact (absent_tail _ _ _ Ha).
Qed.


(** ** The [####] marker *)

Lemma re_search_hit (pat : regex) (s : text) (m : re_match) :
  match_here pat s = Some m -> re_search pat s = Some m.
Proof. intros H. destruct s; simpl; now rewrite H. Qed.

Lemma hd_error_rev_app (s t : text) (c : char) :
  hd_error (rev t) = Some c -> hd_error (rev (s ++ t)) = Some c.
Proof.
  rewrite rev_app_distr. destruct (rev t); [discriminate|]. auto.
Qed.

(** The literal [#### ] cannot start before its own occurrence unless it
    occurs before. *)
Lemma hash_literal_overlap (s2 ans : text) :
  s2 <> [] -> absent (str "#### ") s2 ->
  lit (str "#### ") (s2 ++ str "#### " ++ ans) = None.
Proof.
  intros Hne Ha.
  destruct (lit (str "#### ") (s2 ++ str "#### " ++ ans)) as [r|] eqn:E;
    [exfalso|reflexivity].
  apply lit_inv in E.
  destruct s2 as [|c1 [|c2 [|c3 [|c4 [|c5 s2]]]]]; try congruence;
    try discriminate E.
  apply (Ha 0). apply occurs_at_0.
  injection E as -> -> -> -> -> _.
  exact (startswith_app (str "#### ") s2).
Qed.

Lemma hash_no_match_before (p l w s2 ans : text) :
  p ++ l = w ++ s2 -> s2 <> [] ->
  (p = [] \/ exists p', p = p' ++ [NL]) ->
  ~ In NL l -> absent (str "#### ") l ->
  match_here pattern3 (s2 ++ str "#### " ++ ans) = None.
Proof.
  intros E Hne Hp Hl Ha.
  assert (Hsuffix : forall m, l = m ++ s2 ->
            match_here pattern3 (s2 ++ str "#### " ++ ans) = None).
  { intros m Hm. unfold match_here, pattern3. cbn [run].
    rewrite hash_literal_overlap; [reflexivity|exact Hne|].
    rewrite Hm in Ha. exact (absent_suffix _ _ _ Ha). }
  apply app_eq_app in E as [m [[E1 E2]|[E1 E2]]].
  - destruct m as [|x m]; [now apply (Hsuffix [])|].
    destruct Hp as [-> | [p' ->]]; [destruct w; discriminate|].
    destruct (exists_last (l:=x :: m)) as (m' & a & Em); [discriminate|].
    rewrite Em, app_assoc in E1. apply app_inj_tail in E1 as [_ <-].
    apply match_here_blocked; [reflexivity|].
    exists m', (l ++ str "#### " ++ ans). split.
    + rewrite E2, Em, <- !app_assoc. reflexivity.
    + destruct l; discriminate.
  - now apply (Hsuffix m).
Qed.

(** A text that ends with a [#### ] marker on its last line, with no
    [he answer is] anywhere. *)
Lemma hash_line (p l ans g : text) (c : char) :
  (p = [] \/ exists p', p = p' ++ [NL]) ->
  ~ In NL l -> absent (str "#### ") l ->
  absent (str "he answer is") (p ++ l ++ str "#### " ++ ans) ->
  match_here pattern3 (str "#### " ++ ans) = Some {| group1 := Some g |} ->
  hd_error (rev ans) = Some c -> is_space c = false ->
  truthy (rstrip_dot (strip g)) = true ->
  extract_answer_from_text (p ++ l ++ str "#### " ++ ans)
  = Normal (Some (rstrip_dot (strip g))).
Proof.
  intros Hp Hl Hh Ha Hm Hc Hsp Ht.
  set (t := str "#### " ++ ans) in *.
  unfold extract_answer_from_text.
  replace (truthy (p ++ l ++ t)) with true
    by (destruct p; [destruct l|]; reflexivity).
  cbn [negb].
  rewrite app_assoc in *.
  assert (Es : exists w s, p ++ l = w ++ s /\ strip ((p ++ l) ++ t) = s ++ t).
  { destruct (dropwhile_suffix is_space (p ++ l)) as [w Hw].
    exists w, (lstrip (p ++ l)). split; [exact Hw|].
    unfold strip. unfold lstrip at 1.
    change t with (35%N :: str "### " ++ ans).
    rewrite dropwhile_app_stop by reflexivity.
    apply (rstrip_keep _ c); [|exact Hsp].
    apply hd_error_rev_app.
    change (35%N :: str "### " ++ ans) with (str "#### " ++ ans).
    now apply hd_error_rev_app. }
  destruct Es as (w & s & Ews & ->).
  assert (Ha' : absent (str "he answer is") (s ++ t)).
  { rewrite Ews, <- app_assoc in Ha. exact (absent_suffix _ _ _ Ha). }
  unfold patterns. cbn [for_patterns].
  rewrite (phrase_absent_search pattern1) by auto.
  rewrite (phrase_absent_search pattern2) by auto.
  rewrite re_search_skip.
  - rewrite (re_search_hit _ _ _ Hm). cbn [group1]. now rewrite Ht.
  - intros s1 s2 -> Hne.
    apply (hash_no_match_before p l (w ++ s1) s2 ans); auto.
    now rewrite Ews, app_assoc.
Qed.

(** C6, as stated, fails: in the text [The answer is: 5] followed by the
    line [#### 17] the first rules match the phrase, and the answer is
    not [17]. *)
Lemma hash_after_phrase_marker :
  ~ (forall pre : text,
        extract_answer_from_text (pre ++ str "#### 17")
        = Normal (Some (str "17"))).
Proof.
  intros H.
  specialize (H (str "The answer is: 5" ++ [NL])).
  vm_compute in H. discriminate H.
Qed.

(** C6 (amended): for every text that ends in [#### 17], in which
    [he answer is] does not occur and whose last line holds no earlier
    [#### ], [extract_answer_from_text] returns [17]: the third rule
    matches the marker [#### ] and returns the rest of the line. Three
    texts outside these conditions give another answer:
    [The answer is: 5] followed by the line [#### 17] gives [5],
    [The answer is:] followed by the line [#### 17] gives [#### 17],
    and [#### 1 #### 17] gives [1 #### 17]. *)
Theorem hash_marker_last_line :
  (forall p l : text,
      (p = [] \/ exists p', p = p' ++ [NL]) ->
      ~ In NL l -> absent (str "#### ") l ->
      absent (str "he answer is") (p ++ l ++ str "#### 17") ->
      extract_answer_from_text (p ++ l ++ str "#### 17")
      = Normal (Some (str "17"))) /\
  extract_answer_from_text (str "The answer is: 5" ++ [NL] ++ str "#### 17")
    = Normal (Some (str "5")) /\
  extract_answer_from_text (str "The answer is:" ++ [NL] ++ str "#### 17")
    = Normal (Some (str "#### 17")) /\
  extract_answer_from_text (str "#### 1 #### 17")
    = Normal (Some (str "1 #### 17")).
Proof.
  split; [|repeat split; vm_compute; reflexivity].
  intros p l Hp Hl Hh Ha.
  apply (hash_line p l (str "17") (str "17") 55%N); auto.
Qed.

Lemma hash_marker_last_line_witness :
  extract_answer_from_text
    (str "Step 1: 8 + 9 = 17." ++ [NL] ++ str "so #### 17")
  = Normal (Some (str "17")).
Proof.
  refine (proj1 hash_marker_last_line
            (str "Step 1: 8 + 9 = 17." ++ [NL]) (str "so ") _ _ _ _).
  - right. exists (str "Step 1: 8 + 9 = 17."). reflexivity.
  - apply not_in_by_existsb. vm_compute. reflexivity.
  - apply absent_by_rfind. vm_compute. reflexivity.
  - apply absent_by_rfind. vm_compute. reflexivity.
Defined.

(** ** The first phrase rule *)










Lemma firstn_before (body tail : text) :
  firstn (length (body ++ tail) - length tail) (body ++ tail) = body.
Proof.
  rewrite length_app, Nat.add_sub.
  rewrite firstn_app, firstn_all, Nat.sub_diag. simpl. apply app_nil_r.
Qed.






(** ** An unclosed [\boxed{] before a [####] line *)

Lemma last_boxed_unclosed (pre rest : text) :
  last_at (str "\boxed") (pre ++ str "\boxed{" ++ rest) (length pre) ->
  unclosed rest ->
  last_boxed_only_string (pre ++ str "\boxed{" ++ rest) = None.
Proof.
  intros Hl Hu.
  rewrite (last_boxed_at_marker _ (str "\boxed") (length pre))
    by (left; now split).
  unfold scan_from. rewrite slice_from_app.
  change (str "\boxed{" ++ rest) with (str "\boxed" ++ lbrace :: rest).
  rewrite brace_loop_skip by (apply brace_free_by_forallb; reflexivity).
  cbn [brace_loop].
  change (lbrace =? lbrace)%N with true.
  change (lbrace =? rbrace)%N with false. cbv iota.
  rewrite brace_loop_unclosed; [reflexivity|].
  intros p q E. specialize (Hu p q E). lia.
Qed.

(** C3, as stated, fails for the boxed-first ordering: the orchestrator
    of [create_gsm8k_mugglemath.py] has no phrase stage, so after the
    boxed stage only the symbolic stage is left. *)
Lemma boxed_first_has_no_phrase_stage :
  Mugglemath.extract_answer false no_parse
    (str "x = \boxed{5" ++ [NL] ++ str "#### 9")
  <> Normal (str "9").
Proof. vm_compute. discriminate. Qed.

(** C3 (amended): for a text with an unclosed [\boxed{] and the last line
    [#### 9] (and no [he answer is] in it), the phrase-first
    [extract_answer] returns [9]. In the boxed-first [extract_answer] the
    boxed stage finds nothing and no phrase stage follows: the result is
    that of the symbolic stage, and the empty string when that stage is
    not available. *)
Theorem unclosed_boxed_then_hash_line
        (avail : bool) (parse : parser) (pre mid : text) :
  last_at (str "\boxed")
          (pre ++ str "\boxed{" ++ mid ++ NL :: str "#### 9") (length pre) ->
  unclosed (mid ++ NL :: str "#### 9") ->
  absent (str "he answer is")
         (pre ++ str "\boxed{" ++ mid ++ NL :: str "#### 9") ->
  Metamath.extract_answer avail parse
    (pre ++ str "\boxed{" ++ mid ++ NL :: str "#### 9") = Normal (str "9") /\
  boxed_stage (pre ++ str "\boxed{" ++ mid ++ NL :: str "#### 9") = Fall /\
  Mugglemath.extract_answer avail parse
    (pre ++ str "\boxed{" ++ mid ++ NL :: str "#### 9")
  = call ((if avail
           then try_except_pass
                  (symbolic_stage parse
                     (pre ++ str "\boxed{" ++ mid ++ NL :: str "#### 9"))
           else Fall) ;; Return []) /\
  Mugglemath.extract_answer false parse
    (pre ++ str "\boxed{" ++ mid ++ NL :: str "#### 9") = Normal [].
Proof.
  intros Hl Hu Ha.
  set (txt := pre ++ str "\boxed{" ++ mid ++ NL :: str "#### 9") in *.
  assert (Ht : truthy txt = true) by (unfold txt; destruct pre; reflexivity).
  assert (Eb : boxed_stage txt = Fall).
  { unfold boxed_stage, txt. now rewrite (last_boxed_unclosed _ _ Hl Hu). }
  assert (Ep : extract_answer_from_text txt = Normal (Some (str "9"))).
  { assert (Etxt : txt = (pre ++ str "\boxed{" ++ mid ++ [NL]) ++ []
                           ++ str "#### " ++ str "9").
    { unfold txt. repeat (rewrite <- app_assoc; simpl). reflexivity. }
    rewrite Etxt in *.
    apply (hash_line _ [] (str "9") (str "9") 57%N); auto.
    - right. exists (pre ++ str "\boxed{" ++ mid).
      repeat (rewrite <- app_assoc; simpl). reflexivity.
    - intros j Hj. apply occurs_at_nil in Hj as [Hj _]. discriminate Hj. }
  split; [|split; [exact Eb|split]].
  - unfold Metamath.extract_answer, Metamath.extract_answer_body, phrase_stage.
    rewrite Ht, Ep. reflexivity.
  - now apply boxed_stage_fall_muggle.
  - now rewrite boxed_stage_fall_muggle.
Qed.

Lemma unclosed_boxed_then_hash_line_witness :
  Metamath.extract_answer true no_parse
    (str "so x = \boxed{5 + 4" ++ [NL] ++ str "#### 9") = Normal (str "9") /\
  Mugglemath.extract_answer false no_parse
    (str "so x = \boxed{5 + 4" ++ [NL] ++ str "#### 9") = Normal [].
Proof.
  destruct (unclosed_boxed_then_hash_line true no_parse
              (str "so x = ") (str "5 + 4")) as (E1 & _ & _ & E2).
  - apply last_at_by_rfind. vm_compute. reflexivity.
  - apply unclosed_no_close. apply not_in_by_existsb. vm_compute. reflexivity.
  - apply absent_by_rfind. vm_compute. reflexivity.
  - split; [exact E1|exact E2].
Defined.

(** ** The orchestrators never raise *)

Lemma for_patterns_some (ps : list regex) (s a : text) :
  for_patterns ps s = Normal (Some a) ->
  exists g, a = rstrip_dot (strip g) /\ truthy a = true.
Proof.
  induction ps as [|pat ps IH]; cbn [for_patterns]; [discriminate|].
  destruct (re_search pat s) as [m|]; [|exact IH].
  destruct (group1 m) as [g|]; [|discriminate].
  destruct (truthy (rstrip_dot (strip g))) eqn:E; [|exact IH].
  intros H. injection H as <-. now exists g.
Qed.

Lemma extract_answer_from_text_some (txt a : text) :
  extract_answer_from_text txt = Normal (Some a) ->
  exists g, a = rstrip_dot (strip g) /\ truthy a = true.
Proof.
  unfold extract_answer_from_text.
  destruct (negb (truthy txt)); [discriminate|]. apply for_patterns_some.
Qed.

Lemma phrase_stage_return (txt v : text) :
  phrase_stage txt = Return v ->
  truthy v = true /\ exists a, v = strip a.
Proof.
  unfold phrase_stage.
  destruct (extract_answer_from_text txt) as [[a|]|] eqn:E; try discriminate.
  destruct (extract_answer_from_text_some _ _ E) as (g & -> & Ht).
  rewrite Ht. intros H. injection H as <-. split.
  - now apply strip_phrase_answer.
  - now eexists.
Qed.

Lemma boxed_stage_return (txt v : text) :
  boxed_stage txt = Return v ->
  truthy v = true /\ exists a, v = strip a.
Proof.
  unfold boxed_stage.
  destruct (last_boxed_only_string txt) as [b|]; [|discriminate].
  destruct (remove_boxed b) as [a|]; [|discriminate].
  destruct (truthy (strip a)) eqn:E; [|discriminate].
  intros H. injection H as <-. split; [exact E|now eexists].
Qed.

Lemma symbolic_stage_return (parse : parser) (txt v : text) :
  symbolic_stage parse txt = Return v ->
  truthy v = true /\ exists a, v = strip a.
Proof.
  unfold symbolic_stage.
  destruct (parse txt) as [parsed|]; [|discriminate].
  destruct (rev parsed) as [|a _]; [discriminate|].
  destruct (truthy (strip a)) eqn:E; [|discriminate].
  intros H. injection H as <-. split; [exact E|now eexists].
Qed.

Lemma truthy_not_nil (v : text) : truthy v = true -> v <> [].
Proof. now destruct v. Qed.

(** The result of the orchestrators on a non-empty text: the answer of
    the first stage that finds one, or the empty string when none does. *)
Lemma meta_shape (avail : bool) (parse : parser) (txt : text) :
  txt <> [] ->
  (exists v, Metamath.extract_answer avail parse txt = Normal v /\
             truthy v = true /\ (exists a, v = strip a) /\
             ~ (not_found (phrase_stage txt) /\ not_found (boxed_stage txt) /\
                (avail = true -> not_found (symbolic_stage parse txt)))) \/
  (Metamath.extract_answer avail parse txt = Normal [] /\
   not_found (phrase_stage txt) /\ not_found (boxed_stage txt) /\
   (avail = true -> not_found (symbolic_stage parse txt))).
Proof.
  intros Hne.
  assert (Ht : truthy txt = true)
    by (destruct txt; [exfalso; now apply Hne|reflexivity]).
  unfold Metamath.extract_answer, Metamath.extract_answer_body, not_found.
  rewrite Ht. cbn [negb].
  destruct (phrase_stage txt) as [v| |] eqn:Ep.
  { left. exists v. destruct (phrase_stage_return _ _ Ep) as [Hv Ha].
    repeat split; auto. intros [H _]. discriminate H. }
  all: destruct (boxed_stage txt) as [v| |] eqn:Eb.
  all: try (left; exists v; destruct (boxed_stage_return _ _ Eb) as [Hv Ha];
            repeat split; auto; intros (_ & H & _); discriminate H).
  all: destruct avail.
  all: try (right; repeat split; auto; discriminate).
  all: destruct (symbolic_stage parse txt) as [v| |] eqn:Es.
  all: try (left; exists v;
            destruct (symbolic_stage_return _ _ _ Es) as [Hv Ha];
            repeat split; auto; intros (_ & _ & H);
            specialize (H eq_refl); discriminate H).
  all: right; repeat split; auto.
Qed.

Lemma muggle_shape (avail : bool) (parse : parser) (txt : text) :
  txt <> [] ->
  (exists v, Mugglemath.extract_answer avail parse txt = Normal v /\
             truthy v = true /\ (exists a, v = strip a) /\
             ~ (not_found (boxed_stage txt) /\
                (avail = true -> not_found (symbolic_stage parse txt)))) \/
  (Mugglemath.extract_answer avail parse txt = Normal [] /\
   not_found (boxed_stage txt) /\
   (avail = true -> not_found (symbolic_stage parse txt))).
Proof.
  intros Hne.
  assert (Ht : truthy txt = true)
    by (destruct txt; [exfalso; now apply Hne|reflexivity]).
  unfold Mugglemath.extract_answer, Mugglemath.extract_answer_body, not_found.
  rewrite Ht. cbn [negb].
  destruct (boxed_stage txt) as [v| |] eqn:Eb.
  { left. exists v. destruct (boxed_stage_return _ _ Eb) as [Hv Ha].
    repeat split; auto. intros [H _]. discriminate H. }
  all: destruct avail.
  all: try (right; repeat split; auto; discriminate).
  all: destruct (symbolic_stage parse txt) as [v| |] eqn:Es.
  all: try (left; exists v;
            destruct (symbolic_stage_return _ _ _ Es) as [Hv Ha];
            repeat split; auto; intros (_ & H);
            specialize (H eq_refl); discriminate H).
  all: right; repeat split; auto.
Qed.

Lemma symbolic_raise_is_absent (parse : parser) (txt : text) :
  parse txt = Raised ->
  Metamath.extract_answer true parse txt
    = Metamath.extract_answer false parse txt /\
  Mugglemath.extract_answer true parse txt
    = Mugglemath.extract_answer false parse txt.
Proof.
  intros H.
  unfold Metamath.extract_answer, Metamath.extract_answer_body,
    Mugglemath.extract_answer, Mugglemath.extract_answer_body, symbolic_stage.
  rewrite H. split; reflexivity.
Qed.

Ltac flow_absurd :=
  match goal with
  | H : finds_nothing (Return _) |- _ => destruct H as [H|H]; discriminate H
  | H : Fall = Return _ |- _ => discriminate H
  | H : Raise = Return _ |- _ => discriminate H
  | H : false = true |- _ => discriminate H
  | H : true = true -> finds_nothing (Return _) |- _ =>
      destruct (H eq_refl) as [H'|H']; discriminate H'
  end.

Ltac flow_found :=
  match goal with
  | H : Return _ = Return _ |- _ => injection H as H; exact H
  | |- finds_nothing Fall => left; reflexivity
  | |- finds_nothing Raise => right; reflexivity
  | |- @eq text ?x ?x => reflexivity
  end.

(** A returned answer holds a visible character; [e] is the equation of
    the stage that returned it. *)
Ltac empty_answer R e :=
  match goal with
  | H : ?v = [] |- _ =>
      exfalso; destruct (R v e) as [T _]; rewrite H in T; discriminate T
  end.

Ltac flow_case R e :=
  repeat (split || intro);
  repeat match goal with H : _ /\ _ |- _ => destruct H end;
  first [flow_absurd | flow_found | empty_answer R e].

(** The answer of the phrase-first [extract_answer] on a text that is
    not empty: that of the first stage that returns one. *)
Lemma meta_first_found (avail : bool) (parse : parser) (txt : text) :
  txt <> [] ->
  exists r,
    Metamath.extract_answer avail parse txt = Normal r /\
    (forall v, phrase_stage txt = Return v -> r = v) /\
    (finds_nothing (phrase_stage txt) ->
     forall v, boxed_stage txt = Return v -> r = v) /\
    (finds_nothing (phrase_stage txt) -> finds_nothing (boxed_stage txt) ->
     avail = true ->
     forall v, symbolic_stage parse txt = Return v -> r = v) /\
    (r = [] <->
     finds_nothing (phrase_stage txt) /\ finds_nothing (boxed_stage txt) /\
     (avail = true -> finds_nothing (symbolic_stage parse txt))).
Proof.
  intros Hne.
  assert (Ht : truthy txt = true)
    by (destruct txt; [exfalso; now apply Hne|reflexivity]).
  unfold Metamath.extract_answer, Metamath.extract_answer_body.
  rewrite Ht. cbn [negb].
  pose proof (phrase_stage_return txt) as Rp.
  pose proof (boxed_stage_return txt) as Rb.
  pose proof (symbolic_stage_return parse txt) as Rs.
  destruct (phrase_stage txt) as [vp| |].
  { exists vp. split; [reflexivity|].
    flow_case Rp (eq_refl (Return vp)). }
  all: destruct (boxed_stage txt) as [vb| |].
  all: try (exists vb; split; [reflexivity|];
            flow_case Rb (eq_refl (Return vb))).
  all: destruct avail.
  all: try (exists []; split; [reflexivity|];
            flow_case Rb (eq_refl (@Fall))).
  all: destruct (symbolic_stage parse txt) as [vs| |].
  all: try (exists vs; split; [reflexivity|];
            flow_case Rs (eq_refl (Return vs))).
  all: exists []; split; [reflexivity|]; flow_case Rb (eq_refl (@Fall)).
Qed.

(** The same for the boxed-first [extract_answer]. *)
Lemma muggle_first_found (avail : bool) (parse : parser) (txt : text) :
  txt <> [] ->
  exists r,
    Mugglemath.extract_answer avail parse txt = Normal r /\
    (forall v, boxed_stage txt = Return v -> r = v) /\
    (finds_nothing (boxed_stage txt) -> avail = true ->
     forall v, symbolic_stage parse txt = Return v -> r = v) /\
    (r = [] <->
     finds_nothing (boxed_stage txt) /\
     (avail = true -> finds_nothing (symbolic_stage parse txt))).
Proof.
  intros Hne.
  assert (Ht : truthy txt = true)
    by (destruct txt; [exfalso; now apply Hne|reflexivity]).
  unfold Mugglemath.extract_answer, Mugglemath.extract_answer_body.
  rewrite Ht. cbn [negb].
  pose proof (boxed_stage_return txt) as Rb.
  pose proof (symbolic_stage_return parse txt) as Rs.
  destruct (boxed_stage txt) as [vb| |].
  { exists vb. split; [reflexivity|].
    flow_case Rb (eq_refl (Return vb)). }
  all: destruct avail.
  all: try (exists []; split; [reflexivity|];
            flow_case Rs (eq_refl (@Fall))).
  all: destruct (symbolic_stage parse txt) as [vs| |].
  all: try (exists vs; split; [reflexivity|];
            flow_case Rs (eq_refl (Return vs))).
  all: exists []; split; [reflexivity|]; flow_case Rs (eq_refl (@Fall)).
Qed.

(** C7: [extract_answer] never lets an exception reach its caller: it
    always returns a string. On a text that is not empty, the string is
    the answer of the first enabled stage that returns one, a stage that
    falls through or raises being passed over, for that stage only; it is
    the empty string exactly when every enabled stage falls through or
    raises. On the empty text the result is the empty string, in both
    orderings, with or without the symbolic stage; and a parser that
    raises gives what no parser gives. *)
Theorem extract_answer_never_raises
        (avail : bool) (parse : parser) (txt : text) :
  (exists r, Metamath.extract_answer avail parse txt = Normal r /\
     (txt <> [] ->
      (forall v, phrase_stage txt = Return v -> r = v) /\
      (finds_nothing (phrase_stage txt) ->
       forall v, boxed_stage txt = Return v -> r = v) /\
      (finds_nothing (phrase_stage txt) -> finds_nothing (boxed_stage txt) ->
       avail = true ->
       forall v, symbolic_stage parse txt = Return v -> r = v) /\
      (r = [] <->
       finds_nothing (phrase_stage txt) /\ finds_nothing (boxed_stage txt) /\
       (avail = true -> finds_nothing (symbolic_stage parse txt))))) /\
  (exists r, Mugglemath.extract_answer avail parse txt = Normal r /\
     (txt <> [] ->
      (forall v, boxed_stage txt = Return v -> r = v) /\
      (finds_nothing (boxed_stage txt) -> avail = true ->
       forall v, symbolic_stage parse txt = Return v -> r = v) /\
      (r = [] <->
       finds_nothing (boxed_stage txt) /\
       (avail = true -> finds_nothing (symbolic_stage parse txt))))) /\
  Metamath.extract_answer avail parse [] = Normal [] /\
  Mugglemath.extract_answer avail parse [] = Normal [] /\
  (parse txt = Raised ->
   Metamath.extract_answer true parse txt
     = Metamath.extract_answer false parse txt /\
   Mugglemath.extract_answer true parse txt
     = Mugglemath.extract_answer false parse txt).
Proof.
  split; [|split; [|split; [reflexivity|split; [reflexivity|]]]].
  - destruct txt as [|c txt].
    + exists []. split; [reflexivity|]. intros H. now exfalso.
    + destruct (meta_first_found avail parse (c :: txt)) as (r & E & H);
        [discriminate|].
      exists r. split; [exact E|]. intros _. exact H.
  - destruct txt as [|c txt].
    + exists []. split; [reflexivity|]. intros H. now exfalso.
    + destruct (muggle_first_found avail parse (c :: txt)) as (r & E & H);
        [discriminate|].
      exists r. split; [exact E|]. intros _. exact H.
  - apply symbolic_raise_is_absent.
Qed.

Lemma extract_answer_never_raises_witness :
  Mugglemath.extract_answer true no_parse (str "so \boxed{5}")
    = Normal (str "5") /\
  Metamath.extract_answer true (fun _ => Normal [str " 7 "])
    (str "no markers here at all") = Normal (str "7") /\
  Metamath.extract_answer true no_parse (str "no markers here at all")
    = Normal [] /\
  Metamath.extract_answer true no_parse (str "no markers here at all")
    = Metamath.extract_answer false no_parse (str "no markers here at all").
Proof.
  split; [|split; [|split]].
  - destruct (extract_answer_never_raises true no_parse (str "so \boxed{5}"))
      as (_ & (r & E & H) & _).
    rewrite E. f_equal.
    apply (proj1 (H ltac:(discriminate)) (str "5")).
    vm_compute. reflexivity.
  - destruct (extract_answer_never_raises
                true (fun _ => Normal [str " 7 "])
                (str "no markers here at all"))
      as ((r & E & H) & _).
    rewrite E. f_equal.
    destruct (H ltac:(discriminate)) as (_ & _ & H3 & _).
    apply H3.
    + left. vm_compute. reflexivity.
    + left. vm_compute. reflexivity.
    + reflexivity.
    + vm_compute. reflexivity.
  - destruct (extract_answer_never_raises
                true no_parse (str "no markers here at all"))
      as ((r & E & H) & _).
    rewrite E. f_equal.
    apply (proj2 (proj2 (proj2 (proj2 (H ltac:(discriminate)))))).
    split; [left; vm_compute; reflexivity|].
    split; [left; vm_compute; reflexivity|].
    intros _. right. vm_compute. reflexivity.
  - destruct (extract_answer_never_raises
                true no_parse (str "no markers here at all"))
      as (_ & _ & _ & _ & Hr).
    exact (proj1 (Hr eq_refl)).
Defined.

(** ** Trimmed results *)

(** C8, as stated, fails: the boxed stage strips white space only, so the
    period of [\boxed{5.}] stays. *)
Lemma boxed_period_kept :
  ~ (forall (avail : bool) (parse : parser) (txt r : text),
        Mugglemath.extract_answer avail parse txt = Normal r ->
        r <> [] -> trimmed r /\ rstrip_dot r = r).
Proof.
  intros H.
  destruct (H false no_parse (str "\boxed{5.}") (str "5.")) as [_ E].
  - vm_compute. reflexivity.
  - discriminate.
  - vm_compute in E. discriminate E.
Qed.

Lemma dropwhile_app_keep (p : char -> bool) (s : text) (c : char) :
  p c = false -> dropwhile p (s ++ [c]) = dropwhile p s ++ [c].
Proof.
  intros Hc. induction s as [|x s IH]; cbn [app dropwhile].
  - now rewrite Hc.
  - destruct (p x); [exact IH|reflexivity].
Qed.

(** [strip] leaves a final period where it is. *)
Lemma strip_keeps_period (s : text) :
  strip (s ++ [dot]) = lstrip s ++ [dot].
Proof.
  unfold strip. unfold lstrip at 1.
  rewrite (dropwhile_app_keep is_space s dot eq_refl).
  fold (lstrip s).
  apply (rstrip_keep _ dot); [|reflexivity].
  now apply hd_error_rev_app.
Qed.

Lemma truthy_app_one (s : text) (c : char) : truthy (s ++ [c]) = true.
Proof. now destruct s. Qed.

Lemma boxed_stage_strips (txt b a : text) :
  last_boxed_only_string txt = Some b -> remove_boxed b = Some a ->
  boxed_stage txt = if truthy (strip a) then Return (strip a) else Fall.
Proof. intros Hb Ha. unfold boxed_stage. now rewrite Hb, Ha. Qed.

Lemma symbolic_stage_strips (parse : parser) (txt : text)
      (l : list text) (x : text) :
  parse txt = Normal (l ++ [x]) ->
  symbolic_stage parse txt
  = if truthy (strip x) then Return (strip x) else Fall.
Proof.
  intros Hp. unfold symbolic_stage. rewrite Hp, rev_app_distr. reflexivity.
Qed.

(** C8 (amended): every string that [extract_answer] returns, for every
    text and in both orderings, is trimmed of white space. A trailing
    period is removed only from the capture of a phrase rule, before the
    last trim: what [extract_answer_from_text] returns is not empty and
    does not end with a period. The boxed stage does nothing to the
    content of the group but trim its white space, and the symbolic stage
    nothing else to the last parsed expression: a content or an expression
    that ends with a period gives an answer that ends with that period,
    from the stage and from [extract_answer] when no earlier stage found
    an answer. From [\boxed{5.}] the answer is [5.]. *)
Theorem extract_answer_trimmed :
  (forall (avail : bool) (parse : parser) (txt r : text),
      Metamath.extract_answer avail parse txt = Normal r \/
      Mugglemath.extract_answer avail parse txt = Normal r ->
      trimmed r) /\
  (forall txt a : text,
      extract_answer_from_text txt = Normal (Some a) ->
      a <> [] /\ hd_error (rev a) <> Some dot) /\
  (forall txt b a : text,
      last_boxed_only_string txt = Some b -> remove_boxed b = Some a ->
      boxed_stage txt = (if truthy (strip a) then Return (strip a) else Fall)
      /\
      forall s, a = s ++ [dot] ->
        boxed_stage txt = Return (lstrip s ++ [dot]) /\
        forall (avail : bool) (parse : parser),
          Mugglemath.extract_answer avail parse txt
            = Normal (lstrip s ++ [dot]) /\
          (finds_nothing (phrase_stage txt) ->
           Metamath.extract_answer avail parse txt
             = Normal (lstrip s ++ [dot]))) /\
  (forall (parse : parser) (txt : text) (l : list text) (x : text),
      parse txt = Normal (l ++ [x]) ->
      symbolic_stage parse txt
        = (if truthy (strip x) then Return (strip x) else Fall) /\
      forall s, x = s ++ [dot] ->
        symbolic_stage parse txt = Return (lstrip s ++ [dot]) /\
        (txt <> [] -> finds_nothing (boxed_stage txt) ->
         Mugglemath.extract_answer true parse txt
           = Normal (lstrip s ++ [dot]) /\
         (finds_nothing (phrase_stage txt) ->
          Metamath.extract_answer true parse txt
            = Normal (lstrip s ++ [dot])))) /\
  (forall (avail : bool) (parse : parser),
      Mugglemath.extract_answer avail parse (str "\boxed{5.}")
        = Normal (str "5.") /\
      Metamath.extract_answer avail parse (str "\boxed{5.}")
        = Normal (str "5.")).
Proof.
  split; [|split; [|split; [|split]]].
  - intros avail parse txt r H. unfold trimmed.
    destruct txt as [|c txt].
    + destruct H as [H|H]; vm_compute in H; injection H as <-; reflexivity.
    + destruct H as [H|H].
      * destruct (meta_shape avail parse (c :: txt)) as
          [(v & E & _ & (a & ->) & _)|(E & _)]; [discriminate| |];
          rewrite E in H; injection H as <-;
          [apply strip_idem|reflexivity].
      * destruct (muggle_shape avail parse (c :: txt)) as
          [(v & E & _ & (a & ->) & _)|(E & _)]; [discriminate| |];
          rewrite E in H; injection H as <-;
          [apply strip_idem|reflexivity].
  - intros txt a H.
    destruct (extract_answer_from_text_some _ _ H) as (g & -> & Ht).
    split; [now apply truthy_not_nil|apply rstrip_dot_last].
  - intros txt b a Hb Ha.
    pose proof (boxed_stage_strips txt b a Hb Ha) as Hs.
    split; [exact Hs|]. intros s ->.
    rewrite strip_keeps_period, truthy_app_one in Hs.
    split; [exact Hs|]. intros avail parse.
    assert (Hne : txt <> []).
    { intros ->. vm_compute in Hb. discriminate Hb. }
    split.
    + destruct (muggle_first_found avail parse txt Hne) as (r & E & H1 & _).
      rewrite E. f_equal. now apply H1.
    + intros Hp.
      destruct (meta_first_found avail parse txt Hne) as (r & E & _ & H2 & _).
      rewrite E. f_equal. now apply H2.
  - intros parse txt l x Hx.
    pose proof (symbolic_stage_strips parse txt l x Hx) as Hs.
    split; [exact Hs|]. intros s ->.
    rewrite strip_keeps_period, truthy_app_one in Hs.
    split; [exact Hs|]. intros Hne Hb.
    split.
    + destruct (muggle_first_found true parse txt Hne) as (r & E & _ & H2 & _).
      rewrite E. f_equal. now apply H2.
    + intros Hp.
      destruct (meta_first_found true parse txt Hne)
        as (r & E & _ & _ & H3 & _).
      rewrite E. f_equal. now apply H3.
  - intros avail parse. split; reflexivity.
Qed.

Lemma extract_answer_trimmed_witness :
  trimmed (str "3 apples") /\
  (str "3" <> [] /\ hd_error (rev (str "3")) <> Some dot) /\
  Mugglemath.extract_answer true no_parse (str "so \boxed{ 3 in all.} then")
    = Normal (str "3 in all.") /\
  Metamath.extract_answer true (fun _ => Normal [str "4"; str " 5."])
    (str "no markers here at all") = Normal (str "5.").
Proof.
  split; [|split; [|split]].
  - apply (proj1 extract_answer_trimmed true no_parse
             (str "so \boxed{  3 apples } in all") (str "3 apples")).
    right. vm_compute. reflexivity.
  - apply (proj1 (proj2 extract_answer_trimmed)
             (str "... so x = 3. The answer is: 3.") (str "3")).
    vm_compute. reflexivity.
  - destruct (proj1 (proj2 (proj2 extract_answer_trimmed))
                (str "so \boxed{ 3 in all.} then")
                (str "\boxed{ 3 in all.}") (str " 3 in all."))
      as [_ H]; [vm_compute; reflexivity|vm_compute; reflexivity|].
    destruct (H (str " 3 in all") eq_refl) as [_ H'].
    exact (proj1 (H' true no_parse)).
  - destruct (proj1 (proj2 (proj2 (proj2 extract_answer_trimmed)))
                (fun _ => Normal [str "4"; str " 5."])
                (str "no markers here at all") [str "4"] (str " 5.") eq_refl)
      as [_ H].
    destruct (H (str " 5") eq_refl) as [_ H'].
    destruct H' as [_ H']; [discriminate|left; vm_compute; reflexivity|].
    apply H'. left. vm_compute. reflexivity.
Defined.

(** * Further properties of the extraction code *)

(** ** Spans of [last_boxed_only_string] *)

Lemma occurs_at_unshift (sub pre s : text) (j : nat) :
  occurs_at sub (pre ++ s) (length pre + j) -> occurs_at sub s j.
Proof.
  induction pre as [|c pre IH]; simpl; [auto|].
  intros H. apply occurs_at_S in H. exact (IH H).
Qed.

Lemma last_at_unshift (sub pre s : text) :
  last_at sub (pre ++ s) (length pre) -> last_at sub s 0.
Proof.
  intros [Ho Hm]. split.
  - apply (occurs_at_unshift sub pre). now rewrite Nat.add_0_r.
  - intros j Hj. specialize (Hm _ (occurs_at_shift _ _ pre _ Hj)). lia.
Qed.

Lemma marker_at_unshift (pre s m : text) :
  marker_at (pre ++ s) m (length pre) -> marker_at s m 0.
Proof.
  intros [[-> Hl]|(-> & Ha & Hl)].
  - left. split; [reflexivity|exact (last_at_unshift _ _ _ Hl)].
  - right. split; [reflexivity|]. split.
    + exact (absent_suffix _ _ _ Ha).
    + exact (last_at_unshift _ _ _ Hl).
Qed.

Lemma option_ext (A : Type) (x y : option A) :
  (forall a, x = Some a <-> y = Some a) -> x = y.
Proof.
  intros H. destruct x as [a|].
  - symmetry. now apply (H a).
  - destruct y as [b|]; [|reflexivity]. now apply (H b).
Qed.

(** X1: the text before the marker plays no part. When the last
    [\boxed] (or, with no [\boxed] at all, the last [\fbox]) of a text
    starts at the end of [pre], [last_boxed_only_string] and the boxed
    stage give on the whole text what they give on the text from the
    marker on. In particular an earlier, complete [\fbox{...}] is never
    used once a [\boxed] occurs. *)
Theorem last_boxed_ignores_prefix (pre tail m : text) :
  marker_at (pre ++ tail) m (length pre) ->
  last_boxed_only_string (pre ++ tail) = last_boxed_only_string tail /\
  boxed_stage (pre ++ tail) = boxed_stage tail.
Proof.
  intros Hm.
  assert (E : last_boxed_only_string (pre ++ tail)
              = last_boxed_only_string tail).
  { rewrite (last_boxed_at_marker _ _ _ Hm).
    rewrite (last_boxed_at_marker _ _ _ (marker_at_unshift _ _ _ Hm)).
    apply option_ext. intros span.
    rewrite (scan_from_stops (pre ++ tail) (length pre) span).
    rewrite (scan_from_stops tail 0 span).
    rewrite skipn_app, skipn_all, Nat.sub_diag. simpl. reflexivity. }
  split; [exact E|]. unfold boxed_stage. now rewrite E.
Qed.

Lemma last_boxed_ignores_prefix_witness :
  boxed_stage (str "first \fbox{7}, then \boxed{8")
  = boxed_stage (str "\boxed{8").
Proof.
  refine (proj2 (last_boxed_ignores_prefix
                   (str "first \fbox{7}, then ") (str "\boxed{8")
                   (str "\boxed") _)).
  apply marker_at_by_rfind. vm_compute. reflexivity.
Defined.

(** X2: an opening brace that is never closed gives no span. When the
    marker is followed by [{] and every closing brace after it closes a
    brace opened after it, the loop runs to the end of the text:
    [last_boxed_only_string] returns [None] and the boxed stage finds
    nothing. *)
Theorem unclosed_group_not_found (pre m rest : text) :
  marker_at (pre ++ m ++ lbrace :: rest) m (length pre) ->
  unclosed rest ->
  last_boxed_only_string (pre ++ m ++ lbrace :: rest) = None /\
  boxed_stage (pre ++ m ++ lbrace :: rest) = Fall.
Proof.
  intros Hm Hu.
  assert (E : last_boxed_only_string (pre ++ m ++ lbrace :: rest) = None).
  { rewrite (last_boxed_at_marker _ _ _ Hm).
    unfold scan_from. rewrite slice_from_app.
    rewrite brace_loop_skip by exact (marker_brace_free _ _ _ Hm).
    cbn [brace_loop].
    change (lbrace =? lbrace)%N with true.
    change (lbrace =? rbrace)%N with false. cbv iota.
    rewrite brace_loop_unclosed; [reflexivity|].
    intros p q Ep. specialize (Hu p q Ep). lia. }
  split; [exact E|]. unfold boxed_stage. now rewrite E.
Qed.

Lemma unclosed_group_not_found_witness :
  last_boxed_only_string (str "so \fbox{a{b and more text") = None /\
  boxed_stage (str "so \fbox{a{b and more text") = Fall.
Proof.
  apply (unclosed_group_not_found
           (str "so ") (str "\fbox") (str "a{b and more text")).
  - apply fbox_marker_at_by_rfind; vm_compute; reflexivity.
  - apply unclosed_no_close. apply not_in_by_existsb. vm_compute. reflexivity.
Defined.

Lemma last_boxed_some_marker (txt span : text) :
  last_boxed_only_string txt = Some span ->
  exists m i, marker_at txt m i /\ scan_from txt (Z.of_nat i) = Some span.
Proof.
  unfold last_boxed_only_string.
  destruct (Z.ltb_spec (rfind txt (str "\boxed")) 0) as [Hb|Hb].
  - destruct (Z.ltb_spec (rfind txt (str "\fbox")) 0) as [Hf|Hf];
      [discriminate|].
    intros H. exists (str "\fbox"), (Z.to_nat (rfind txt (str "\fbox"))).
    split.
    + right. split; [reflexivity|]. split.
      * now apply rfind_negative_absent.
      * now apply rfind_nonnegative_last.
    + now rewrite Z2Nat.id.
  - intros H. exists (str "\boxed"), (Z.to_nat (rfind txt (str "\boxed"))).
    split.
    + left. split; [reflexivity|]. now apply rfind_nonnegative_last.
    + now rewrite Z2Nat.id.
Qed.

Lemma prefix_before (p q m b : text) (x : char) :
  p ++ x :: q = m ++ b -> ~ In x m -> exists p', p = m ++ p'.
Proof.
  revert p; induction m as [|y m IH]; intros p E Hx.
  - now exists p.
  - destruct p as [|z p]; simpl in E.
    + injection E as -> _. exfalso. apply Hx. now left.
    + injection E as -> E.
      destruct (IH p E) as [p' ->]; [intros H; apply Hx; now right|].
      now exists p'.
Qed.

Lemma marker_occurs (txt m : text) (i : nat) :
  marker_at txt m i -> occurs_at m txt i.
Proof. intros [[_ [Ho _]]|(_ & _ & [Ho _])]; exact Ho. Qed.

Lemma brace_free_no_close (m : text) : brace_free m -> ~ In rbrace m.
Proof. intros H Hin. destruct (H _ Hin) as [_ Hr]. now apply Hr. Qed.

(** X3: the shape of a returned span. Whenever
    [last_boxed_only_string] returns a span, the span is a contiguous part
    of the text that starts at the marker ([\boxed], or [\fbox] when the
    text has no [\boxed]), ends with a closing brace, and holds as many
    opening as closing braces. *)
Theorem last_boxed_span_shape (txt span : text) :
  last_boxed_only_string txt = Some span ->
  exists pre m body post,
    txt = pre ++ span ++ post /\
    marker_at txt m (length pre) /\
    span = m ++ body ++ [rbrace] /\
    count_occ N.eq_dec span lbrace = count_occ N.eq_dec span rbrace.
Proof.
  intros H.
  destruct (last_boxed_some_marker _ _ H) as (m & i & Hm & Hs).
  apply scan_from_stops in Hs as (p & q & (Ep & Hz & _) & ->).
  destruct (marker_occurs _ _ _ Hm) as (a & b & Et & <-).
  rewrite Et in Ep. rewrite skipn_app, skipn_all, Nat.sub_diag in Ep.
  simpl in Ep. symmetry in Ep.
  destruct (prefix_before _ _ _ _ _ Ep
              (brace_free_no_close _ (marker_brace_free _ _ _ Hm)))
    as [body ->].
  exists a, m, body, q. split; [|split; [|split]].
  - rewrite Et. f_equal.
    rewrite <- app_assoc in Ep. apply app_inv_head in Ep. subst b.
    now rewrite <- !app_assoc.
  - exact Hm.
  - now rewrite <- app_assoc.
  - unfold net_depth in Hz. rewrite !count_occ_app in Hz.
    rewrite !count_occ_app. cbn [count_occ].
    destruct (N.eq_dec rbrace lbrace) as [E|_]; [discriminate E|].
    destruct (N.eq_dec rbrace rbrace) as [_|E]; [|congruence].
    lia.
Qed.

Lemma last_boxed_span_shape_witness :
  exists pre m body post,
    str "so \boxed  {a{b}c}} y" = pre ++ str "\boxed  {a{b}c}" ++ post /\
    marker_at (str "so \boxed  {a{b}c}} y") m (length pre) /\
    str "\boxed  {a{b}c}" = m ++ body ++ [rbrace] /\
    count_occ N.eq_dec (str "\boxed  {a{b}c}") lbrace
    = count_occ N.eq_dec (str "\boxed  {a{b}c}") rbrace.
Proof.
  apply (last_boxed_span_shape (str "so \boxed  {a{b}c}} y")).
  vm_compute. reflexivity.
Defined.

(** ** The shapes of [remove_boxed] *)

Lemma text_eqb_eq (a b : text) : text_eqb a b = true -> a = b.
Proof.
  revert b; induction a as [|x a IH]; intros [|y b] H; simpl in H;
    try discriminate; [reflexivity|].
  apply andb_true_iff in H as [Hx Hr]. apply N.eqb_eq in Hx.
  now rewrite Hx, (IH _ Hr).
Qed.

Lemma braced_inv (left s : text) :
  hd_error (rev left) = Some lbrace ->
  startswith s left && endswith s [rbrace] = true ->
  exists a, s = left ++ a ++ [rbrace].
Proof.
  intros Hl H. apply andb_true_iff in H as [Hs He].
  destruct (startswith_inv _ _ Hs) as [r ->].
  unfold endswith in He. rewrite rev_app_distr in He.
  destruct (rev r) as [|y t] eqn:Er.
  - exfalso. simpl in He. destruct (rev left) as [|z w]; [discriminate|].
    injection Hl as ->. simpl in He. discriminate He.
  - simpl in He. apply andb_true_iff in He as [Hy _].
    apply N.eqb_eq in Hy. subst y.
    exists (rev t). f_equal.
    rewrite <- (rev_involutive r), Er. reflexivity.
Qed.

Lemma remove_boxed_inv (s a : text) :
  remove_boxed s = Some a ->
  s = str "\boxed " ++ a \/
  s = str "\boxed{" ++ a ++ [rbrace] \/
  s = str "\fbox{" ++ a ++ [rbrace].
Proof.
  unfold remove_boxed.
  set (braced :=
         if startswith s (str "\boxed{") && endswith s [rbrace]
         then Some (slice_drop_last s (Z.of_nat (length (str "\boxed{"))))
         else if startswith s (str "\fbox{") && endswith s [rbrace]
              then Some (slice_drop_last s (Z.of_nat (length (str "\fbox{"))))
              else None).
  assert (Hb : braced = Some a ->
               s = str "\boxed{" ++ a ++ [rbrace] \/
               s = str "\fbox{" ++ a ++ [rbrace]).
  { unfold braced.
    destruct (startswith s (str "\boxed{") && endswith s [rbrace]) eqn:E1.
    - destruct (braced_inv (str "\boxed{") s eq_refl E1) as [x ->].
      rewrite slice_drop_last_wrapped. intros H. injection H as ->. now left.
    - destruct (startswith s (str "\fbox{") && endswith s [rbrace]) eqn:E2;
        [|discriminate].
      destruct (braced_inv (str "\fbox{") s eq_refl E2) as [x ->].
      rewrite slice_drop_last_wrapped. intros H. injection H as ->. now right. }
  destruct (contains s (str "\boxed ")); [|intros H; right; now apply Hb].
  destruct (text_eqb (slice s 0 (Z.of_nat (length (str "\boxed "))))
                     (str "\boxed ")) eqn:E;
    [|intros H; right; now apply Hb].
  intros H. injection H as <-. left.
  apply text_eqb_eq in E.
  change (slice s 0 (Z.of_nat (length (str "\boxed ")))) with (firstn 7 s) in E.
  change (slice_from s (Z.of_nat (length (str "\boxed ")))) with (skipn 7 s).
  rewrite <- E. symmetry. apply firstn_skipn.
Qed.

Lemma remove_boxed_wrapped (left X : text) :
  left = str "\boxed{" \/ left = str "\fbox{" ->
  remove_boxed (left ++ X ++ [rbrace]) = Some X.
Proof.
  intros Hl. unfold remove_boxed.
  assert (E : text_eqb (slice (left ++ X ++ [rbrace]) 0
                          (Z.of_nat (length (str "\boxed "))))
                       (str "\boxed ") = false)
    by (destruct Hl as [-> | ->]; reflexivity).
  rewrite E.
  assert (B : (if startswith (left ++ X ++ [rbrace]) (str "\boxed{")
                  && endswith (left ++ X ++ [rbrace]) [rbrace]
               then Some (slice_drop_last (left ++ X ++ [rbrace])
                            (Z.of_nat (length (str "\boxed{"))))
               else if startswith (left ++ X ++ [rbrace]) (str "\fbox{")
                       && endswith (left ++ X ++ [rbrace]) [rbrace]
                    then Some (slice_drop_last (left ++ X ++ [rbrace])
                                 (Z.of_nat (length (str "\fbox{"))))
                    else None) = Some X).
  { rewrite (app_assoc left X [rbrace]), endswith_close, <- app_assoc.
    destruct Hl as [-> | ->].
    - rewrite startswith_app. cbn [andb].
      now rewrite slice_drop_last_wrapped.
    - change (startswith (str "\fbox{" ++ X ++ [rbrace]) (str "\boxed{"))
        with false.
      rewrite startswith_app. cbn [andb].
      now rewrite slice_drop_last_wrapped. }
  destruct (contains (left ++ X ++ [rbrace]) (str "\boxed ")); exact B.
Qed.

(** X4: [remove_boxed] returns [a] exactly for the three shapes
    [\boxed a] (a space after the name), [\boxed{a}] and [\fbox{a}], and
    [None] for every other string: wrapping any text [a], whatever it
    holds, and unwrapping gives [a] back, and nothing but a wrapper is
    unwrapped. *)
Theorem remove_boxed_shapes (s a : text) :
  remove_boxed s = Some a <->
  s = str "\boxed " ++ a \/
  s = str "\boxed{" ++ a ++ [rbrace] \/
  s = str "\fbox{" ++ a ++ [rbrace].
Proof.
  split; [apply remove_boxed_inv|].
  intros [-> | [-> | ->]].
  - apply remove_boxed_spaced.
  - apply remove_boxed_wrapped. now left.
  - apply remove_boxed_wrapped. now right.
Qed.

(** ** What a match consumes and captures *)

Lemma one_inv (A : Type) (cs : charset) (s : text) (k : text -> option A)
      (v : A) :
  one cs s k = Some v ->
  exists c s', s = c :: s' /\ cs_match cs c = true /\ k s' = Some v.
Proof.
  destruct s as [|c s]; simpl; [discriminate|].
  destruct (cs_match cs c) eqn:E; [|discriminate].
  intros H. now exists c, s.
Qed.

Lemma star_greedy_inv (A : Type) (cs : charset) (s : text)
      (k : text -> option A) (v : A) :
  star_greedy cs s k = Some v ->
  exists u s', s = u ++ s' /\
               (forall c, In c u -> cs_match cs c = true) /\
               k s' = Some v.
Proof.
  induction s as [|c s IH]; simpl; intros H.
  - exists [], []. repeat split; [intros c []|exact H].
  - destruct (cs_match cs c) eqn:E.
    + destruct (star_greedy cs s k) as [m|] eqn:Es.
      * injection H as ->.
        destruct (IH eq_refl) as (u & s' & -> & Hu & Hk).
        exists (c :: u), s'. repeat split; [|exact Hk].
        intros x [<-|Hx]; [exact E|now apply Hu].
      * exists [], (c :: s). repeat split; [intros x []|exact H].
    + exists [], (c :: s). repeat split; [intros x []|exact H].
Qed.

Lemma star_lazy_inv (A : Type) (cs : charset) (s : text)
      (k : text -> option A) (v : A) :
  star_lazy cs s k = Some v ->
  exists u s', s = u ++ s' /\
               (forall c, In c u -> cs_match cs c = true) /\
               k s' = Some v.
Proof.
  induction s as [|c s IH]; cbn [star_lazy]; intros H.
  - destruct (k []) as [m|] eqn:Ek; [|discriminate].
    exists [], []. repeat split; [intros c []|now rewrite Ek].
  - destruct (k (c :: s)) as [m|] eqn:Ek.
    + exists [], (c :: s). repeat split; [intros x []|now rewrite Ek].
    + destruct (cs_match cs c) eqn:E; [|discriminate].
      destruct (IH H) as (u & s' & -> & Hu & Hk).
      exists (c :: u), s'. repeat split; [|exact Hk].
      intros x [<-|Hx]; [exact E|now apply Hu].
Qed.

Lemma opt_greedy_inv (A : Type) (cs : charset) (s : text)
      (k : text -> option A) (v : A) :
  opt_greedy cs s k = Some v ->
  exists u s', s = u ++ s' /\
               (forall c, In c u -> cs_match cs c = true) /\
               k s' = Some v.
Proof.
  unfold opt_greedy. destruct (one cs s k) as [m|] eqn:E.
  - intros H. injection H as ->.
    destruct (one_inv _ _ _ _ _ E) as (c & s' & -> & Hc & Hk).
    exists [c], s'. repeat split; [|exact Hk].
    intros x [<-|[]]. exact Hc.
  - intros H. exists [], s. repeat split; [intros x []|exact H].
Qed.

Lemma set_consumes_no_newline (cs : charset) (u : text) :
  negb (cs_match cs NL) = true ->
  (forall c, In c u -> cs_match cs c = true) -> ~ In NL u.
Proof.
  intros Hf Hu Hin. apply negb_true_iff in Hf.
  rewrite (Hu _ Hin) in Hf. discriminate Hf.
Qed.

(** A successful run consumes a prefix [u] of the string, hands the rest
    to its continuation, and leaves group 1 as [group_after] says. *)
Lemma run_inv (A : Type) (r : regex) :
  forall (s : text) (g : option text)
         (k : text -> option text -> option A) (v : A),
    run r s g k = Some v ->
    exists u s' g',
      s = u ++ s' /\ k s' g' = Some v /\
      (nl_free r = true -> ~ In NL u) /\
      group_after r g g' u.
Proof.
  induction r as [l|cs|cs|cs|cs| |r1 IH1|r1 IH1 r2 IH2];
    intros s g k v; cbn [run nl_free]; intros H.
  - destruct (lit l s) as [s'|] eqn:E; [|discriminate].
    apply lit_inv in E. exists l, s', g. repeat split; auto.
    + intros Hf. apply not_in_by_existsb. now apply negb_true_iff.
    + now left.
  - destruct (one_inv _ _ _ _ _ H) as (c & s' & -> & Hc & Hk).
    exists [c], s', g. repeat split; auto.
    + intros Hf. apply (set_consumes_no_newline cs); [exact Hf|].
      intros x [<-|[]]. exact Hc.
    + now left.
  - destruct (one_inv _ _ _ _ _ H) as (c & s1 & -> & Hc & Hk).
    destruct (star_greedy_inv _ _ _ _ _ Hk) as (u & s' & -> & Hu & Hk').
    exists (c :: u), s', g. repeat split; auto.
    + intros Hf. apply (set_consumes_no_newline cs); [exact Hf|].
      intros x [<-|Hx]; [exact Hc|now apply Hu].
    + now left.
  - destruct (one_inv _ _ _ _ _ H) as (c & s1 & -> & Hc & Hk).
    destruct (star_lazy_inv _ _ _ _ _ Hk) as (u & s' & -> & Hu & Hk').
    exists (c :: u), s', g. repeat split; auto.
    + intros Hf. apply (set_consumes_no_newline cs); [exact Hf|].
      intros x [<-|Hx]; [exact Hc|now apply Hu].
    + now left.
  - destruct (opt_greedy_inv _ _ _ _ _ H) as (u & s' & -> & Hu & Hk).
    exists u, s', g. repeat split; auto.
    + intros Hf. now apply (set_consumes_no_newline cs).
    + now left.
  - destruct (at_end s); [|discriminate].
    exists [], s, g. repeat split; auto. now left.
  - destruct (IH1 _ _ _ _ H) as (u & s' & g1 & -> & Hk & Hn & _).
    rewrite firstn_before in Hk.
    exists u, s', (Some u). repeat split; auto.
    right. exists [], u, []. rewrite app_nil_r. repeat split; auto.
  - destruct (IH1 _ _ _ _ H) as (u1 & s1 & g1 & -> & H1 & N1 & G1).
    destruct (IH2 _ _ _ _ H1) as (u2 & s2 & g2 & -> & H2 & N2 & G2).
    exists (u1 ++ u2), s2, g2. rewrite <- app_assoc.
    split; [reflexivity|]. split; [exact H2|]. split.
    + intros Hf. apply andb_true_iff in Hf as [Hf1 Hf2].
      intros Hin. apply in_app_or in Hin as [Hin|Hin];
        [exact (N1 Hf1 Hin)|exact (N2 Hf2 Hin)].
    + destruct G2 as [[-> Hg2]|(a & b & c & -> & -> & Hc2)].
      * destruct G1 as [[-> Hg1]|(a & b & c & -> & -> & Hc1)].
        -- left. split; [reflexivity|]. cbn [has_group].
           now rewrite Hg1, Hg2.
        -- right. exists a, b, (c ++ u2). rewrite <- !app_assoc.
           repeat split; auto.
           cbn [group_nl_free]. intros Hf.
           apply andb_true_iff in Hf as [Hf _]. now apply Hc1.
      * right. exists (u1 ++ a), b, c. rewrite <- !app_assoc.
        repeat split; auto.
        cbn [group_nl_free]. intros Hf.
        apply andb_true_iff in Hf as [_ Hf]. now apply Hc2.
Qed.

Lemma infix_refl (s : text) : infix s s.
Proof. exists [], []. now rewrite app_nil_r. Qed.

Lemma infix_nil (s : text) : infix [] s.
Proof. now exists [], s. Qed.

Lemma infix_trans (a b c : text) : infix a b -> infix b c -> infix a c.
Proof.
  intros (l1 & r1 & ->) (l2 & r2 & ->).
  exists (l2 ++ l1), (r1 ++ r2). now rewrite <- !app_assoc.
Qed.

Lemma infix_app_r (a w s : text) : infix a s -> infix a (w ++ s).
Proof.
  intros (l & r & ->). exists (w ++ l), r. now rewrite <- app_assoc.
Qed.

Lemma infix_no_newline (a s : text) : infix a s -> ~ In NL s -> ~ In NL a.
Proof.
  intros (l & r & ->) H Hin. apply H.
  apply in_or_app. right. apply in_or_app. now left.
Qed.

Lemma match_here_inv (pat : regex) (s : text) (m : re_match) :
  has_group pat = true -> group_nl_free pat = true ->
  match_here pat s = Some m ->
  exists g, group1 m = Some g /\ infix g s /\ ~ In NL g.
Proof.
  intros Hg Hn H. unfold match_here in H.
  destruct (run_inv _ _ _ _ _ _ H) as (u & s' & g' & -> & Hk & _ & G).
  injection Hk as <-. cbn [group1].
  destruct G as [[_ Hno]|(a & b & c & -> & -> & Hb)]; [congruence|].
  exists b. split; [reflexivity|]. split; [|now apply Hb].
  exists a, (c ++ s'). now rewrite <- !app_assoc.
Qed.

Lemma re_search_inv (pat : regex) (s : text) (m : re_match) :
  re_search pat s = Some m ->
  exists w t, s = w ++ t /\ match_here pat t = Some m.
Proof.
  induction s as [|c s IH]; cbn [re_search].
  - destruct (match_here pat []) as [m'|] eqn:E; [|discriminate].
    intros H. injection H as ->. now exists [], [].
  - destruct (match_here pat (c :: s)) as [m'|] eqn:E.
    + intros H. injection H as ->. now exists [], (c :: s).
    + intros H. destruct (IH H) as (w & t & -> & Hm).
      now exists (c :: w), t.
Qed.

Lemma patterns_have_group (pat : regex) :
  In pat patterns -> has_group pat = true /\ group_nl_free pat = true.
Proof.
  intros [<-|[<-|[<-|[]]]]; split; reflexivity.
Qed.

Lemma for_patterns_inv (ps : list regex) (s : text) :
  (forall pat, In pat ps ->
               has_group pat = true /\ group_nl_free pat = true) ->
  for_patterns ps s <> Raised /\
  forall a, for_patterns ps s = Normal (Some a) ->
            exists g, infix g s /\ ~ In NL g /\
                      a = rstrip_dot (strip g) /\ truthy a = true.
Proof.
  induction ps as [|pat ps IH]; intros Hps; cbn [for_patterns].
  - split; [discriminate|]. intros a H. discriminate H.
  - assert (IH' := IH (fun p Hp => Hps p (or_intror Hp))).
    destruct (re_search pat s) as [m|] eqn:E; [|exact IH'].
    destruct (re_search_inv _ _ _ E) as (w & t & -> & Hm).
    destruct (Hps pat (or_introl eq_refl)) as [Hg Hn].
    destruct (match_here_inv _ _ _ Hg Hn Hm) as (g & -> & Hi & Hnl).
    destruct (truthy (rstrip_dot (strip g))) eqn:Et; [|exact IH'].
    split; [discriminate|].
    intros a H. injection H as <-. exists g.
    repeat split; auto. now apply infix_app_r.
Qed.

Lemma strip_infix (s : text) : infix (strip s) s.
Proof.
  unfold strip.
  destruct (dropwhile_suffix is_space s) as [w Hw].
  destruct (rstrip_prefix (lstrip s)) as [z Hz].
  exists w, z. unfold lstrip in *. now rewrite <- Hz.
Qed.

Lemma rstrip_dot_infix (s : text) : infix (rstrip_dot s) s.
Proof.
  destruct (rstrip_dot_prefix s) as [w Hw]. now exists [], w.
Qed.

(** X5: [extract_answer_from_text] never raises: in each of the three
    patterns group 1 takes part in every match, so [match.group(1)] is a
    string and [strip] is never called on [None]. The phrase stage, then,
    never reaches its [except] clause. *)
Theorem extract_answer_from_text_never_raises (txt : text) :
  extract_answer_from_text txt <> Raised /\ phrase_stage txt <> Raise.
Proof.
  assert (H : extract_answer_from_text txt <> Raised).
  { unfold extract_answer_from_text.
    destruct (negb (truthy txt)); [discriminate|].
    exact (proj1 (for_patterns_inv patterns (strip txt) patterns_have_group)). }
  split; [exact H|]. unfold phrase_stage.
  destruct (extract_answer_from_text txt) as [[a|]|]; try discriminate.
  - destruct (truthy a); discriminate.
  - congruence.
Qed.

(** X6: the answer of [extract_answer_from_text] is one line of the
    text: it is a contiguous part of the text, holds no newline, and its
    first character is not white space. *)
Theorem phrase_answer_single_line (txt a : text) :
  extract_answer_from_text txt = Normal (Some a) ->
  infix a txt /\ ~ In NL a /\
  exists c rest, a = c :: rest /\ is_space c = false.
Proof.
  unfold extract_answer_from_text.
  destruct (negb (truthy txt)); [discriminate|]. intros H.
  destruct (proj2 (for_patterns_inv patterns (strip txt) patterns_have_group)
              a H) as (g & Hi & Hnl & -> & Ht).
  assert (Hag : infix (rstrip_dot (strip g)) g)
    by (exact (infix_trans _ _ _ (rstrip_dot_infix _) (strip_infix _))).
  split; [|split].
  - exact (infix_trans _ _ _ Hag (infix_trans _ _ _ Hi (strip_infix _))).
  - exact (infix_no_newline _ _ Hag Hnl).
  - destruct (rstrip_dot (strip g)) as [|c rest] eqn:E; [discriminate|].
    exists c, rest. split; [reflexivity|].
    destruct (rstrip_dot_prefix (strip g)) as [w Hw]. rewrite E in Hw.
    exact (strip_head _ _ _ Hw).
Qed.

Lemma phrase_answer_single_line_witness :
  infix (str "3 apples")
        (str "so x = 3." ++ [NL] ++ str "The answer is: 3 apples. " ++ [NL]
             ++ str "Done.") /\
  ~ In NL (str "3 apples") /\
  exists c rest, str "3 apples" = c :: rest /\ is_space c = false.
Proof.
  apply (phrase_answer_single_line
           (str "so x = 3." ++ [NL] ++ str "The answer is: 3 apples. " ++ [NL]
                ++ str "Done.")).
  vm_compute. reflexivity.
Defined.

(** ** Answers are parts of the text *)

Lemma slice_infix (s : text) (lo hi : Z) : infix (slice s lo hi) s.
Proof.
  unfold slice.
  exists (firstn (Z.to_nat lo) s),
         (skipn (Z.to_nat (hi - lo)) (skipn (Z.to_nat lo) s)).
  now rewrite firstn_skipn, firstn_skipn.
Qed.

Lemma last_boxed_infix (txt span : text) :
  last_boxed_only_string txt = Some span -> infix span txt.
Proof.
  intros H. destruct (last_boxed_some_marker _ _ H) as (m & i & _ & Hs).
  unfold scan_from in Hs.
  destruct (brace_loop (slice_from txt (Z.of_nat i)) (Z.of_nat i) 0);
    [|discriminate].
  injection Hs as <-. apply slice_infix.
Qed.

Lemma remove_boxed_infix (s a : text) : remove_boxed s = Some a -> infix a s.
Proof.
  intros H. destruct (remove_boxed_inv _ _ H) as [-> | [-> | ->]].
  - exists (str "\boxed "), []. now rewrite app_nil_r.
  - now exists (str "\boxed{"), [rbrace].
  - now exists (str "\fbox{"), [rbrace].
Qed.

Lemma boxed_stage_infix (txt v : text) :
  boxed_stage txt = Return v -> infix v txt.
Proof.
  unfold boxed_stage.
  destruct (last_boxed_only_string txt) as [b|] eqn:Eb; [|discriminate].
  destruct (remove_boxed b) as [a|] eqn:Ea; [|discriminate].
  destruct (truthy (strip a)); [|discriminate].
  intros H. injection H as <-.
  apply (infix_trans _ a); [apply strip_infix|].
  apply (infix_trans _ b); [now apply remove_boxed_infix|].
  now apply last_boxed_infix.
Qed.

Lemma phrase_stage_infix (txt v : text) :
  phrase_stage txt = Return v -> infix v txt.
Proof.
  unfold phrase_stage.
  destruct (extract_answer_from_text txt) as [[a|]|] eqn:E; try discriminate.
  destruct (truthy a); [|discriminate].
  intros H. injection H as <-.
  apply (infix_trans _ a); [apply strip_infix|].
  unfold extract_answer_from_text in E.
  destruct (negb (truthy txt)); [discriminate|].
  destruct (proj2 (for_patterns_inv patterns (strip txt) patterns_have_group)
              a E) as (g & Hi & _ & -> & _).
  apply (infix_trans _ (strip g)); [apply rstrip_dot_infix|].
  apply (infix_trans _ g); [apply strip_infix|].
  exact (infix_trans _ _ _ Hi (strip_infix _)).
Qed.

(** X7: [extract_answer] returns a part of its input. In both
    orderings, whatever the parser does, the string returned is a
    contiguous part of the text, unless it is the answer of the symbolic
    stage; without [math_verify] the answer is always cut out of the
    text. *)
Theorem answer_is_part_of_text
        (avail : bool) (parse : parser) (txt r : text) :
  Metamath.extract_answer avail parse txt = Normal r \/
  Mugglemath.extract_answer avail parse txt = Normal r ->
  infix r txt \/ (avail = true /\ symbolic_stage parse txt = Return r).
Proof.
  unfold Metamath.extract_answer, Metamath.extract_answer_body,
    Mugglemath.extract_answer, Mugglemath.extract_answer_body.
  destruct (truthy txt); cbn [negb then_].
  2:{ intros [H|H]; injection H as <-; left; apply infix_nil. }
  pose proof (phrase_stage_infix txt) as Hp.
  pose proof (boxed_stage_infix txt) as Hb.
  intros [H|H].
  - destruct (phrase_stage txt) as [v| |]; cbn in H.
    { injection H as <-. left. now apply Hp. }
    all: destruct (boxed_stage txt) as [v| |]; cbn in H.
    all: try (injection H as <-; left; now apply Hb).
    all: destruct avail; cbn in H.
    all: try (injection H as <-; left; apply infix_nil).
    all: destruct (symbolic_stage parse txt) as [v| |]; cbn in H;
      injection H as <-; [right; now split|left; apply infix_nil..].
  - destruct (boxed_stage txt) as [v| |]; cbn in H.
    { injection H as <-. left. now apply Hb. }
    all: destruct avail; cbn in H.
    all: try (injection H as <-; left; apply infix_nil).
    all: destruct (symbolic_stage parse txt) as [v| |]; cbn in H;
      injection H as <-; [right; now split|left; apply infix_nil..].
Qed.

Lemma answer_is_part_of_text_witness :
  infix (str "\frac{1}{2}") (str "Thus x = \boxed{ \frac{1}{2} }.") \/
  (false = true /\
   symbolic_stage no_parse (str "Thus x = \boxed{ \frac{1}{2} }.")
   = Return (str "\frac{1}{2}")).
Proof.
  apply (answer_is_part_of_text false no_parse
           (str "Thus x = \boxed{ \frac{1}{2} }.") (str "\frac{1}{2}")).
  left. vm_compute. reflexivity.
Defined.

(** ** Blank texts *)

Lemma blank_lstrip (s : text) : blank s -> lstrip s = [].
Proof.
  unfold lstrip. induction s as [|c s IH]; intros H; [reflexivity|].
  simpl. rewrite (H c) by now left.
  apply IH. intros x Hx. apply H. now right.
Qed.

Lemma blank_absent (sub s : text) (c : char) :
  hd_error sub = Some c -> is_space c = false -> blank s -> absent sub s.
Proof.
  intros Hc Hs Hb j (a & b & -> & _).
  destruct sub as [|x sub]; [discriminate|]. injection Hc as ->.
  assert (E : is_space c = true)
    by (apply Hb; apply in_or_app; right; now left).
  congruence.
Qed.

(** X8: a text of white space only holds no answer. For such a text
    (the empty one included) [extract_answer_from_text] returns [None],
    the boxed stage finds nothing, and without [math_verify] both
    orchestrators return the empty string. *)
Theorem blank_text_no_answer (txt : text) :
  blank txt ->
  extract_answer_from_text txt = Normal None /\
  boxed_stage txt = Fall /\
  forall parse,
    Metamath.extract_answer false parse txt = Normal [] /\
    Mugglemath.extract_answer false parse txt = Normal [].
Proof.
  intros Hb.
  assert (Ep : extract_answer_from_text txt = Normal None).
  { unfold extract_answer_from_text.
    destruct (negb (truthy txt)); [reflexivity|].
    unfold strip. now rewrite (blank_lstrip _ Hb). }
  assert (Eb : boxed_stage txt = Fall).
  { unfold boxed_stage, last_boxed_only_string.
    rewrite (rfind_of_absent _ _
               (blank_absent (str "\boxed") txt 92%N eq_refl eq_refl Hb)).
    simpl.
    rewrite (rfind_of_absent _ _
               (blank_absent (str "\fbox") txt 92%N eq_refl eq_refl Hb)).
    reflexivity. }
  split; [exact Ep|]. split; [exact Eb|].
  intros parse.
  unfold Metamath.extract_answer, Metamath.extract_answer_body,
    Mugglemath.extract_answer, Mugglemath.extract_answer_body, phrase_stage.
  rewrite Ep, Eb. destruct (truthy txt); split; reflexivity.
Qed.

Lemma blank_text_no_answer_witness :
  extract_answer_from_text [32%N; 9%N; NL; 160%N; 13%N] = Normal None /\
  Mugglemath.extract_answer false no_parse [32%N; 9%N; NL; 160%N; 13%N]
  = Normal [].
Proof.
  destruct (blank_text_no_answer [32%N; 9%N; NL; 160%N; 13%N]) as (E & _ & H).
  - intros c Hc. simpl in Hc.
    destruct Hc as [<-|[<-|[<-|[<-|[<-|[]]]]]]; reflexivity.
  - split; [exact E|exact (proj2 (H no_parse))].
Defined.

(** ** The two orderings compared *)

Lemma absent_infix (sub t s : text) : absent sub s -> infix t s -> absent sub t.
Proof.
  intros Ha (l & r & ->) j Hj.
  apply (Ha (length l + j)). apply occurs_at_shift.
  now apply occurs_at_extend.
Qed.

Lemma hash_absent_search (s : text) :
  absent (str "#### ") s -> re_search pattern3 s = None.
Proof.
  intros Ha.
  destruct (re_search pattern3 s) as [m|] eqn:E; [exfalso|reflexivity].
  destruct (re_search_inv _ _ _ E) as (w & t & -> & Hm).
  unfold match_here, pattern3 in Hm. cbn [run] in Hm.
  destruct (lit (str "#### ") t) as [t'|] eqn:El; [|discriminate].
  apply lit_inv in El. subst t.
  apply (Ha (length w)). now exists w, t'.
Qed.

Lemma no_marker_phrase_falls (txt : text) :
  absent (str "he answer is") txt -> absent (str "#### ") txt ->
  phrase_stage txt = Fall.
Proof.
  intros Ha Hh. unfold phrase_stage, extract_answer_from_text.
  destruct (negb (truthy txt)); [reflexivity|].
  unfold patterns. cbn [for_patterns].
  rewrite (phrase_absent_search pattern1)
    by (auto; exact (absent_infix _ _ _ Ha (strip_infix _))).
  rewrite (phrase_absent_search pattern2)
    by (auto; exact (absent_infix _ _ _ Ha (strip_infix _))).
  rewrite hash_absent_search
    by exact (absent_infix _ _ _ Hh (strip_infix _)).
  reflexivity.
Qed.

(** X9: the two scripts agree on texts without phrase markers. When
    neither [he answer is] nor [#### ] occurs in a text, the phrase-first
    [extract_answer] (metamath, mumath) and the boxed-first one
    (mugglemath) return the same string, with or without [math_verify]
    and whatever the parser does. *)
Theorem orderings_agree_without_phrase_marker
        (avail : bool) (parse : parser) (txt : text) :
  absent (str "he answer is") txt -> absent (str "#### ") txt ->
  Metamath.extract_answer avail parse txt
  = Mugglemath.extract_answer avail parse txt.
Proof.
  intros Ha Hh.
  unfold Metamath.extract_answer, Metamath.extract_answer_body,
    Mugglemath.extract_answer, Mugglemath.extract_answer_body.
  rewrite (no_marker_phrase_falls _ Ha Hh).
  destruct (negb (truthy txt)); reflexivity.
Qed.

Lemma orderings_agree_without_phrase_marker_witness :
  Metamath.extract_answer true no_parse (str "The result is \boxed{12}.")
  = Mugglemath.extract_answer true no_parse (str "The result is \boxed{12}.").
Proof.
  apply orderings_agree_without_phrase_marker.
  - apply absent_by_rfind. vm_compute. reflexivity.
  - apply absent_by_rfind. vm_compute. reflexivity.
Defined.

(** X10: a boxed answer from end to end. When a [\boxed] or [\fbox]
    marker (as chosen by [last_boxed_only_string]) is followed by a
    balanced group [{X}] with a visible character in [X], the boxed-first
    [extract_answer] returns [X] trimmed whatever the parser would do; the
    phrase-first one returns the same when neither [he answer is] nor
    [#### ] occurs in the text. *)
Theorem boxed_answer_end_to_end
        (avail : bool) (parse : parser) (pre m X post : text) :
  marker_at (pre ++ m ++ lbrace :: X ++ rbrace :: post) m (length pre) ->
  balanced X -> truthy (strip X) = true ->
  Mugglemath.extract_answer avail parse
    (pre ++ m ++ lbrace :: X ++ rbrace :: post) = Normal (strip X) /\
  (absent (str "he answer is") (pre ++ m ++ lbrace :: X ++ rbrace :: post) ->
   absent (str "#### ") (pre ++ m ++ lbrace :: X ++ rbrace :: post) ->
   Metamath.extract_answer avail parse
     (pre ++ m ++ lbrace :: X ++ rbrace :: post) = Normal (strip X)).
Proof.
  intros Hm Hb Ht.
  set (txt := pre ++ m ++ lbrace :: X ++ rbrace :: post) in *.
  assert (Eb : boxed_stage txt = Return (strip X)).
  { unfold boxed_stage, txt.
    rewrite (boxed_group_span pre m X post Hm Hb).
    rewrite remove_boxed_braced.
    - now rewrite Ht.
    - exact (marker_is_one _ _ _ Hm).
    - exact (span_without_spaced_prefix _ _ _ _ Hm). }
  pose proof (marker_nonempty _ _ _ Hm) as Hne.
  split.
  - unfold Mugglemath.extract_answer, Mugglemath.extract_answer_body.
    now rewrite Hne, Eb.
  - intros Ha Hh.
    unfold Metamath.extract_answer, Metamath.extract_answer_body.
    now rewrite Hne, (no_marker_phrase_falls _ Ha Hh), Eb.
Qed.

Lemma boxed_answer_end_to_end_witness :
  Mugglemath.extract_answer true (fun _ => Normal [str "7"])
    (str "The answer is: 3. So \boxed{ x^{2} } holds.") = Normal (str "x^{2}").
Proof.
  refine (proj1 (boxed_answer_end_to_end true (fun _ => Normal [str "7"])
                   (str "The answer is: 3. So ") (str "\boxed")
                   (str " x^{2} ") (str " holds.") _ _ _)).
  - apply marker_at_by_rfind. vm_compute. reflexivity.
  - vm_compute. reflexivity.
  - vm_compute. reflexivity.
Defined.

(** ** The second phrase rule *)











(** * The dataset builders *)

(** ** Loops *)

Lemma for_each_app (S X : Type) (body : S -> X -> outcome S)
      (xs ys : list X) (st : S) :
  for_each body (xs ++ ys) st
  = match for_each body xs st with
    | Raised => Raised
    | Normal st' => for_each body ys st'
    end.
Proof.
  revert st; induction xs as [|x xs IH]; intros st; simpl; [reflexivity|].
  destruct (body st x); [apply IH|reflexivity].
Qed.

Lemma for_each_raises (S X : Type) (body : S -> X -> outcome S)
      (xs : list X) (x : X) (st : S) :
  In x xs -> (forall st', body st' x = Raised) ->
  for_each body xs st = Raised.
Proof.
  revert st; induction xs as [|y xs IH]; intros st Hin Hx; [contradiction|].
  simpl. destruct Hin as [->|Hin].
  - now rewrite Hx.
  - destruct (body st y); [now apply IH|reflexivity].
Qed.

Lemma for_lines_normal (S : Type) (body : S -> text -> outcome S)
      (f : file) (st st' : S) :
  for_lines body f st = Normal st' ->
  readable f = true /\ for_each body (lines_of f) st = Normal st'.
Proof.
  destruct f as [|ls complete]; cbn [for_lines readable lines_of];
    [discriminate|].
  destruct (for_each body ls st) as [s1|]; [|discriminate].
  destruct complete; [|discriminate].
  intros H. now split.
Qed.

Lemma for_lines_unreadable (S : Type) (body : S -> text -> outcome S)
      (f : file) (st : S) :
  readable f = false -> for_lines body f st = Raised.
Proof.
  destruct f as [|ls complete]; cbn [for_lines readable]; [reflexivity|].
  destruct complete; [discriminate|]. intros _.
  now destruct (for_each body ls st).
Qed.

Lemma for_lines_raises (S : Type) (body : S -> text -> outcome S)
      (f : file) (line : text) (st : S) :
  In line (lines_of f) -> (forall st', body st' line = Raised) ->
  for_lines body f st = Raised.
Proof.
  destruct f as [|ls complete]; cbn [for_lines lines_of]; [contradiction|].
  intros Hin Hb. now rewrite (for_each_raises _ _ body ls line st Hin Hb).
Qed.

(** A loop over files that completes has read every file to its end, and
    is the loop over all their lines. *)
Lemma for_files_normal (S : Type) (body : S -> text -> outcome S)
      (files : list file) (st st' : S) :
  for_each (fun s f => for_lines body f s) files st = Normal st' ->
  forallb readable files = true /\
  for_each body (all_lines files) st = Normal st'.
Proof.
  revert st; induction files as [|f files IH]; intros st;
    cbn [for_each forallb]; unfold all_lines; cbn [map concat].
  - intros H. now split.
  - destruct (for_lines body f st) as [s1|] eqn:E; [|discriminate].
    apply for_lines_normal in E as [Hr E]. intros H.
    apply IH in H as [Hall H]. rewrite Hr, Hall. split; [reflexivity|].
    rewrite for_each_app, E. exact H.
Qed.

Lemma forallb_false_In (X : Type) (p : X -> bool) (l : list X) :
  forallb p l = false -> exists x, In x l /\ p x = false.
Proof.
  induction l as [|x l IH]; cbn [forallb]; [discriminate|].
  destruct (p x) eqn:E.
  - intros H. destruct (IH H) as (y & Hin & Hy).
    exists y. split; [now right|exact Hy].
  - intros _. exists x. split; [now left|exact E].
Qed.

Lemma text_eqb_refl (a : text) : text_eqb a a = true.
Proof.
  induction a as [|x a IH]; simpl; [reflexivity|]. now rewrite N.eqb_refl.
Qed.

(** ** Equal values *)

Lemma same_str (s t : text) : same (PStr s) (PStr t) = true -> s = t.
Proof. apply text_eqb_eq. Qed.

Lemma same_left (a b c : pyval) :
  same a b = true -> same a c = same b c.
Proof.
  destruct a as [s| |t1 h1 c1], b as [s'| |t2 h2 c2]; cbn [same];
    try discriminate; intros H.
  - apply text_eqb_eq in H. now subst.
  - apply Nat.eqb_eq in H. subst. now destruct c.
Qed.

Lemma same_right (a b c : pyval) :
  same a c = true -> same b c = true -> same a b = true.
Proof.
  destruct a as [s| |t1 h1 c1], b as [s'| |t2 h2 c2], c as [s''| |t3 h3 c3];
    cbn [same]; try discriminate; intros H1 H2.
  - apply text_eqb_eq in H1, H2. subst. apply text_eqb_refl.
  - apply Nat.eqb_eq in H1, H2. subst. apply Nat.eqb_refl.
Qed.

Lemma counts_get_set (d : counts) (k k' : pyval) (v n : nat) :
  counts_get (counts_set d k v) k' n
  = if same k k' then v else counts_get d k' n.
Proof.
  induction d as [|[k0 x] d IH]; cbn [counts_set counts_get];
    [reflexivity|].
  destruct (same k0 k) eqn:E0; cbn [counts_get].
  - rewrite (same_left _ _ k' E0). now destruct (same k k').
  - rewrite IH. destruct (same k0 k') eqn:E1; [|reflexivity].
    destruct (same k k') eqn:E2; [|reflexivity].
    rewrite (same_right _ _ _ E1 E2) in E0. discriminate E0.
Qed.

(** ** The orchestrators on values *)

(** On a string, [extract_answer] is the function of the first part. *)
Lemma meta_value_on_text (avail : bool) (parse : value_parser) (s : text) :
  MetamathValue.extract_answer avail parse (PStr s)
  = Metamath.extract_answer avail (on_text parse) s.
Proof. reflexivity. Qed.

Lemma muggle_value_on_text (avail : bool) (parse : value_parser) (s : text) :
  MugglemathValue.extract_answer avail parse (PStr s)
  = Mugglemath.extract_answer avail (on_text parse) s.
Proof. reflexivity. Qed.

Lemma meta_answer_total (avail : bool) (parse : parser) (txt : text) :
  exists r, Metamath.extract_answer avail parse txt = Normal r.
Proof.
  destruct txt as [|c txt]; [now exists []|].
  destruct (meta_shape avail parse (c :: txt)) as [(v & E & _)|(E & _)];
    [discriminate| |]; eexists; exact E.
Qed.

Lemma muggle_answer_total (avail : bool) (parse : parser) (txt : text) :
  exists r, Mugglemath.extract_answer avail parse txt = Normal r.
Proof.
  destruct txt as [|c txt]; [now exists []|].
  destruct (muggle_shape avail parse (c :: txt)) as [(v & E & _)|(E & _)];
    [discriminate| |]; eexists; exact E.
Qed.

Lemma meta_answer_trimmed (avail : bool) (parse : parser) (txt r : text) :
  Metamath.extract_answer avail parse txt = Normal r -> trimmed r.
Proof.
  intros H. unfold trimmed. destruct txt as [|c txt].
  - vm_compute in H. injection H as <-. reflexivity.
  - destruct (meta_shape avail parse (c :: txt)) as
      [(v & E & _ & (a & ->) & _)|(E & _)]; [discriminate| |];
      rewrite E in H; injection H as <-; [apply strip_idem|reflexivity].
Qed.

Lemma muggle_answer_trimmed (avail : bool) (parse : parser) (txt r : text) :
  Mugglemath.extract_answer avail parse txt = Normal r -> trimmed r.
Proof.
  intros H. unfold trimmed. destruct txt as [|c txt].
  - vm_compute in H. injection H as <-. reflexivity.
  - destruct (muggle_shape avail parse (c :: txt)) as
      [(v & E & _ & (a & ->) & _)|(E & _)]; [discriminate| |];
      rewrite E in H; injection H as <-; [apply strip_idem|reflexivity].
Qed.

(** What the symbolic stage gives to [extract_answer]: a trimmed
    string. *)
Lemma symbolic_of_cases (parse : value_parser) (v : pyval) :
  (exists a, symbolic_stage_of parse v = Return (strip a)) \/
  try_except_pass (symbolic_stage_of parse v) = Fall.
Proof.
  unfold symbolic_stage_of. destruct (parse v) as [parsed|]; [|now right].
  destruct (rev parsed) as [|a _]; [now right|].
  cbn zeta. destruct (truthy (strip a)); [left; now exists a|now right].
Qed.

(** On a value that is not a string, only the symbolic stage can give an
    answer: the two other stages raise inside their [try]. *)
Lemma answer_of_other_value (avail : bool) (parse : value_parser)
      (v : pyval) :
  (forall s, v <> PStr s) ->
  MetamathValue.extract_answer avail parse v
  = MugglemathValue.extract_answer avail parse v /\
  exists r, MetamathValue.extract_answer avail parse v = Normal r /\
            trimmed r /\
            (val_truthy v && avail = false -> r = []).
Proof.
  intros Hv. pose proof (symbolic_of_cases parse v) as Hs.
  unfold MetamathValue.extract_answer, MetamathValue.extract_answer_body,
    MugglemathValue.extract_answer, MugglemathValue.extract_answer_body.
  destruct v as [s|items|truth h c]; [exfalso; now apply (Hv s)| |];
    cbn [phrase_stage_of boxed_stage_of];
    destruct (val_truthy _); cbn [negb try_except_pass then_ call andb];
      try (split; [reflexivity|]; now exists []).
  all: destruct avail;
    [|split; [reflexivity|]; now exists []].
  all: destruct Hs as [[a ->]| ->];
    cbn [try_except_pass then_ call]; (split; [reflexivity|]);
    eexists; (split; [reflexivity|]);
    (split; [first [apply strip_idem|reflexivity]|discriminate]).
Qed.

Lemma meta_value_total (avail : bool) (parse : value_parser) (v : pyval) :
  exists r, MetamathValue.extract_answer avail parse v = Normal r /\
            trimmed r.
Proof.
  destruct v as [s|items|truth h c].
  - rewrite meta_value_on_text.
    destruct (meta_answer_total avail (on_text parse) s) as [r E].
    exists r. split; [exact E|]. exact (meta_answer_trimmed _ _ _ _ E).
  - destruct (answer_of_other_value avail parse (PDict items))
      as (_ & r & E & Ht & _); [discriminate|]. now exists r.
  - destruct (answer_of_other_value avail parse (POther truth h c))
      as (_ & r & E & Ht & _); [discriminate|]. now exists r.
Qed.

Lemma muggle_value_total (avail : bool) (parse : value_parser) (v : pyval) :
  exists r, MugglemathValue.extract_answer avail parse v = Normal r /\
            trimmed r.
Proof.
  destruct v as [s|items|truth h c].
  - rewrite muggle_value_on_text.
    destruct (muggle_answer_total avail (on_text parse) s) as [r E].
    exists r. split; [exact E|]. exact (muggle_answer_trimmed _ _ _ _ E).
  - destruct (answer_of_other_value avail parse (PDict items))
      as (<- & r & E & Ht & _); [discriminate|]. now exists r.
  - destruct (answer_of_other_value avail parse (POther truth h c))
      as (<- & r & E & Ht & _); [discriminate|]. now exists r.
Qed.

Lemma answer_of_trimmed (extract : pyval -> outcome text) (item : dict) :
  (forall v r, extract v = Normal r -> trimmed r) ->
  trimmed (answer_of extract item).
Proof.
  intros H. unfold answer_of.
  destruct (extract (dict_get item (str "response") (PStr []))) as [a|] eqn:E.
  - exact (H _ _ E).
  - reflexivity.
Qed.

Lemma meta_value_trimmed (avail : bool) (parse : value_parser)
      (v : pyval) (r : text) :
  MetamathValue.extract_answer avail parse v = Normal r -> trimmed r.
Proof.
  intros H. destruct (meta_value_total avail parse v) as (r' & E & Ht).
  rewrite E in H. injection H as <-. exact Ht.
Qed.

Lemma muggle_value_trimmed (avail : bool) (parse : value_parser)
      (v : pyval) (r : text) :
  MugglemathValue.extract_answer avail parse v = Normal r -> trimmed r.
Proof.
  intros H. destruct (muggle_value_total avail parse v) as (r' & E & Ht).
  rewrite E in H. injection H as <-. exact Ht.
Qed.

(** ** The loops of the metamath script *)

Lemma typed_item_type (item : dict) :
  typed item = true -> item_type item = PStr (type_of item).
Proof. unfold typed, type_of. now destruct (item_type item). Qed.

Lemma ans_aug_gsm (item : dict) : ans_aug item = true -> gsm_type item = true.
Proof.
  unfold ans_aug, gsm_type. intros H. apply text_eqb_eq in H.
  now rewrite H.
Qed.

(** An item whose [type] is not a string stops the loop. *)
Lemma meta_item_untyped (avail : bool) (parse : value_parser)
      (st : MetamathDataset.locals) (item : dict) :
  typed item = false ->
  MetamathDataset.item_body avail parse st item = Raised.
Proof.
  unfold typed, item_type, MetamathDataset.item_body.
  now destruct (dict_get item (str "type") (PStr [])).
Qed.

(** One turn of the loop on an item whose [type] is a string. *)
Lemma meta_item_step (avail : bool) (parse : value_parser)
      (st : MetamathDataset.locals) (item : dict) :
  typed item = true ->
  MetamathDataset.item_body avail parse st item
  = Normal
      {| MetamathDataset.data :=
           MetamathDataset.data st
           ++ (if meta_keeps (MetamathValue.extract_answer avail parse) item
               then [meta_row (MetamathValue.extract_answer avail parse) item]
               else []);
         MetamathDataset.skipped_not_gsm :=
           MetamathDataset.skipped_not_gsm st
           + (if gsm_type item then 0 else 1);
         MetamathDataset.skipped_gsm_ansaug :=
           MetamathDataset.skipped_gsm_ansaug st
           + (if ans_aug item then 1 else 0);
         MetamathDataset.skipped_no_answer :=
           MetamathDataset.skipped_no_answer st
           + (if meta_unanswered (MetamathValue.extract_answer avail parse)
                   item
              then 1 else 0) |}.
Proof.
  intros Ht. pose proof (typed_item_type item Ht) as Hty.
  unfold MetamathDataset.item_body, meta_keeps, meta_unanswered, meta_row.
  change (dict_get item (str "type") (PStr [])) with (item_type item).
  rewrite Hty. fold (gsm_type item). fold (ans_aug item).
  destruct (gsm_type item) eqn:Eg; cbn [negb andb].
  - destruct (ans_aug item) eqn:Ea; cbn [negb andb].
    + rewrite app_nil_r, !Nat.add_0_r. reflexivity.
    + destruct (meta_value_total avail parse
                  (dict_get item (str "response") (PStr []))) as (a & Hx & _).
      assert (Hans : answer_of (MetamathValue.extract_answer avail parse) item
                     = a) by (unfold answer_of; now rewrite Hx).
      rewrite Hx, !Hans.
      destruct (truthy a); cbn [negb];
        rewrite ?app_nil_r, ?Nat.add_0_r; reflexivity.
  - assert (Ea : ans_aug item = false).
    { destruct (ans_aug item) eqn:Ea; [|reflexivity].
      apply ans_aug_gsm in Ea. congruence. }
    rewrite Ea, app_nil_r, !Nat.add_0_r. reflexivity.
Qed.

Lemma filter_as_concat (X : Type) (p : X -> bool) (x : X) (xs : list X) :
  filter p (x :: xs) = (if p x then [x] else []) ++ filter p xs.
Proof. cbn [filter]. now destruct (p x). Qed.

Lemma length_filter_cons (X : Type) (p : X -> bool) (x : X) (xs : list X) :
  length (filter p (x :: xs))
  = (if p x then 1 else 0) + length (filter p xs).
Proof. cbn [filter]. now destruct (p x). Qed.

(** The loop on items whose [type] is a string. *)
Lemma meta_item_loop_typed (avail : bool) (parse : value_parser)
      (xs : list dict) (st : MetamathDataset.locals) :
  forallb typed xs = true ->
  for_each (MetamathDataset.item_body avail parse) xs st
  = Normal
      {| MetamathDataset.data :=
           MetamathDataset.data st
           ++ map (meta_row (MetamathValue.extract_answer avail parse))
                  (filter (meta_keeps
                             (MetamathValue.extract_answer avail parse)) xs);
         MetamathDataset.skipped_not_gsm :=
           MetamathDataset.skipped_not_gsm st
           + length (filter (fun i => negb (gsm_type i)) xs);
         MetamathDataset.skipped_gsm_ansaug :=
           MetamathDataset.skipped_gsm_ansaug st
           + length (filter ans_aug xs);
         MetamathDataset.skipped_no_answer :=
           MetamathDataset.skipped_no_answer st
           + length
               (filter (meta_unanswered
                          (MetamathValue.extract_answer avail parse)) xs) |}.
Proof.
  revert st; induction xs as [|x xs IH]; intros st Hall.
  - destruct st. simpl. rewrite app_nil_r, !Nat.add_0_r. reflexivity.
  - cbn [forallb] in Hall. apply andb_true_iff in Hall as [Hx Hall].
    cbn [for_each]. rewrite (meta_item_step avail parse st x Hx).
    rewrite (IH _ Hall).
    cbn [MetamathDataset.data MetamathDataset.skipped_not_gsm
           MetamathDataset.skipped_gsm_ansaug
           MetamathDataset.skipped_no_answer].
    rewrite !length_filter_cons, filter_as_concat, map_app, <- !app_assoc.
    f_equal. f_equal.
    + f_equal. now destruct (meta_keeps _ x).
    + destruct (gsm_type x); cbn [negb]; lia.
    + lia.
    + lia.
Qed.

(** A loop that completes met only items whose [type] is a string. *)
Lemma meta_item_loop_result (avail : bool) (parse : value_parser)
      (train_data : list dict) (st : MetamathDataset.locals) :
  MetamathDataset.item_loop avail parse train_data = Normal st ->
  forallb typed train_data = true /\
  st = {| MetamathDataset.data :=
            map (meta_row (MetamathValue.extract_answer avail parse))
                (filter (meta_keeps
                           (MetamathValue.extract_answer avail parse))
                        train_data);
          MetamathDataset.skipped_not_gsm :=
            length (filter (fun i => negb (gsm_type i)) train_data);
          MetamathDataset.skipped_gsm_ansaug :=
            length (filter ans_aug train_data);
          MetamathDataset.skipped_no_answer :=
            length
              (filter (meta_unanswered
                         (MetamathValue.extract_answer avail parse))
                      train_data) |}.
Proof.
  unfold MetamathDataset.item_loop. intros H.
  destruct (forallb typed train_data) eqn:Hall.
  - split; [reflexivity|].
    rewrite (meta_item_loop_typed avail parse train_data _ Hall) in H.
    injection H as <-. reflexivity.
  - exfalso. apply forallb_false_In in Hall as (item & Hin & Hty).
    rewrite (for_each_raises _ _ _ train_data item _ Hin) in H;
      [discriminate|].
    intros st'. now apply meta_item_untyped.
Qed.

Lemma filter_four_way (xs : list dict) (answered : dict -> bool) :
  length (filter (fun i => gsm_type i && negb (ans_aug i) && answered i) xs)
  + length (filter (fun i => negb (gsm_type i)) xs)
  + length (filter ans_aug xs)
  + length (filter (fun i => gsm_type i && negb (ans_aug i)
                             && negb (answered i)) xs)
  = length xs.
Proof.
  induction xs as [|x xs IH]; [reflexivity|]. cbn [filter].
  destruct (gsm_type x) eqn:Eg.
  - destruct (ans_aug x), (answered x); cbn [negb andb length]; lia.
  - assert (Ea : ans_aug x = false).
    { destruct (ans_aug x) eqn:Ea; [|reflexivity].
      apply ans_aug_gsm in Ea. congruence. }
    rewrite Ea. cbn [negb andb length]. lia.
Qed.

(** The loop that fills [type_counts], on rows built from items whose
    [type] is a string. *)
Lemma meta_count_loop (extract : pyval -> outcome text) (items : list dict)
      (tc : counts) :
  forallb typed items = true ->
  exists tc',
    for_each MetamathDataset.count_body (map (meta_row extract) items) tc
    = Normal tc' /\
    forall t, counts_get tc' (PStr t) 0
              = counts_get tc (PStr t) 0
                + length (rows_of_type t (map (meta_row extract) items)).
Proof.
  revert tc; induction items as [|x items IH]; intros tc Hall.
  - exists tc. split; [reflexivity|]. intros t. simpl. lia.
  - cbn [forallb] in Hall. apply andb_true_iff in Hall as [Hx Hall].
    cbn [map for_each].
    assert (Hbody : MetamathDataset.count_body tc (meta_row extract x)
                    = Normal (counts_set tc (item_type x)
                                (counts_get tc (item_type x) 0 + 1))).
    { unfold MetamathDataset.count_body.
      change (dict_item (meta_row extract x) (str "type"))
        with (Normal (item_type x)).
      now rewrite (typed_item_type x Hx). }
    rewrite Hbody.
    destruct (IH (counts_set tc (item_type x)
                    (counts_get tc (item_type x) 0 + 1)) Hall)
      as (tc' & E & H).
    exists tc'. split; [exact E|]. intros t.
    rewrite H, counts_get_set. unfold rows_of_type. cbn [filter].
    change (dict_get (meta_row extract x) (str "type") (PStr []))
      with (item_type x).
    destruct (same (item_type x) (PStr t)) eqn:Et.
    + rewrite (typed_item_type x Hx) in Et |- *.
      apply same_str in Et. subst t. simpl length. lia.
    + lia.
Qed.

Lemma forallb_filter (X : Type) (p q : X -> bool) (l : list X) :
  forallb p l = true -> forallb p (filter q l) = true.
Proof.
  induction l as [|x l IH]; cbn [forallb filter]; [reflexivity|].
  intros H. apply andb_true_iff in H as [Hx H].
  destruct (q x); cbn [forallb]; [rewrite Hx|]; now apply IH.
Qed.

(** X12: the rows of the metamath loop. An item whose [type] is not a
    string stops the loop over [train_data] with an exception. When the
    loop completes, the [type] of every item was a string, and the rows
    are, in the order of the corpus, one row for each item whose [type]
    starts with [GSM_], is not [GSM_AnsAug], and whose [response] gives a
    non-empty answer. So every row has a [type] that starts with [GSM_]
    and is not [GSM_AnsAug], a non-empty, trimmed [answer], and the
    [datasource] [gsm8k-metamath]. *)
Theorem metamath_rows (avail : bool) (parse : value_parser)
        (train_data : list dict) :
  (forall item, In item train_data -> typed item = false ->
     MetamathDataset.item_loop avail parse train_data = Raised) /\
  (forall st,
     MetamathDataset.item_loop avail parse train_data = Normal st ->
     (forall item, In item train_data -> typed item = true) /\
     MetamathDataset.data st
     = map (meta_row (MetamathValue.extract_answer avail parse))
           (filter (meta_keeps (MetamathValue.extract_answer avail parse))
                   train_data) /\
     forall row, In row (MetamathDataset.data st) ->
       exists t a,
         dict_get row (str "type") (PStr []) = PStr t /\
         startswith t (str "GSM_") = true /\
         t <> str "GSM_AnsAug" /\
         dict_get row (str "answer") (PStr []) = PStr a /\
         a <> [] /\ trimmed a /\
         dict_get row (str "datasource") (PStr [])
         = PStr (str "gsm8k-metamath")).
Proof.
  split.
  - intros item Hin Hty. unfold MetamathDataset.item_loop.
    apply (for_each_raises _ _ _ train_data item _ Hin).
    intros st'. now apply meta_item_untyped.
  - intros st H. apply meta_item_loop_result in H as [Hall ->].
    cbn [MetamathDataset.data].
    assert (Htyped : forall item, In item train_data -> typed item = true)
      by (intros item Hin; exact (proj1 (forallb_forall _ _) Hall item Hin)).
    split; [exact Htyped|]. split; [reflexivity|].
    intros row Hin.
    apply in_map_iff in Hin as (item & <- & Hi).
    apply filter_In in Hi as [Hi Hk]. unfold meta_keeps in Hk.
    apply andb_true_iff in Hk as [Hk Ht].
    apply andb_true_iff in Hk as [Hg Ha].
    exists (type_of item),
      (answer_of (MetamathValue.extract_answer avail parse) item).
    change (dict_get (meta_row (MetamathValue.extract_answer avail parse)
                        item) (str "type") (PStr []))
      with (item_type item).
    split; [exact (typed_item_type item (Htyped item Hi))|].
    split; [exact Hg|]. split; [|split; [reflexivity|split; [|split]]].
    + intros Heq. unfold ans_aug in Ha. rewrite Heq in Ha. discriminate Ha.
    + now apply truthy_not_nil.
    + apply answer_of_trimmed. apply meta_value_trimmed.
    + reflexivity.
Qed.

(** X13: the counters of the metamath loop. When the loop over
    [train_data] completes, [skipped_not_gsm] is the number of items whose
    [type] does not start with [GSM_], [skipped_gsm_ansaug] the number of
    items of type [GSM_AnsAug], [skipped_no_answer] the number of the
    other items with an empty answer, and these three and the number of
    rows add up to the size of the corpus: each item is counted once. *)
Theorem metamath_counters (avail : bool) (parse : value_parser)
        (train_data : list dict) (st : MetamathDataset.locals) :
  MetamathDataset.item_loop avail parse train_data = Normal st ->
  MetamathDataset.skipped_not_gsm st
  = length (filter (fun i => negb (gsm_type i)) train_data) /\
  MetamathDataset.skipped_gsm_ansaug st
  = length (filter ans_aug train_data) /\
  MetamathDataset.skipped_no_answer st
  = length (filter (meta_unanswered
                      (MetamathValue.extract_answer avail parse))
                   train_data) /\
  length (MetamathDataset.data st)
  + MetamathDataset.skipped_not_gsm st
  + MetamathDataset.skipped_gsm_ansaug st
  + MetamathDataset.skipped_no_answer st
  = length train_data.
Proof.
  intros H. apply meta_item_loop_result in H as [_ ->].
  cbn [MetamathDataset.data MetamathDataset.skipped_not_gsm
         MetamathDataset.skipped_gsm_ansaug
         MetamathDataset.skipped_no_answer].
  repeat split.
  rewrite length_map.
  exact (filter_four_way train_data
           (fun i => truthy (answer_of
                               (MetamathValue.extract_answer avail parse)
                               i))).
Qed.

(** X14: the type counts of the metamath script. The loop that fills
    [type_counts] raises on a row without a [type]; on the rows of a
    completed loop over [train_data] it completes, and for every type the
    counter is the number of rows of that type (0 for a type without
    rows). *)
Theorem metamath_type_counts (avail : bool) (parse : value_parser)
        (train_data : list dict) :
  (forall rows row, In row rows ->
     dict_item row (str "type") = Raised ->
     MetamathDataset.type_counts_loop rows = Raised) /\
  (forall st,
     MetamathDataset.item_loop avail parse train_data = Normal st ->
     exists tc,
       MetamathDataset.type_counts_loop (MetamathDataset.data st)
       = Normal tc /\
       forall t, counts_get tc (PStr t) 0
                 = length (rows_of_type t (MetamathDataset.data st))).
Proof.
  split.
  - intros rows row Hin Hk. unfold MetamathDataset.type_counts_loop.
    apply (for_each_raises _ _ _ rows row _ Hin).
    intros tc. unfold MetamathDataset.count_body. now rewrite Hk.
  - intros st H. apply meta_item_loop_result in H as [Hall ->].
    cbn [MetamathDataset.data]. unfold MetamathDataset.type_counts_loop.
    destruct (meta_count_loop (MetamathValue.extract_answer avail parse)
                (filter (meta_keeps
                           (MetamathValue.extract_answer avail parse))
                        train_data) [])
      as (tc & E & Hc); [now apply forallb_filter|].
    exists tc. split; [exact E|]. intros t. now rewrite Hc.
Qed.

(** ** The line loops of the mugglemath and mumath scripts *)

Section JsonlLoop.

Variable json_loads : text -> outcome pyval.
Variable extract : pyval -> outcome text.
Variable datasource : text.

(** A non-blank line that [json.loads] rejects, or whose value has no
    [get], stops the loop. *)
Lemma jsonl_line_bad (line : text) (st : Jsonl.locals) :
  good_line json_loads line = false ->
  Jsonl.line_body json_loads extract datasource st line = Raised.
Proof.
  unfold good_line, nonblank, is_object, Jsonl.line_body. cbn zeta.
  destruct (truthy (strip line)); cbn [negb orb]; [|discriminate].
  destruct (json_loads (strip line)) as [[s|items|t h c]|];
    first [discriminate|reflexivity].
Qed.

(** One turn of the loop that does not raise. *)
Lemma jsonl_line_step (line : text) (st st' : Jsonl.locals) :
  Jsonl.line_body json_loads extract datasource st line = Normal st' ->
  good_line json_loads line = true /\
  st' = {| Jsonl.data :=
             Jsonl.data st
             ++ (if line_keeps json_loads extract line
                 then [line_row json_loads extract datasource line]
                 else []);
           Jsonl.skipped :=
             Jsonl.skipped st
             + (if line_unanswered json_loads extract line
                then 1 else 0) |}.
Proof.
  unfold good_line, is_object, line_keeps, line_unanswered, line_row,
    answer_of, object_of, nonblank, Jsonl.line_body. cbn zeta.
  destruct (truthy (strip line)); cbn [negb orb andb].
  - destruct (json_loads (strip line)) as [[s|items|t h c]|];
      cbn [val_get]; try discriminate.
    destruct (extract (dict_get items (str "response") (PStr []))) as [a|];
      [|discriminate].
    destruct (truthy a); cbn [negb]; intros H; injection H as <-;
      (split; [reflexivity|]); rewrite ?app_nil_r, ?Nat.add_0_r;
      reflexivity.
  - intros H. injection H as <-. split; [reflexivity|].
    destruct st. cbn [Jsonl.data Jsonl.skipped].
    now rewrite app_nil_r, Nat.add_0_r.
Qed.

Lemma jsonl_lines_result (ls : list text) (st st' : Jsonl.locals) :
  for_each (Jsonl.line_body json_loads extract datasource) ls st
  = Normal st' ->
  forallb (good_line json_loads) ls = true /\
  st' = {| Jsonl.data :=
             Jsonl.data st
             ++ map (line_row json_loads extract datasource)
                    (filter (line_keeps json_loads extract) ls);
           Jsonl.skipped :=
             Jsonl.skipped st
             + length (filter (line_unanswered json_loads extract) ls) |}.
Proof.
  revert st; induction ls as [|x ls IH]; intros st; cbn [for_each forallb].
  - intros H. injection H as <-. split; [reflexivity|].
    destruct st. cbn. now rewrite app_nil_r, Nat.add_0_r.
  - destruct (Jsonl.line_body json_loads extract datasource st x)
      as [s1|] eqn:E; [|discriminate].
    apply jsonl_line_step in E as [Hg ->]. intros H.
    apply IH in H as [Hall ->]. rewrite Hg, Hall. split; [reflexivity|].
    cbn [Jsonl.data Jsonl.skipped].
    rewrite length_filter_cons, filter_as_concat, map_app, <- app_assoc.
    f_equal; [|lia].
    f_equal. f_equal. now destruct (line_keeps json_loads extract x).
Qed.

Lemma filter_two_way (f : list text) (answered : text -> bool) :
  length (filter (fun l => nonblank l && answered l) f)
  + length (filter (fun l => nonblank l && negb (answered l)) f)
  = length (filter nonblank f).
Proof.
  induction f as [|x f IH]; [reflexivity|]. cbn [filter].
  destruct (nonblank x), (answered x); cbn [negb andb length]; lia.
Qed.

Hypothesis extract_trimmed :
  forall v r, extract v = Normal r -> trimmed r.

(** The result of a loop over files that completes. *)
Lemma jsonl_files_result (files : list file) (st : Jsonl.locals) :
  for_each (Jsonl.file_body json_loads extract datasource) files
    {| Jsonl.data := []; Jsonl.skipped := 0 |} = Normal st ->
  (forall f, In f files -> readable f = true) /\
  (forall line, In line (all_lines files) ->
                good_line json_loads line = true) /\
  Jsonl.data st
  = map (line_row json_loads extract datasource)
        (filter (line_keeps json_loads extract) (all_lines files)) /\
  length (Jsonl.data st) + Jsonl.skipped st
  = length (filter nonblank (all_lines files)) /\
  forall row, In row (Jsonl.data st) ->
    exists a,
      dict_get row (str "answer") (PStr []) = PStr a /\
      a <> [] /\ trimmed a /\
      dict_get row (str "datasource") (PStr []) = PStr datasource.
Proof.
  intros H. unfold Jsonl.file_body in H.
  apply (for_files_normal _ (Jsonl.line_body json_loads extract datasource))
    in H as [Hread H].
  apply jsonl_lines_result in H as [Hgood ->].
  cbn [Jsonl.data Jsonl.skipped app].
  split; [exact (proj1 (forallb_forall _ _) Hread)|].
  split; [exact (proj1 (forallb_forall _ _) Hgood)|].
  split; [reflexivity|]. split.
  - rewrite length_map. unfold line_keeps, line_unanswered.
    apply (filter_two_way (all_lines files)
             (fun l => truthy (answer_of extract (object_of json_loads l)))).
  - intros row Hin. apply in_map_iff in Hin as (line & <- & Hl).
    apply filter_In in Hl as [_ Hk]. unfold line_keeps in Hk.
    apply andb_true_iff in Hk as [_ Ht].
    exists (answer_of extract (object_of json_loads line)).
    split; [reflexivity|]. split; [now apply truthy_not_nil|].
    split; [now apply answer_of_trimmed|reflexivity].
Qed.

End JsonlLoop.

Lemma all_lines_one (f : file) : all_lines [f] = lines_of f.
Proof. unfold all_lines. cbn [map concat]. apply app_nil_r. Qed.

(** X15: what stops the line loops. In the mugglemath and in the mumath
    script, a file that cannot be opened or read to its end, and a
    non-blank line that [json.loads] rejects or whose value is not a dict
    ([item.get] raises), make the loop raise: no [try] surrounds them, so
    the rows built before are lost. *)
Theorem jsonl_loop_raises
        (avail : bool) (parse : value_parser)
        (json_loads : text -> outcome pyval) :
  (forall files f, In f files -> readable f = false ->
     MugglemathDataset.file_loop avail parse json_loads files = Raised) /\
  (forall files f line, In f files -> In line (lines_of f) ->
     good_line json_loads line = false ->
     MugglemathDataset.file_loop avail parse json_loads files = Raised) /\
  (forall f, readable f = false ->
     MumathDataset.line_loop avail parse json_loads f = Raised) /\
  (forall f line, In line (lines_of f) ->
     good_line json_loads line = false ->
     MumathDataset.line_loop avail parse json_loads f = Raised).
Proof.
  split; [|split; [|split]].
  - intros files f Hin Hr. unfold MugglemathDataset.file_loop.
    apply (for_each_raises _ _ _ files f _ Hin).
    intros st'. unfold Jsonl.file_body. now apply for_lines_unreadable.
  - intros files f line Hin Hl Hb. unfold MugglemathDataset.file_loop.
    apply (for_each_raises _ _ _ files f _ Hin).
    intros st'. unfold Jsonl.file_body.
    apply (for_lines_raises _ _ f line _ Hl).
    intros st''. now apply jsonl_line_bad.
  - intros f Hr. unfold MumathDataset.line_loop, Jsonl.file_body.
    now apply for_lines_unreadable.
  - intros f line Hl Hb. unfold MumathDataset.line_loop, Jsonl.file_body.
    apply (for_lines_raises _ _ f line _ Hl).
    intros st''. now apply jsonl_line_bad.
Qed.

(** X16: the result of the line loops. When the loop of the mugglemath
    or of the mumath script completes, every file was read to its end and
    the value of every non-blank line was a dict; the rows are, in the
    order of the lines, one row ([problem], [answer], [datasource]) for
    each non-blank line whose [response] gives a non-empty answer; every
    row has a non-empty, trimmed [answer] and the [datasource] of the
    script; and the rows and [skipped] add up to the number of non-blank
    lines. *)
Theorem jsonl_loop_result
        (avail : bool) (parse : value_parser)
        (json_loads : text -> outcome pyval) :
  (forall files st,
     MugglemathDataset.file_loop avail parse json_loads files = Normal st ->
     (forall f, In f files -> readable f = true) /\
     (forall line, In line (all_lines files) ->
                   good_line json_loads line = true) /\
     Jsonl.data st
     = map (line_row json_loads
              (MugglemathValue.extract_answer avail parse)
              (str "gsm8k-mugglemath"))
           (filter (line_keeps json_loads
                      (MugglemathValue.extract_answer avail parse))
                   (all_lines files)) /\
     length (Jsonl.data st) + Jsonl.skipped st
     = length (filter nonblank (all_lines files)) /\
     forall row, In row (Jsonl.data st) ->
       exists a,
         dict_get row (str "answer") (PStr []) = PStr a /\
         a <> [] /\ trimmed a /\
         dict_get row (str "datasource") (PStr [])
         = PStr (str "gsm8k-mugglemath")) /\
  (forall f st,
     MumathDataset.line_loop avail parse json_loads f = Normal st ->
     readable f = true /\
     (forall line, In line (lines_of f) ->
                   good_line json_loads line = true) /\
     Jsonl.data st
     = map (line_row json_loads
              (MetamathValue.extract_answer avail parse)
              (str "gsm8k-mumath"))
           (filter (line_keeps json_loads
                      (MetamathValue.extract_answer avail parse))
                   (lines_of f)) /\
     length (Jsonl.data st) + Jsonl.skipped st
     = length (filter nonblank (lines_of f)) /\
     forall row, In row (Jsonl.data st) ->
       exists a,
         dict_get row (str "answer") (PStr []) = PStr a /\
         a <> [] /\ trimmed a /\
         dict_get row (str "datasource") (PStr [])
         = PStr (str "gsm8k-mumath")).
Proof.
  split.
  - intros files st H. unfold MugglemathDataset.file_loop in H.
    exact (jsonl_files_result json_loads _ _
             (muggle_value_trimmed avail parse) files st H).
  - intros f st H. unfold MumathDataset.line_loop in H.
    destruct (jsonl_files_result json_loads
                (MetamathValue.extract_answer avail parse)
                (str "gsm8k-mumath")
                (meta_value_trimmed avail parse) [f] st)
      as (Hr & Hg & Hd & Hn & Hrow).
    { cbn [for_each]. rewrite H. reflexivity. }
    rewrite all_lines_one in Hg, Hd, Hn.
    split; [apply Hr; now left|]. now repeat split.
Qed.

(** ** [count_unique_queries] *)

Section CountUniqueLoop.

Variable json_loads : text -> outcome pyval.

Lemma cu_line_step (line : text) (qs : list pyval) (n : nat)
      (st' : list pyval * nat) :
  CountUnique.line_body json_loads (qs, n) line = Normal st' ->
  good_line json_loads line = true /\
  st' = (qs ++ (if nonblank line then [query_of json_loads line] else []),
         n + (if nonblank line then 1 else 0)).
Proof.
  unfold good_line, is_object, query_of, object_of, nonblank,
    CountUnique.line_body. cbn zeta.
  destruct (truthy (strip line)); cbn [negb orb].
  - destruct (json_loads (strip line)) as [[s|items|t h c]|];
      cbn [val_get]; try discriminate.
    cbn [fst snd]. intros H. injection H as <-. now split.
  - intros H. injection H as <-. split; [reflexivity|].
    now rewrite app_nil_r, Nat.add_0_r.
Qed.

Lemma cu_lines_result (ls : list text) (qs : list pyval) (n : nat)
      (st' : list pyval * nat) :
  for_each (CountUnique.line_body json_loads) ls (qs, n) = Normal st' ->
  forallb (good_line json_loads) ls = true /\
  st' = (qs ++ map (query_of json_loads) (filter nonblank ls),
         n + length (filter nonblank ls)).
Proof.
  revert qs n; induction ls as [|x ls IH]; intros qs n;
    cbn [for_each forallb].
  - intros H. injection H as <-. split; [reflexivity|].
    cbn. now rewrite app_nil_r, Nat.add_0_r.
  - destruct (CountUnique.line_body json_loads (qs, n) x) as [s1|] eqn:E;
      [|discriminate].
    apply cu_line_step in E as [Hg ->]. intros H.
    apply IH in H as [Hall ->]. rewrite Hg, Hall. split; [reflexivity|].
    rewrite length_filter_cons, filter_as_concat, map_app, <- app_assoc.
    f_equal; [|lia].
    f_equal. f_equal. now destruct (nonblank x).
Qed.

Lemma cu_files_result (file1 file2 : file) (st : CountUnique.locals) :
  for_each (CountUnique.file_body json_loads) [file1; file2]
    {| CountUnique.all_queries := []; CountUnique.file_counts := [] |}
  = Normal st ->
  readable file1 = true /\ readable file2 = true /\
  forallb (good_line json_loads) (lines_of file1 ++ lines_of file2) = true /\
  st = {| CountUnique.all_queries :=
            map (query_of json_loads)
                (filter nonblank (lines_of file1 ++ lines_of file2));
          CountUnique.file_counts :=
            [length (filter nonblank (lines_of file1));
             length (filter nonblank (lines_of file2))] |}.
Proof.
  cbn [for_each]. unfold CountUnique.file_body.
  cbn [CountUnique.all_queries CountUnique.file_counts].
  destruct (for_lines (CountUnique.line_body json_loads) file1 ([], 0))
    as [[qs1 n1]|] eqn:E1; [|discriminate].
  cbn [CountUnique.all_queries CountUnique.file_counts].
  destruct (for_lines (CountUnique.line_body json_loads) file2 (qs1, 0))
    as [[qs2 n2]|] eqn:E2; [|discriminate].
  apply for_lines_normal in E1 as [Hr1 E1].
  apply for_lines_normal in E2 as [Hr2 E2].
  apply cu_lines_result in E1 as [Hg1 E1].
  apply cu_lines_result in E2 as [Hg2 E2].
  injection E1 as -> ->. injection E2 as -> ->.
  intros H. injection H as <-.
  split; [exact Hr1|]. split; [exact Hr2|]. split.
  - rewrite forallb_app, Hg1, Hg2. reflexivity.
  - cbn [app]. now rewrite filter_app, map_app.
Qed.

Lemma cu_files_bad (file1 file2 : file) (line : text) :
  In line (lines_of file1 ++ lines_of file2) ->
  good_line json_loads line = false ->
  for_each (CountUnique.file_body json_loads) [file1; file2]
    {| CountUnique.all_queries := []; CountUnique.file_counts := [] |}
  = Raised.
Proof.
  intros Hin Hb.
  destruct (for_each (CountUnique.file_body json_loads) [file1; file2] _)
    as [st|] eqn:E; [|reflexivity].
  apply cu_files_result in E as (_ & _ & Hg & _).
  rewrite (proj1 (forallb_forall _ _) Hg line Hin) in Hb. discriminate Hb.
Qed.

End CountUniqueLoop.

Lemma dedup_length_le (l : list pyval) :
  length (CountUnique.dedup l) <= length l.
Proof.
  induction l as [|x l IH]; cbn [CountUnique.dedup length]; [lia|].
  destruct (existsb (same x) l); cbn [length]; lia.
Qed.

Lemma existsb_false_Forall (x : pyval) (l : list pyval) :
  existsb (same x) l = false <-> Forall (fun b => same x b = false) l.
Proof.
  induction l as [|y l IH]; cbn [existsb].
  - split; [constructor|reflexivity].
  - rewrite orb_false_iff, IH. split.
    + intros [H1 H2]. now constructor.
    + intros H. inversion H; subst. now split.
Qed.

Lemma dedup_length_eq (l : list pyval) :
  length (CountUnique.dedup l) = length l <-> pairwise_distinct l.
Proof.
  unfold pairwise_distinct.
  induction l as [|x l IH]; cbn [CountUnique.dedup length].
  - split; [constructor|reflexivity].
  - pose proof (dedup_length_le l) as Hle.
    destruct (existsb (same x) l) eqn:E; cbn [length].
    + split; [lia|]. intros H. inversion H; subst.
      apply existsb_false_Forall in H2. congruence.
    + split.
      * intros H. constructor; [now apply existsb_false_Forall|].
        apply IH. lia.
      * intros H. inversion H; subst. f_equal. now apply IH.
Qed.

Lemma dedup_nonempty (l : list pyval) :
  l <> [] -> CountUnique.dedup l <> [].
Proof.
  induction l as [|x l IH]; [congruence|]. intros _.
  cbn [CountUnique.dedup]. destruct (existsb (same x) l) eqn:E;
    [|discriminate].
  apply IH. intros ->. discriminate E.
Qed.

(** X17: what makes [count_unique_queries] raise. It raises when a
    file cannot be opened or read to its end; when the value of a
    non-blank line is rejected by [json.loads] or is not a dict
    ([data.get] raises); when the [query] of a line cannot be hashed
    ([set] raises); and when the files hold no non-blank line at all:
    [total_lines] is then 0 and the duplicate rate divides by it. *)
Theorem count_unique_raises
        (json_loads : text -> outcome pyval) (file1 file2 : file) :
  (readable file1 && readable file2 = false ->
   CountUnique.count_unique_queries json_loads file1 file2 = Raised) /\
  (forall line, In line (lines_of file1 ++ lines_of file2) ->
     good_line json_loads line = false ->
     CountUnique.count_unique_queries json_loads file1 file2 = Raised) /\
  (forall line, In line (lines_of file1 ++ lines_of file2) ->
     nonblank line = true -> hashable (query_of json_loads line) = false ->
     CountUnique.count_unique_queries json_loads file1 file2 = Raised) /\
  (filter nonblank (lines_of file1 ++ lines_of file2) = [] ->
   CountUnique.count_unique_queries json_loads file1 file2 = Raised).
Proof.
  unfold CountUnique.count_unique_queries.
  split; [|split; [|split]].
  - intros Hr.
    destruct (for_each (CountUnique.file_body json_loads) [file1; file2] _)
      as [st|] eqn:E; [|reflexivity].
    apply cu_files_result in E as (H1 & H2 & _).
    rewrite H1, H2 in Hr. discriminate Hr.
  - intros line Hin Hb. now rewrite (cu_files_bad _ _ _ _ Hin Hb).
  - intros line Hin Hn Hh.
    destruct (for_each (CountUnique.file_body json_loads) [file1; file2] _)
      as [st|] eqn:E; [|reflexivity].
    apply cu_files_result in E as (_ & _ & _ & ->).
    cbn [CountUnique.all_queries]. unfold CountUnique.set_of.
    destruct (forallb hashable _) eqn:Hall; [|reflexivity].
    rewrite (proj1 (forallb_forall _ _) Hall (query_of json_loads line))
      in Hh; [discriminate Hh|].
    apply in_map. apply filter_In. now split.
  - intros Hnone.
    destruct (for_each (CountUnique.file_body json_loads) [file1; file2] _)
      as [st|] eqn:E; [|reflexivity].
    apply cu_files_result in E as (_ & _ & _ & ->).
    cbn [CountUnique.all_queries CountUnique.file_counts].
    rewrite Hnone. rewrite filter_app in Hnone.
    apply app_eq_nil in Hnone as [-> ->]. reflexivity.
Qed.

(** X18: the numbers of [count_unique_queries]. When it completes,
    both files were read to their end, the value of every non-blank line
    was a dict and every [query] could be hashed; the counts per file are
    the numbers of non-blank lines of the two files, [total_lines] is
    their sum and is not 0, the number of unique queries is at least 1 and
    at most [total_lines], and [duplicates] is their difference: it is
    never negative, and it is 0 exactly when no two queries are equal. *)
Theorem count_unique_numbers
        (json_loads : text -> outcome pyval) (file1 file2 : file)
        (st : CountUnique.stats) :
  CountUnique.count_unique_queries json_loads file1 file2 = Normal st ->
  readable file1 = true /\ readable file2 = true /\
  (forall line, In line (lines_of file1 ++ lines_of file2) ->
     good_line json_loads line = true /\
     (nonblank line = true -> hashable (query_of json_loads line) = true)) /\
  CountUnique.per_file st
  = [length (filter nonblank (lines_of file1));
     length (filter nonblank (lines_of file2))] /\
  CountUnique.total_lines st
  = length (filter nonblank (lines_of file1 ++ lines_of file2)) /\
  0 < CountUnique.total_lines st /\
  1 <= CountUnique.unique_queries st <= CountUnique.total_lines st /\
  CountUnique.duplicates st
  = (Z.of_nat (CountUnique.total_lines st)
     - Z.of_nat (CountUnique.unique_queries st))%Z /\
  (0 <= CountUnique.duplicates st)%Z /\
  (CountUnique.duplicates st = 0%Z <->
   pairwise_distinct
     (map (query_of json_loads)
          (filter nonblank (lines_of file1 ++ lines_of file2)))).
Proof.
  unfold CountUnique.count_unique_queries.
  destruct (for_each (CountUnique.file_body json_loads) [file1; file2] _)
    as [loc|] eqn:E; [|discriminate].
  apply cu_files_result in E as (Hr1 & Hr2 & Hg & ->).
  cbn [CountUnique.all_queries CountUnique.file_counts fold_left].
  set (queries := map (query_of json_loads)
                      (filter nonblank (lines_of file1 ++ lines_of file2))).
  unfold CountUnique.set_of.
  destruct (forallb hashable queries) eqn:Hh; [|discriminate].
  assert (Ht : 0 + length (filter nonblank (lines_of file1))
               + length (filter nonblank (lines_of file2))
               = length queries).
  { unfold queries. rewrite length_map, filter_app, length_app. lia. }
  rewrite Ht.
  destruct (Nat.eqb_spec (length queries) 0) as [Hz|Hpos]; [discriminate|].
  intros H. injection H as <-.
  cbn [CountUnique.per_file CountUnique.total_lines
         CountUnique.unique_queries CountUnique.duplicates].
  pose proof (dedup_length_le queries) as Hle.
  assert (Hne : CountUnique.dedup queries <> []).
  { apply dedup_nonempty. intros Hq. rewrite Hq in Hpos. now apply Hpos. }
  assert (Hone : 1 <= length (CountUnique.dedup queries)).
  { destruct (CountUnique.dedup queries); [congruence|simpl; lia]. }
  split; [exact Hr1|]. split; [exact Hr2|]. split.
  { intros line Hin. split.
    - exact (proj1 (forallb_forall _ _) Hg line Hin).
    - intros Hn. apply (proj1 (forallb_forall _ _) Hh).
      unfold queries. apply in_map. apply filter_In. now split. }
  split; [reflexivity|].
  split; [unfold queries; now rewrite length_map|].
  split; [lia|]. split; [lia|]. split; [reflexivity|]. split; [lia|].
  rewrite <- dedup_length_eq. lia.
Qed.

(** ** Runs of the builders *)

Example metamath_run :
  MetamathDataset.item_loop false no_value_parse
    [ [(str "type", PStr (str "GSM_Rephrased"));
       (str "query", PStr (str "2+3?"));
       (str "response", PStr (str "It is 5. The answer is: 5"))];
      [(str "type", PStr (str "GSM_AnsAug"));
       (str "query", PStr (str "1+1?"));
       (str "response", PStr (str "The answer is: 2"))];
      [(str "type", PStr (str "MATH_FOBAR")); (str "query", PStr (str "x?"));
       (str "response", PStr (str "The answer is: 1"))];
      [(str "type", PStr (str "GSM_SV")); (str "query", PStr (str "y?"));
       (str "response", POther false true 0)] ]
  = Normal
      {| MetamathDataset.data :=
           [ [(str "problem", PStr (str "2+3?"));
              (str "answer", PStr (str "5"));
              (str "datasource", PStr (str "gsm8k-metamath"));
              (str "type", PStr (str "GSM_Rephrased"))] ];
         MetamathDataset.skipped_not_gsm := 1;
         MetamathDataset.skipped_gsm_ansaug := 1;
         MetamathDataset.skipped_no_answer := 1 |}.
Proof. vm_compute. reflexivity. Qed.

(** A [type] that is [None] stops the loop, after an item that gave a
    row. *)
Example metamath_null_type_run :
  MetamathDataset.item_loop false no_value_parse
    [ [(str "type", PStr (str "GSM_Rephrased"));
       (str "query", PStr (str "2+3?"));
       (str "response", PStr (str "The answer is: 5"))];
      [(str "type", POther false true 0); (str "query", PStr (str "1+1?"));
       (str "response", PStr (str "The answer is: 2"))] ]
  = Raised.
Proof. vm_compute. reflexivity. Qed.

Example mugglemath_run :
  MugglemathDataset.file_loop false no_value_parse bar_loads
    [ Lines [str "2+3?|so \boxed{5}" ++ [NL]; [NL]] true;
      Lines [str "1+1?|The answer is: 2" ++ [NL]] true ]
  = Normal
      {| Jsonl.data :=
           [ [(str "problem", PStr (str "2+3?"));
              (str "answer", PStr (str "5"));
              (str "datasource", PStr (str "gsm8k-mugglemath"))] ];
         Jsonl.skipped := 1 |}.
Proof. vm_compute. reflexivity. Qed.

(** A line that holds a number is accepted by [json.loads], and stops
    the loop at [item.get]. *)
Example mumath_number_line_run :
  MumathDataset.line_loop false no_value_parse bar_loads
    (Lines [str "2+3?|The answer is: 5" ++ [NL]; str "5" ++ [NL]] true)
  = Raised.
Proof. vm_compute. reflexivity. Qed.

Lemma metamath_rows_witness :
  (exists st,
     MetamathDataset.item_loop true (fun _ => Normal [str " 7 "])
       [ [(str "type", PStr (str "GSM_SV")); (str "query", PStr (str "x?"));
          (str "response", PStr (str "so \boxed{3}. The answer is: 3."))];
         [(str "type", PStr (str "GSM_FOBAR"));
          (str "response", POther true true 7)];
         [(str "query", PStr (str "no type"))] ]
     = Normal st /\
     MetamathDataset.data st
     = [ [(str "problem", PStr (str "x?")); (str "answer", PStr (str "3"));
          (str "datasource", PStr (str "gsm8k-metamath"));
          (str "type", PStr (str "GSM_SV"))];
         [(str "problem", PStr []); (str "answer", PStr (str "7"));
          (str "datasource", PStr (str "gsm8k-metamath"));
          (str "type", PStr (str "GSM_FOBAR"))] ]) /\
  MetamathDataset.item_loop false no_value_parse
    [ [(str "type", PStr (str "GSM_SV")); (str "query", PStr (str "x?"));
       (str "response", PStr (str "The answer is: 3."))];
      [(str "type", POther false true 0); (str "query", PStr (str "y?"))] ]
  = Raised.
Proof.
  split.
  - eexists. split; [vm_compute; reflexivity|].
    destruct (metamath_rows true (fun _ => Normal [str " 7 "])
                [ [(str "type", PStr (str "GSM_SV"));
                   (str "query", PStr (str "x?"));
                   (str "response",
                    PStr (str "so \boxed{3}. The answer is: 3."))];
                  [(str "type", PStr (str "GSM_FOBAR"));
                   (str "response", POther true true 7)];
                  [(str "query", PStr (str "no type"))] ]) as [_ H].
    destruct (H _ ltac:(vm_compute; reflexivity)) as (_ & Hd & _).
    exact Hd.
  - apply (proj1 (metamath_rows false no_value_parse _)
             [(str "type", POther false true 0);
              (str "query", PStr (str "y?"))]).
    + right. now left.
    + vm_compute. reflexivity.
Defined.

Lemma metamath_counters_witness :
  exists st,
    MetamathDataset.item_loop false no_value_parse
      [ [(str "type", PStr (str "GSM_SV")); (str "query", PStr (str "x?"));
         (str "response", PStr (str "The answer is: 3."))];
        [(str "type", PStr (str "GSM_AnsAug"))];
        [(str "type", PStr (str "MATH_SV"))];
        [(str "query", PStr (str "no type"))];
        [(str "type", PStr (str "GSM_FOBAR"));
         (str "response", PStr (str "no idea"))] ]
    = Normal st /\
    MetamathDataset.skipped_not_gsm st = 2 /\
    MetamathDataset.skipped_gsm_ansaug st = 1 /\
    MetamathDataset.skipped_no_answer st = 1 /\
    length (MetamathDataset.data st)
    + MetamathDataset.skipped_not_gsm st
    + MetamathDataset.skipped_gsm_ansaug st
    + MetamathDataset.skipped_no_answer st = 5.
Proof.
  eexists. split; [vm_compute; reflexivity|].
  destruct (metamath_counters false no_value_parse
              [ [(str "type", PStr (str "GSM_SV"));
                 (str "query", PStr (str "x?"));
                 (str "response", PStr (str "The answer is: 3."))];
                [(str "type", PStr (str "GSM_AnsAug"))];
                [(str "type", PStr (str "MATH_SV"))];
                [(str "query", PStr (str "no type"))];
                [(str "type", PStr (str "GSM_FOBAR"));
                 (str "response", PStr (str "no idea"))] ]
              _ ltac:(vm_compute; reflexivity)) as (H1 & H2 & H3 & H4).
  split; [exact H1|]. split; [exact H2|]. split; [exact H3|exact H4].
Defined.

Lemma metamath_type_counts_witness :
  exists tc,
    MetamathDataset.type_counts_loop
      [ [(str "problem", PStr (str "x?")); (str "answer", PStr (str "3"));
         (str "datasource", PStr (str "gsm8k-metamath"));
         (str "type", PStr (str "GSM_SV"))];
        [(str "problem", PStr (str "y?")); (str "answer", PStr (str "4"));
         (str "datasource", PStr (str "gsm8k-metamath"));
         (str "type", PStr (str "GSM_SV"))] ]
    = Normal tc /\
    counts_get tc (PStr (str "GSM_SV")) 0 = 2 /\
    counts_get tc (PStr (str "GSM_FOBAR")) 0 = 0.
Proof.
  destruct (metamath_type_counts false no_value_parse
              [ [(str "type", PStr (str "GSM_SV"));
                 (str "query", PStr (str "x?"));
                 (str "response", PStr (str "The answer is: 3."))];
                [(str "type", PStr (str "GSM_SV"));
                 (str "query", PStr (str "y?"));
                 (str "response", PStr (str "so \boxed{4}"))] ])
    as [_ H].
  destruct (H _ ltac:(vm_compute; reflexivity)) as (tc & E & Hc).
  exists tc. split; [exact E|]. split; [apply Hc|apply Hc].
Defined.

Lemma jsonl_loop_raises_witness :
  MumathDataset.line_loop false no_value_parse bar_loads
    (Lines [str "2+3?|The answer is: 5" ++ [NL]; str "5" ++ [NL]] true)
  = Raised /\
  MugglemathDataset.file_loop false no_value_parse bar_loads
    [Lines [str "2+3?|so \boxed{5}" ++ [NL]] true;
     Lines [str "not an object" ++ [NL]] true]
  = Raised.
Proof.
  split.
  - apply (proj2 (proj2 (proj2 (jsonl_loop_raises false no_value_parse
                                   bar_loads)))
             _ (str "5" ++ [NL])).
    + right. now left.
    + vm_compute. reflexivity.
  - apply (proj1 (proj2 (jsonl_loop_raises false no_value_parse bar_loads))
             _ (Lines [str "not an object" ++ [NL]] true)
             (str "not an object" ++ [NL])).
    + right. now left.
    + now left.
    + vm_compute. reflexivity.
Defined.

Lemma jsonl_loop_result_witness :
  exists st,
    MumathDataset.line_loop false no_value_parse bar_loads
      (Lines [str "2+3?|The answer is: 5" ++ [NL]; [NL];
              str "null|no idea" ++ [NL]] true)
    = Normal st /\
    Jsonl.data st
    = [ [(str "problem", PStr (str "2+3?")); (str "answer", PStr (str "5"));
         (str "datasource", PStr (str "gsm8k-mumath"))] ] /\
    length (Jsonl.data st) + Jsonl.skipped st = 2.
Proof.
  eexists. split; [vm_compute; reflexivity|].
  destruct (proj2 (jsonl_loop_result false no_value_parse bar_loads)
              (Lines [str "2+3?|The answer is: 5" ++ [NL]; [NL];
                      str "null|no idea" ++ [NL]] true)
              _ ltac:(vm_compute; reflexivity))
    as (_ & _ & Hd & Hn & _).
  split; [exact Hd|exact Hn].
Defined.

Lemma count_unique_raises_witness :
  CountUnique.count_unique_queries bar_loads
    (Lines [str "2+3?|5" ++ [NL]] true) (Lines [str "[1]|2" ++ [NL]] true)
  = Raised /\
  CountUnique.count_unique_queries bar_loads (Lines [[NL]] true) (Lines [] true)
  = Raised /\
  CountUnique.count_unique_queries bar_loads
    (Lines [str "2+3?|5" ++ [NL]; str "5" ++ [NL]] true) (Lines [] true)
  = Raised.
Proof.
  split; [|split].
  - apply (proj1 (proj2 (proj2 (count_unique_raises bar_loads _ _)))
             (str "[1]|2" ++ [NL])).
    + right. now left.
    + vm_compute. reflexivity.
    + vm_compute. reflexivity.
  - apply (proj2 (proj2 (proj2 (count_unique_raises bar_loads _ _)))).
    vm_compute. reflexivity.
  - apply (proj1 (proj2 (count_unique_raises bar_loads _ _))
             (str "5" ++ [NL])).
    + right. now left.
    + vm_compute. reflexivity.
Defined.

Lemma count_unique_numbers_witness :
  exists st,
    CountUnique.count_unique_queries bar_loads
      (Lines [str "2+3?|5" ++ [NL]; [NL]; str "1+1?|2" ++ [NL]] true)
      (Lines [str "2+3?|five" ++ [NL]; str "null|0" ++ [NL]] true)
    = Normal st /\
    CountUnique.per_file st = [2; 2] /\
    CountUnique.total_lines st = 4 /\
    CountUnique.unique_queries st = 3 /\
    CountUnique.duplicates st = 1%Z.
Proof.
  eexists. split; [vm_compute; reflexivity|].
  destruct (count_unique_numbers bar_loads
              (Lines [str "2+3?|5" ++ [NL]; [NL]; str "1+1?|2" ++ [NL]] true)
              (Lines [str "2+3?|five" ++ [NL]; str "null|0" ++ [NL]] true)
              _ ltac:(vm_compute; reflexivity))
    as (_ & _ & _ & Hp & Ht & _ & _ & Hd & _).
  split; [exact Hp|]. split; [exact Ht|]. split; [reflexivity|exact Hd].
Defined.
